(** * UptimeMonitor: the ledger state machine and the observer's HTTP probe

    A shallow embedding of the [UptimeMonitor] contract (staking, monitoring
    requests, result submission, consensus and settlement) and of the
    monitoring node ([httpCheck] and [performMonitoringCheck], the request
    cache kept by [syncWithBlockchain] and the check queue of
    [processCheckQueue]), followed by the properties proved about them.

    Conventions of the embedding:
    - [uint256] values are binary naturals; Solidity 0.8 checked arithmetic
      is written out ([add_chk], [mul_chk], [sub_chk] revert on overflow);
    - a Solidity [mapping] is a total function (every key holds the zero
      value until written);
    - a call either returns a new world or reverts with a reason; a
      transaction that reverts leaves the world as it was ([transact]);
    - the reward token is an external contract reached through the
      [IERC20] interface: a call to it returns a boolean or reverts.  The
      token never calls back into the monitor, so the [nonReentrant]
      modifier never fires and is not represented;
    - ether sent to the payable entry point is not represented. *)

From Stdlib Require Import Arith NArith ZArith List Bool String Lia Permutation.
From Stdlib Require Import Sorted DecimalString DecimalN.
Import ListNotations.
Open Scope N_scope.

Set Implicit Arguments.

(** ** Machine integers and addresses *)

Definition uint256 := N.
Definition address := N.

Definition MAX_UINT256 : N := 2 ^ 256 - 1.

(** ** Calls that may revert *)

Inductive outcome (A : Type) : Type :=
| Ok (a : A)
| Revert (reason : string).

Arguments Ok {A} a.
Arguments Revert {A} reason.

Definition bind {A B : Type} (m : outcome A) (f : A -> outcome B) : outcome B :=
  match m with
  | Ok a => f a
  | Revert r => Revert r
  end.

Notation "x <- m ;; k" := (bind m (fun x => k))
  (at level 100, m at next level, right associativity).
Notation "'require' c 'orelse' msg ;; k" := (if c then k else Revert msg)
  (at level 100, c at next level, msg at next level, right associativity).

Definition succeeded {A : Type} (m : outcome A) : bool :=
  match m with Ok _ => true | Revert _ => false end.

(** Checked arithmetic of Solidity 0.8: [Panic(0x11)] on overflow. *)
Definition add_chk (a b : uint256) : outcome uint256 :=
  if a + b <=? MAX_UINT256 then Ok (a + b) else Revert "Panic(0x11)".

Definition mul_chk (a b : uint256) : outcome uint256 :=
  if a * b <=? MAX_UINT256 then Ok (a * b) else Revert "Panic(0x11)".

Definition sub_chk (a b : uint256) : outcome uint256 :=
  if b <=? a then Ok (a - b) else Revert "Panic(0x11)".

(** Solidity mappings. *)
Definition upd {V : Type} (m : N -> V) (k : N) (v : V) : N -> V :=
  fun k' => if k' =? k then v else m k'.

(** ** Structs *)

Module MonitoringNode.
Record t := mk {
  nodeAddress : address;
  stake : uint256;
  reputation : uint256;
  totalChecks : uint256;
  successfulChecks : uint256;
  isActive : bool;
  registrationTime : uint256
}.
Definition zero : t := mk 0 0 0 0 0 false 0.
Definition with_stake (v : uint256) (n : t) : t :=
  mk (nodeAddress n) v (reputation n) (totalChecks n) (successfulChecks n)
     (isActive n) (registrationTime n).
Definition with_reputation (v : uint256) (n : t) : t :=
  mk (nodeAddress n) (stake n) v (totalChecks n) (successfulChecks n)
     (isActive n) (registrationTime n).
Definition with_totalChecks (v : uint256) (n : t) : t :=
  mk (nodeAddress n) (stake n) (reputation n) v (successfulChecks n)
     (isActive n) (registrationTime n).
Definition with_successfulChecks (v : uint256) (n : t) : t :=
  mk (nodeAddress n) (stake n) (reputation n) (totalChecks n) v
     (isActive n) (registrationTime n).
Definition with_isActive (v : bool) (n : t) : t :=
  mk (nodeAddress n) (stake n) (reputation n) (totalChecks n)
     (successfulChecks n) v (registrationTime n).
End MonitoringNode.

Module MonitoringRequest.
Record t := mk {
  id : uint256;
  requester : address;
  url : string;
  interval : uint256;
  timeout : uint256;
  reward : uint256;
  isActive : bool;
  createdAt : uint256;
  lastCheckedAt : uint256
}.
Definition zero : t := mk 0 0 EmptyString 0 0 0 false 0 0.
Definition with_isActive (v : bool) (r : t) : t :=
  mk (id r) (requester r) (url r) (interval r) (timeout r) (reward r) v
     (createdAt r) (lastCheckedAt r).
Definition with_lastCheckedAt (v : uint256) (r : t) : t :=
  mk (id r) (requester r) (url r) (interval r) (timeout r) (reward r)
     (isActive r) (createdAt r) v.
End MonitoringRequest.

Module MonitoringResult.
Record t := mk {
  node : address;
  isUp : bool;
  responseTime : uint256;
  timestamp : uint256;
  isSubmitted : bool
}.
Definition zero : t := mk 0 false 0 0 false.
End MonitoringResult.

(** ** Events *)

Inductive Event : Type :=
| MonitoringNodeRegistered (node : address) (stake : uint256)
| MonitoringNodeUnregistered (node : address)
| MonitoringRequestCreated (requestId : uint256) (requester : address) (url : string)
| MonitoringResultSubmitted (requestId : uint256) (node : address) (isUp : bool)
    (responseTime : uint256)
| ConsensusReached (requestId : uint256) (isUp : bool) (averageResponseTime : uint256)
| RewardDistributed (node : address) (amount : uint256)
| PenaltyApplied (node : address) (amount : uint256).

(** ** The reward token, seen through its interface

    [transfer] and [transferFrom] are called by the monitor ([caller] is
    [address(this)]); each returns a boolean together with the token's new
    state, or reverts. *)

Inductive call_result (T : Type) : Type :=
| Returned (ok : bool) (t : T)
| Reverted.

Arguments Returned {T} ok t.
Arguments Reverted {T}.

Record IERC20 : Type := {
  token_state : Type;
  transfer : address -> address -> uint256 -> token_state -> call_result token_state;
  transferFrom :
    address -> address -> address -> uint256 -> token_state -> call_result token_state;
  balanceOf : token_state -> address -> uint256
}.

(** The transaction context: [msg.sender] and [block.timestamp]. *)
Record env : Type := {
  msg_sender : address;
  block_timestamp : uint256
}.

(** Removal from an address or id array as the contract does it: the first
    occurrence is overwritten with the last element and the array is popped. *)
Fixpoint swap_pop (x : N) (l : list N) : list N :=
  match l with
  | [] => []
  | y :: tl =>
      if y =? x then
        match tl with
        | [] => []
        | _ :: _ => last tl y :: removelast tl
        end
      else y :: swap_pop x tl
  end.

(** ** The contract *)

Section UptimeMonitor.

Variable rewardToken : IERC20.

(** Contract storage, the token's state and the event log. *)
Record world : Type := mkWorld {
  minimumStake : uint256;
  consensusThreshold : uint256;
  maxResponseTime : uint256;
  _nextRequestId : uint256;
  monitoringNodes : address -> MonitoringNode.t;
  monitoringRequests : uint256 -> MonitoringRequest.t;
  monitoringResults : uint256 -> address -> MonitoringResult.t;
  requestNodes : uint256 -> list address;
  nodeRequests : address -> list uint256;
  activeNodes : list address;
  activeRequests : list uint256;
  _owner : address;
  _paused : bool;
  self : address;
  token : token_state rewardToken;
  events : list Event
}.

Definition set_minimumStake (v : uint256) (w : world) : world :=
  mkWorld v (consensusThreshold w) (maxResponseTime w) (_nextRequestId w)
    (monitoringNodes w) (monitoringRequests w) (monitoringResults w)
    (requestNodes w) (nodeRequests w) (activeNodes w) (activeRequests w)
    (_owner w) (_paused w) (self w) (token w) (events w).

Definition set_consensusThreshold (v : uint256) (w : world) : world :=
  mkWorld (minimumStake w) v (maxResponseTime w) (_nextRequestId w)
    (monitoringNodes w) (monitoringRequests w) (monitoringResults w)
    (requestNodes w) (nodeRequests w) (activeNodes w) (activeRequests w)
    (_owner w) (_paused w) (self w) (token w) (events w).

Definition set_nextRequestId (v : uint256) (w : world) : world :=
  mkWorld (minimumStake w) (consensusThreshold w) (maxResponseTime w) v
    (monitoringNodes w) (monitoringRequests w) (monitoringResults w)
    (requestNodes w) (nodeRequests w) (activeNodes w) (activeRequests w)
    (_owner w) (_paused w) (self w) (token w) (events w).

Definition set_monitoringNodes (v : address -> MonitoringNode.t) (w : world) : world :=
  mkWorld (minimumStake w) (consensusThreshold w) (maxResponseTime w)
    (_nextRequestId w) v (monitoringRequests w) (monitoringResults w)
    (requestNodes w) (nodeRequests w) (activeNodes w) (activeRequests w)
    (_owner w) (_paused w) (self w) (token w) (events w).

Definition set_monitoringRequests (v : uint256 -> MonitoringRequest.t) (w : world)
  : world :=
  mkWorld (minimumStake w) (consensusThreshold w) (maxResponseTime w)
    (_nextRequestId w) (monitoringNodes w) v (monitoringResults w)
    (requestNodes w) (nodeRequests w) (activeNodes w) (activeRequests w)
    (_owner w) (_paused w) (self w) (token w) (events w).

Definition set_monitoringResults (v : uint256 -> address -> MonitoringResult.t)
  (w : world) : world :=
  mkWorld (minimumStake w) (consensusThreshold w) (maxResponseTime w)
    (_nextRequestId w) (monitoringNodes w) (monitoringRequests w) v
    (requestNodes w) (nodeRequests w) (activeNodes w) (activeRequests w)
    (_owner w) (_paused w) (self w) (token w) (events w).

Definition set_requestNodes (v : uint256 -> list address) (w : world) : world :=
  mkWorld (minimumStake w) (consensusThreshold w) (maxResponseTime w)
    (_nextRequestId w) (monitoringNodes w) (monitoringRequests w)
    (monitoringResults w) v (nodeRequests w) (activeNodes w) (activeRequests w)
    (_owner w) (_paused w) (self w) (token w) (events w).

Definition set_nodeRequests (v : address -> list uint256) (w : world) : world :=
  mkWorld (minimumStake w) (consensusThreshold w) (maxResponseTime w)
    (_nextRequestId w) (monitoringNodes w) (monitoringRequests w)
    (monitoringResults w) (requestNodes w) v (activeNodes w) (activeRequests w)
    (_owner w) (_paused w) (self w) (token w) (events w).

Definition set_activeNodes (v : list address) (w : world) : world :=
  mkWorld (minimumStake w) (consensusThreshold w) (maxResponseTime w)
    (_nextRequestId w) (monitoringNodes w) (monitoringRequests w)
    (monitoringResults w) (requestNodes w) (nodeRequests w) v (activeRequests w)
    (_owner w) (_paused w) (self w) (token w) (events w).

Definition set_activeRequests (v : list uint256) (w : world) : world :=
  mkWorld (minimumStake w) (consensusThreshold w) (maxResponseTime w)
    (_nextRequestId w) (monitoringNodes w) (monitoringRequests w)
    (monitoringResults w) (requestNodes w) (nodeRequests w) (activeNodes w) v
    (_owner w) (_paused w) (self w) (token w) (events w).

Definition set_owner (v : address) (w : world) : world :=
  mkWorld (minimumStake w) (consensusThreshold w) (maxResponseTime w)
    (_nextRequestId w) (monitoringNodes w) (monitoringRequests w)
    (monitoringResults w) (requestNodes w) (nodeRequests w) (activeNodes w)
    (activeRequests w) v (_paused w) (self w) (token w) (events w).

Definition set_paused (v : bool) (w : world) : world :=
  mkWorld (minimumStake w) (consensusThreshold w) (maxResponseTime w)
    (_nextRequestId w) (monitoringNodes w) (monitoringRequests w)
    (monitoringResults w) (requestNodes w) (nodeRequests w) (activeNodes w)
    (activeRequests w) (_owner w) v (self w) (token w) (events w).

Definition set_token (v : token_state rewardToken) (w : world) : world :=
  mkWorld (minimumStake w) (consensusThreshold w) (maxResponseTime w)
    (_nextRequestId w) (monitoringNodes w) (monitoringRequests w)
    (monitoringResults w) (requestNodes w) (nodeRequests w) (activeNodes w)
    (activeRequests w) (_owner w) (_paused w) (self w) v (events w).

Definition emit (ev : Event) (w : world) : world :=
  mkWorld (minimumStake w) (consensusThreshold w) (maxResponseTime w)
    (_nextRequestId w) (monitoringNodes w) (monitoringRequests w)
    (monitoringResults w) (requestNodes w) (nodeRequests w) (activeNodes w)
    (activeRequests w) (_owner w) (_paused w) (self w) (token w)
    (events w ++ [ev]).

(** The state right after the constructor has run. *)
Definition deployed (deployer this : address) (tk : token_state rewardToken) : world :=
  mkWorld (1000 * 10 ^ 18) 66 30000 1
    (fun _ => MonitoringNode.zero) (fun _ => MonitoringRequest.zero)
    (fun _ _ => MonitoringResult.zero) (fun _ => []) (fun _ => [])
    [] [] deployer false this tk [].

(** An external call to the token: its new state is kept, a revert of the
    callee bubbles up. *)
Definition call_token (r : call_result (token_state rewardToken)) (w : world)
  : outcome (bool * world) :=
  match r with
  | Returned ok t => Ok (ok, set_token t w)
  | Reverted => Revert "reward token reverted"
  end.

Definition update_node (a : address) (f : MonitoringNode.t -> MonitoringNode.t)
  (w : world) : world :=
  set_monitoringNodes (upd (monitoringNodes w) a (f (monitoringNodes w a))) w.

Definition update_request (i : uint256)
  (f : MonitoringRequest.t -> MonitoringRequest.t) (w : world) : world :=
  set_monitoringRequests (upd (monitoringRequests w) i (f (monitoringRequests w i))) w.

(** *** Modifiers *)

Definition onlyRegisteredNode (e : env) (w : world) : bool :=
  MonitoringNode.isActive (monitoringNodes w (msg_sender e)).

Definition validRequest_id (_requestId : uint256) (w : world) : bool :=
  (0 <? _requestId) && (_requestId <? _nextRequestId w).

Definition validRequest_active (_requestId : uint256) (w : world) : bool :=
  MonitoringRequest.isActive (monitoringRequests w _requestId).

Definition onlyOwner (e : env) (w : world) : bool :=
  msg_sender e =? _owner w.

(** *** Node management *)

Definition registerNode (e : env) (w : world) : outcome world :=
  require negb (_paused w) orelse "EnforcedPause" ;;
  require negb (MonitoringNode.isActive (monitoringNodes w (msg_sender e)))
    orelse "Node already registered" ;;
  r <- call_token
         (transferFrom rewardToken (self w) (msg_sender e) (self w)
            (minimumStake w) (token w)) w ;;
  let '(ok, w) := r in
  require ok orelse "Stake transfer failed" ;;
  let w := set_monitoringNodes
             (upd (monitoringNodes w) (msg_sender e)
                (MonitoringNode.mk (msg_sender e) (minimumStake w) 100 0 0 true
                   (block_timestamp e))) w in
  let w := set_activeNodes (activeNodes w ++ [msg_sender e]) w in
  Ok (emit (MonitoringNodeRegistered (msg_sender e) (minimumStake w)) w).

Definition unregisterNode (e : env) (w : world) : outcome world :=
  require onlyRegisteredNode e w orelse "Node not registered or inactive" ;;
  require 0 <? MonitoringNode.stake (monitoringNodes w (msg_sender e))
    orelse "No stake to withdraw" ;;
  let stakeToReturn := MonitoringNode.stake (monitoringNodes w (msg_sender e)) in
  let w := update_node (msg_sender e) (MonitoringNode.with_stake 0) w in
  let w := update_node (msg_sender e) (MonitoringNode.with_isActive false) w in
  let w := set_activeNodes (swap_pop (msg_sender e) (activeNodes w)) w in
  r <- call_token
         (transfer rewardToken (self w) (msg_sender e) stakeToReturn (token w)) w ;;
  let '(ok, w) := r in
  require ok orelse "Stake return failed" ;;
  Ok (emit (MonitoringNodeUnregistered (msg_sender e)) w).

Definition addStake (_amount : uint256) (e : env) (w : world) : outcome world :=
  require onlyRegisteredNode e w orelse "Node not registered or inactive" ;;
  require 0 <? _amount orelse "Amount must be greater than 0" ;;
  r <- call_token
         (transferFrom rewardToken (self w) (msg_sender e) (self w) _amount
            (token w)) w ;;
  let '(ok, w) := r in
  require ok orelse "Stake transfer failed" ;;
  s <- add_chk (MonitoringNode.stake (monitoringNodes w (msg_sender e))) _amount ;;
  Ok (update_node (msg_sender e) (MonitoringNode.with_stake s) w).

(** *** Monitoring requests *)

Definition nodesToAssign (w : world) : nat :=
  if (3 <=? List.length (activeNodes w))%nat then 3%nat else List.length (activeNodes w).

(** One iteration of the assignment loop, for [activeNodes[i]]. *)
Definition assign_one (_requestId : uint256) (nodeAddress : address) (w : world)
  : world :=
  let w := set_requestNodes
             (upd (requestNodes w) _requestId
                (requestNodes w _requestId ++ [nodeAddress])) w in
  set_nodeRequests
    (upd (nodeRequests w) nodeAddress (nodeRequests w nodeAddress ++ [_requestId])) w.

Definition _assignNodesToRequest (_requestId : uint256) (w : world) : outcome world :=
  require (0 <? nodesToAssign w)%nat orelse "No active nodes available" ;;
  Ok (fold_left (fun w a => assign_one _requestId a w)
        (firstn (nodesToAssign w) (activeNodes w)) w).

Definition createMonitoringRequest (_url : string)
  (_interval _timeout _rewardPerCheck : uint256) (e : env) (w : world)
  : outcome (uint256 * world) :=
  require negb (_paused w) orelse "EnforcedPause" ;;
  require (0 <? String.length _url)%nat orelse "URL cannot be empty" ;;
  require 60 <=? _interval orelse "Interval must be at least 60 seconds" ;;
  require _timeout <=? maxResponseTime w orelse "Timeout too high" ;;
  require 0 <? _rewardPerCheck orelse "Reward must be greater than 0" ;;
  let requestId := _nextRequestId w in
  next <- add_chk (_nextRequestId w) 1 ;;
  let w := set_nextRequestId next w in
  let w := set_monitoringRequests
             (upd (monitoringRequests w) requestId
                (MonitoringRequest.mk requestId (msg_sender e) _url _interval
                   _timeout _rewardPerCheck true (block_timestamp e)
                   (block_timestamp e))) w in
  let w := set_activeRequests (activeRequests w ++ [requestId]) w in
  w <- _assignNodesToRequest requestId w ;;
  Ok (requestId, emit (MonitoringRequestCreated requestId (msg_sender e) _url) w).

Definition deactivateMonitoringRequest (_requestId : uint256) (e : env) (w : world)
  : outcome world :=
  require validRequest_id _requestId w orelse "Invalid request ID" ;;
  require validRequest_active _requestId w orelse "Request not active" ;;
  require (MonitoringRequest.requester (monitoringRequests w _requestId)
             =? msg_sender e) || (msg_sender e =? _owner w)
    orelse "Not authorized" ;;
  let w := update_request _requestId (MonitoringRequest.with_isActive false) w in
  Ok (set_activeRequests (swap_pop _requestId (activeRequests w)) w).

(** *** Results, consensus and settlement *)

Definition _isNodeAssignedToRequest (_requestId : uint256) (_node : address)
  (w : world) : bool :=
  existsb (fun n => n =? _node) (requestNodes w _requestId).

(** The counting loop of [_checkConsensus]: the accumulator is
    [(submittedCount, upCount, totalResponseTime)]. *)
Fixpoint tally (results : address -> MonitoringResult.t) (nodes : list address)
  (acc : uint256 * uint256 * uint256) : outcome (uint256 * uint256 * uint256) :=
  match nodes with
  | [] => Ok acc
  | n :: rest =>
      let '(submittedCount, upCount, totalResponseTime) := acc in
      if MonitoringResult.isSubmitted (results n) then
        submittedCount <- add_chk submittedCount 1 ;;
        upCount <- (if MonitoringResult.isUp (results n)
                    then add_chk upCount 1 else Ok upCount) ;;
        totalResponseTime <-
          add_chk totalResponseTime (MonitoringResult.responseTime (results n)) ;;
        tally results rest (submittedCount, upCount, totalResponseTime)
      else tally results rest acc
  end.

(** One iteration of the loop of [_distributeRewards]. *)
Definition settle_one (_requestId : uint256) (_consensusResult : bool)
  (reward : uint256) (nodeAddress : address) (w : world) : outcome world :=
  let result := monitoringResults w _requestId nodeAddress in
  if MonitoringResult.isSubmitted result then
    if Bool.eqb (MonitoringResult.isUp result) _consensusResult then
      sc <- add_chk (MonitoringNode.successfulChecks (monitoringNodes w nodeAddress)) 1 ;;
      let w := update_node nodeAddress (MonitoringNode.with_successfulChecks sc) w in
      rep <- add_chk (MonitoringNode.reputation (monitoringNodes w nodeAddress)) 1 ;;
      let w := update_node nodeAddress (MonitoringNode.with_reputation rep) w in
      r <- call_token
             (transfer rewardToken (self w) nodeAddress reward (token w)) w ;;
      let '(ok, w) := r in
      if ok then Ok (emit (RewardDistributed nodeAddress reward) w) else Ok w
    else
      w <- (if 1 <? MonitoringNode.reputation (monitoringNodes w nodeAddress) then
              rep <- sub_chk
                       (MonitoringNode.reputation (monitoringNodes w nodeAddress)) 1 ;;
              Ok (update_node nodeAddress (MonitoringNode.with_reputation rep) w)
            else Ok w) ;;
      Ok (emit (PenaltyApplied nodeAddress 0) w)
  else Ok w.

Fixpoint settle_all (_requestId : uint256) (_consensusResult : bool)
  (reward : uint256) (nodes : list address) (w : world) : outcome world :=
  match nodes with
  | [] => Ok w
  | n :: rest =>
      w <- settle_one _requestId _consensusResult reward n w ;;
      settle_all _requestId _consensusResult reward rest w
  end.

Definition _distributeRewards (_requestId : uint256) (_consensusResult : bool)
  (w : world) : outcome world :=
  let nodes := requestNodes w _requestId in
  let reward := MonitoringRequest.reward (monitoringRequests w _requestId) in
  settle_all _requestId _consensusResult reward nodes w.

Definition _checkConsensus (_requestId : uint256) (e : env) (w : world)
  : outcome world :=
  let nodes := requestNodes w _requestId in
  t <- tally (monitoringResults w _requestId) nodes (0, 0, 0) ;;
  let '(submittedCount, upCount, totalResponseTime) := t in
  if submittedCount =? N.of_nat (List.length nodes) then
    lhs <- mul_chk upCount 100 ;;
    rhs <- mul_chk submittedCount (consensusThreshold w) ;;
    let consensusIsUp := rhs <=? lhs in
    let averageResponseTime :=
      if 0 <? submittedCount then totalResponseTime / submittedCount else 0 in
    let w := emit (ConsensusReached _requestId consensusIsUp averageResponseTime) w in
    w <- _distributeRewards _requestId consensusIsUp w ;;
    Ok (update_request _requestId
          (MonitoringRequest.with_lastCheckedAt (block_timestamp e)) w)
  else Ok w.

Definition submitMonitoringResult (_requestId : uint256) (_isUp : bool)
  (_responseTime : uint256) (e : env) (w : world) : outcome world :=
  require onlyRegisteredNode e w orelse "Node not registered or inactive" ;;
  require validRequest_id _requestId w orelse "Invalid request ID" ;;
  require validRequest_active _requestId w orelse "Request not active" ;;
  require negb (MonitoringResult.isSubmitted
                  (monitoringResults w _requestId (msg_sender e)))
    orelse "Result already submitted" ;;
  require _isNodeAssignedToRequest _requestId (msg_sender e) w
    orelse "Node not assigned to this request" ;;
  let w := set_monitoringResults
             (upd (monitoringResults w) _requestId
                (upd (monitoringResults w _requestId) (msg_sender e)
                   (MonitoringResult.mk (msg_sender e) _isUp _responseTime
                      (block_timestamp e) true))) w in
  tc <- add_chk (MonitoringNode.totalChecks (monitoringNodes w (msg_sender e))) 1 ;;
  let w := update_node (msg_sender e) (MonitoringNode.with_totalChecks tc) w in
  let w := emit (MonitoringResultSubmitted _requestId (msg_sender e) _isUp
                   _responseTime) w in
  _checkConsensus _requestId e w.

(** *** Administration

    [onlyOwner], [pause], [unpause], [transferOwnership] and
    [renounceOwnership] come from OpenZeppelin's [Ownable] and [Pausable]
    (version 5, which the contract imports): a caller other than the owner
    is refused with [OwnableUnauthorizedAccount], [_pause] requires the
    contract not to be paused and [_unpause] requires it to be paused.
    The [Paused], [Unpaused] and [OwnershipTransferred] events of the
    library are not logged. *)

Definition setMinimumStake (_minimumStake : uint256) (e : env) (w : world)
  : outcome world :=
  require onlyOwner e w orelse "OwnableUnauthorizedAccount" ;;
  Ok (set_minimumStake _minimumStake w).

Definition setConsensusThreshold (_threshold : uint256) (e : env) (w : world)
  : outcome world :=
  require onlyOwner e w orelse "OwnableUnauthorizedAccount" ;;
  require (51 <=? _threshold) && (_threshold <=? 100)
    orelse "Threshold must be between 51-100" ;;
  Ok (set_consensusThreshold _threshold w).

Definition pause (e : env) (w : world) : outcome world :=
  require onlyOwner e w orelse "OwnableUnauthorizedAccount" ;;
  require negb (_paused w) orelse "EnforcedPause" ;;
  Ok (set_paused true w).

Definition unpause (e : env) (w : world) : outcome world :=
  require onlyOwner e w orelse "OwnableUnauthorizedAccount" ;;
  require _paused w orelse "ExpectedPause" ;;
  Ok (set_paused false w).

Definition emergencyWithdraw (e : env) (w : world) : outcome world :=
  require onlyOwner e w orelse "OwnableUnauthorizedAccount" ;;
  let balance := balanceOf rewardToken (token w) (self w) in
  r <- call_token (transfer rewardToken (self w) (_owner w) balance (token w)) w ;;
  let '(ok, w) := r in
  require ok orelse "Transfer failed" ;;
  Ok w.

Definition transferOwnership (newOwner : address) (e : env) (w : world)
  : outcome world :=
  require onlyOwner e w orelse "OwnableUnauthorizedAccount" ;;
  require negb (newOwner =? 0) orelse "OwnableInvalidOwner" ;;
  Ok (set_owner newOwner w).

Definition renounceOwnership (e : env) (w : world) : outcome world :=
  require onlyOwner e w orelse "OwnableUnauthorizedAccount" ;;
  Ok (set_owner 0 w).

(** *** Transactions *)

Inductive call : Type :=
| RegisterNode
| UnregisterNode
| AddStake (_amount : uint256)
| CreateMonitoringRequest (_url : string)
    (_interval _timeout _rewardPerCheck : uint256)
| DeactivateMonitoringRequest (_requestId : uint256)
| SubmitMonitoringResult (_requestId : uint256) (_isUp : bool)
    (_responseTime : uint256)
| SetMinimumStake (_minimumStake : uint256)
| SetConsensusThreshold (_threshold : uint256)
| Pause
| Unpause
| EmergencyWithdraw
| TransferOwnership (newOwner : address)
| RenounceOwnership.

Definition exec (c : call) (e : env) (w : world) : outcome world :=
  match c with
  | RegisterNode => registerNode e w
  | UnregisterNode => unregisterNode e w
  | AddStake a => addStake a e w
  | CreateMonitoringRequest u i t r =>
      iw <- createMonitoringRequest u i t r e w ;; Ok (snd iw)
  | DeactivateMonitoringRequest i => deactivateMonitoringRequest i e w
  | SubmitMonitoringResult i up rt => submitMonitoringResult i up rt e w
  | SetMinimumStake v => setMinimumStake v e w
  | SetConsensusThreshold v => setConsensusThreshold v e w
  | Pause => pause e w
  | Unpause => unpause e w
  | EmergencyWithdraw => emergencyWithdraw e w
  | TransferOwnership a => transferOwnership a e w
  | RenounceOwnership => renounceOwnership e w
  end.

(** A transaction commits the world its call returns; a reverted call
    leaves storage, token and log as they were. *)
Definition transact (c : call) (e : env) (w : world) : world :=
  match exec c e w with
  | Ok w' => w'
  | Revert _ => w
  end.

Definition run (txs : list (env * call)) (w : world) : world :=
  fold_left (fun w tx => transact (snd tx) (fst tx) w) txs w.

(** How the world of a deployed monitor moves on: by transactions of the
    monitor, interleaved with arbitrary activity of other parties on the
    token.  The monitor has no code that calls one of its own entry points,
    so the sender of a transaction is never the monitor itself. *)
Inductive evolves : world -> world -> Prop :=
| evolves_refl w : evolves w w
| evolves_transact c e w w' :
    evolves w w' -> msg_sender e <> self w' -> evolves w (transact c e w')
| evolves_token tk w w' : evolves w w' -> evolves w (set_token tk w').

(** The worlds a monitor can be in after its deployment. *)
Definition reachable (w : world) : Prop :=
  exists deployer this tk, evolves (deployed deployer this tk) w.

(** The calls guarded by [whenNotPaused]. *)
Definition gated_by_pause (c : call) : bool :=
  match c with
  | RegisterNode | CreateMonitoringRequest _ _ _ _ => true
  | _ => false
  end.

(** The calls that are themselves the pause switch. *)
Definition pause_switch (c : call) : bool :=
  match c with
  | Pause | Unpause => true
  | _ => false
  end.

(** The calls that touch neither results, committees, request ids nor the
    registry of nodes. *)
Definition bookkeeping_call (c : call) : bool :=
  match c with
  | RegisterNode | UnregisterNode | CreateMonitoringRequest _ _ _ _
  | SubmitMonitoringResult _ _ _ => false
  | _ => true
  end.

(** *** Views used to state the properties *)

(** The [(isUp, responseTime)] pairs recorded so far by the members of a
    committee, in committee order. *)
Definition submitted_values (results : address -> MonitoringResult.t)
  (nodes : list address) : list (bool * uint256) :=
  map (fun n => (MonitoringResult.isUp (results n),
                 MonitoringResult.responseTime (results n)))
    (filter (fun n => MonitoringResult.isSubmitted (results n)) nodes).

Definition submissions (_requestId : uint256) (w : world) : list (bool * uint256) :=
  submitted_values (monitoringResults w _requestId) (requestNodes w _requestId).

Definition is_consensus (ev : Event) : bool :=
  match ev with ConsensusReached _ _ _ => true | _ => false end.

Definition consensus_events (w : world) : list Event :=
  filter is_consensus (events w).

(** A series of result submissions for one request, every one of which
    has to succeed. *)
Fixpoint submit_all (_requestId : uint256) (subs : list (env * (bool * uint256)))
  (w : world) : outcome world :=
  match subs with
  | [] => Ok w
  | (e, (up, rt)) :: rest =>
      w <- submitMonitoringResult _requestId up rt e w ;;
      submit_all _requestId rest w
  end.

End UptimeMonitor.

(** ** Consensus as arithmetic on the submitted values *)

Definition upCount_of (vals : list (bool * uint256)) : N :=
  N.of_nat (List.length (filter fst vals)).

Definition totalResponseTime_of (vals : list (bool * uint256)) : N :=
  fold_right (fun v acc => snd v + acc) 0 vals.

Definition consensusIsUp_of (threshold : uint256) (vals : list (bool * uint256)) : bool :=
  N.of_nat (List.length vals) * threshold <=? upCount_of vals * 100.

Definition averageResponseTime_of (vals : list (bool * uint256)) : N :=
  totalResponseTime_of vals / N.of_nat (List.length vals).

(** ** Reward tokens *)

(** The reward asset is the [RewardToken] contract (RewardToken.sol, kept
    with the deployment script): OpenZeppelin's [ERC20] with burning, a
    capped [mint] for authorised minters and a [batchTransfer].  The
    monitor calls [transfer], [transferFrom] and [balanceOf] only, which
    [RewardToken] inherits from the library as they are: a transfer moves
    [amount] from the holder to the recipient and returns [true]; on an
    insufficient balance or allowance it reverts, and it never returns
    [false].  What other parties do with the token (minting, burning,
    approvals, transfers of their own) is the token activity of
    [evolves]. *)
Module Ledger.

Record state : Type := {
  balances : address -> uint256;
  allowances : address -> address -> uint256
}.

(** How a transfer that cannot be made ends: the library reverts
    ([ERC20InsufficientBalance], [ERC20InsufficientAllowance]). *)
Inductive failure_mode : Type := Reverts.

Definition fail (m : failure_mode) (st : state) : call_result state :=
  match m with
  | Reverts => Reverted
  end.

Definition move (from to : address) (amount : uint256) (bal : address -> uint256)
  : address -> uint256 :=
  let bal := upd bal from (bal from - amount) in
  upd bal to (bal to + amount).

Definition transfer (m : failure_mode) (caller to : address) (amount : uint256)
  (st : state) : call_result state :=
  if amount <=? balances st caller then
    Returned true
      {| balances := move caller to amount (balances st);
         allowances := allowances st |}
  else fail m st.

Definition transferFrom (m : failure_mode) (caller from to : address)
  (amount : uint256) (st : state) : call_result state :=
  if (amount <=? allowances st from caller) && (amount <=? balances st from) then
    Returned true
      {| balances := move from to amount (balances st);
         allowances :=
           upd (allowances st) from
             (upd (allowances st from) caller (allowances st from caller - amount)) |}
  else fail m st.

Definition erc20 (m : failure_mode) : IERC20 :=
  Build_IERC20 (transfer m) (transferFrom m) balances.

End Ledger.

Definition RewardToken : IERC20 := Ledger.erc20 Ledger.Reverts.

(** ** The observer node's probe ([MonitoringNode.js])

    [Date.now()] is read twice by [httpCheck]; the two readings are inputs
    of the model.  The network answers a GET with a status code or not at
    all (timeout, refused connection, DNS failure, too many redirects). *)

Module Probe.

Inductive reply : Type :=
| HttpStatus (status : Z)
| NoResponse (message : string).

(** What [axios.get] does with the reply under a [validateStatus]
    option: the promise resolves when the status is accepted; otherwise
    it rejects, and the error carries the response when there was one. *)
Inductive axios_result : Type :=
| Resolved (status : Z)
| Rejected (response : option Z) (message : string).

Definition axios_get (validateStatus : Z -> bool) (r : reply) : axios_result :=
  match r with
  | HttpStatus s =>
      if validateStatus s then Resolved s
      else Rejected (Some s)
             ("Request failed with status code "
              ++ NilZero.string_of_int (Z.to_int s))%string
  | NoResponse m => Rejected None m
  end.

Record check_result : Type := {
  isUp : bool;
  responseTime : Z;
  statusCode : Z;
  error : option string
}.

Definition httpCheck (startTime endTime : Z) (r : reply) : check_result :=
  match axios_get (fun status => (status <? 500)%Z) r with
  | Resolved status =>
      let responseTime := (endTime - startTime)%Z in
      {| isUp := true; responseTime := responseTime; statusCode := status;
         error := None |}
  | Rejected response message =>
      let responseTime := (endTime - startTime)%Z in
      let isUp := false in
      let statusCode := match response with Some s => s | None => 0%Z end in
      {| isUp := isUp; responseTime := responseTime; statusCode := statusCode;
         error := Some message |}
  end.

(** [performMonitoringCheck]: the result of [httpCheck] is handed to
    [submitResult]; when that throws (the gateway refused the
    transaction), the [catch] block submits an error result.  The value is
    the sequence of results handed to [submitResult]. *)
Definition performMonitoringCheck (startTime endTime : Z) (r : reply)
  (submit_throws : check_result -> option string) : list check_result :=
  let result := httpCheck startTime endTime r in
  match submit_throws result with
  | None => [result]
  | Some message =>
      [result;
       {| isUp := false; responseTime := 0%Z; statusCode := 0%Z;
          error := Some message |}]
  end.

End Probe.

(** ** A concrete deployment, after the contract's test fixture

    Three nodes holding 10000 tokens each have approved the minimum stake;
    the monitor holds a reward pool of 1000000 tokens. *)

Module Fixture.

Definition owner : address := 100.
Definition monitor : address := 200.
Definition node1 : address := 1.
Definition node2 : address := 2.
Definition node3 : address := 3.
Definition requester : address := 4.

Definition ether (n : N) : uint256 := n * 10 ^ 18.

Definition funded : Ledger.state :=
  {| Ledger.balances := fun a =>
       if a =? monitor then ether 1000000
       else if (1 <=? a) && (a <=? 4) then ether 10000 else 0;
     Ledger.allowances := fun a spender =>
       if (1 <=? a) && (a <=? 3) && (spender =? monitor) then ether 1000 else 0 |}.

Definition at_time (a : address) (t : uint256) : env :=
  {| msg_sender := a; block_timestamp := t |}.

Definition fresh (m : Ledger.failure_mode) : world (Ledger.erc20 m) :=
  deployed (Ledger.erc20 m) owner monitor funded.

Definition registered (m : Ledger.failure_mode) : world (Ledger.erc20 m) :=
  run [(at_time node1 10, RegisterNode);
       (at_time node2 11, RegisterNode);
       (at_time node3 12, RegisterNode)] (fresh m).

Definition requested (m : Ledger.failure_mode) : world (Ledger.erc20 m) :=
  transact (CreateMonitoringRequest "https://example.com" 300 5000 (ether 1))
    (at_time requester 20) (registered m).

Definition one_vote (m : Ledger.failure_mode) : world (Ledger.erc20 m) :=
  transact (SubmitMonitoringResult 1 true 200) (at_time node1 30) (requested m).

Definition two_votes (m : Ledger.failure_mode) : world (Ledger.erc20 m) :=
  run [(at_time node1 30, SubmitMonitoringResult 1 true 200);
       (at_time node2 31, SubmitMonitoringResult 1 true 180)] (requested m).

Definition settled (m : Ledger.failure_mode) : world (Ledger.erc20 m) :=
  transact (SubmitMonitoringResult 1 false 5000) (at_time node3 32) (two_votes m).

(** The three votes of the fixture, cast in two different orders. *)
Definition votes_in_order : list (env * (bool * uint256)) :=
  [(at_time node1 30, (true, 200));
   (at_time node2 31, (true, 180));
   (at_time node3 32, (false, 5000))].

Definition votes_reordered : list (env * (bool * uint256)) :=
  [(at_time node3 40, (false, 5000));
   (at_time node1 41, (true, 200));
   (at_time node2 42, (true, 180))].

Definition all_submitted (m : Ledger.failure_mode)
  (subs : list (env * (bool * uint256))) : world (Ledger.erc20 m) :=
  match submit_all 1 subs (requested m) with
  | Ok w' => w'
  | Revert _ => requested m
  end.

(** A monitor whose reward pool is empty: only node 1 is registered, the
    stake it paid has been swept by the owner. *)
Definition drained (m : Ledger.failure_mode) : world (Ledger.erc20 m) :=
  run [(at_time node1 10, RegisterNode);
       (at_time owner 15, EmergencyWithdraw);
       (at_time requester 20,
        CreateMonitoringRequest "https://example.com" 300 5000 (ether 1))]
    (fresh m).

End Fixture.

(** ** Outcomes of two calls compared up to a change of the final world *)

Definition lift_outcome {A B : Type} (f : A -> B) (m : outcome A) : outcome B :=
  match m with
  | Ok a => Ok (f a)
  | Revert r => Revert r
  end.

(** What settlement leaves alone: results, committees, request records and
    ids, the parameters, the registry and the consensus events logged. *)
Definition settlement_frame {tok : IERC20} (w w' : world tok) : Prop :=
  monitoringResults w' = monitoringResults w /\
  requestNodes w' = requestNodes w /\
  monitoringRequests w' = monitoringRequests w /\
  _nextRequestId w' = _nextRequestId w /\
  consensusThreshold w' = consensusThreshold w /\
  activeNodes w' = activeNodes w /\
  self w' = self w /\
  consensus_events w' = consensus_events w.

(** A token call has failed when it reverted or returned [false]. *)
Definition transfer_failed {T : Type} (r : call_result T) : bool :=
  match r with
  | Returned true _ => false
  | Returned false _ => true
  | Reverted => true
  end.

(** The vote of [a] has been recorded and is the consensus: settlement
    pays [a] the reward. *)
Definition agrees (results : address -> MonitoringResult.t) (consensusIsUp : bool)
  (a : address) : bool :=
  MonitoringResult.isSubmitted (results a)
  && Bool.eqb (MonitoringResult.isUp (results a)) consensusIsUp.

(** What settlement does to one committee member [a] that has submitted,
    between the world [w] before and the world [w'] after: the reward
    outcome when its vote is the consensus, the penalty outcome
    otherwise. *)
Definition member_settled (_requestId : uint256) (consensusIsUp : bool)
  (reward : uint256) (a : address) (w w' : world RewardToken) : Prop :=
  let n := monitoringNodes w a in
  let n' := monitoringNodes w' a in
  if Bool.eqb (MonitoringResult.isUp (monitoringResults w _requestId a)) consensusIsUp
  then
    MonitoringNode.successfulChecks n' = MonitoringNode.successfulChecks n + 1 /\
    MonitoringNode.reputation n' = MonitoringNode.reputation n + 1 /\
    balanceOf RewardToken (token w') a = balanceOf RewardToken (token w) a + reward
  else
    MonitoringNode.successfulChecks n' = MonitoringNode.successfulChecks n /\
    MonitoringNode.reputation n' =
      (if 1 <? MonitoringNode.reputation n
       then MonitoringNode.reputation n - 1 else MonitoringNode.reputation n) /\
    balanceOf RewardToken (token w') a = balanceOf RewardToken (token w) a.

(** The event settlement logs for a member that has submitted. *)
Definition settlement_event (_requestId : uint256) (consensusIsUp : bool)
  (reward : uint256) (w : world RewardToken) (a : address) : Event :=
  if Bool.eqb (MonitoringResult.isUp (monitoringResults w _requestId a)) consensusIsUp
  then RewardDistributed a reward
  else PenaltyApplied a 0.

(** What settling a member leaves alone: the node record of an address
    [a] and, unless [a] is the monitor itself, its balance. *)
Definition untouched (a : address) (w w' : world RewardToken) : Prop :=
  monitoringNodes w' a = monitoringNodes w a /\
  (a <> self w ->
   balanceOf RewardToken (token w') a = balanceOf RewardToken (token w) a).

Definition others_untouched (n : address) (w w' : world RewardToken) : Prop :=
  forall a, a <> n -> untouched a w w'.

(** Committees and request ids: an id not yet allocated has no committee,
    an allocated id has a committee with a member. *)
Definition committees_inv {tok : IERC20} (w : world tok) : Prop :=
  (forall j, _nextRequestId w <= j -> requestNodes w j = []) /\
  (forall j, 0 < j < _nextRequestId w -> requestNodes w j <> []).

(** The standing of the nodes is kept from [w] to [w']: no node changes
    between active and inactive, and a reputation of at least 1 stays at
    least 1. *)
Definition standing_kept {tok : IERC20} (w w' : world tok) : Prop :=
  forall a,
    MonitoringNode.isActive (monitoringNodes w' a)
    = MonitoringNode.isActive (monitoringNodes w a) /\
    (1 <= MonitoringNode.reputation (monitoringNodes w a) ->
     1 <= MonitoringNode.reputation (monitoringNodes w' a)).

(** A node in good standing: with a reputation of at least 1, and not the
    monitor itself. *)
Definition good_node {tok : IERC20} (w : world tok) (a : address) : Prop :=
  1 <= MonitoringNode.reputation (monitoringNodes w a) /\ a <> self w.

(** The registry and the committees: the active registry lists every node
    once, its entries are active nodes in good standing; every committee
    lists its members once, and they are in good standing. *)
Definition registry_inv {tok : IERC20} (w : world tok) : Prop :=
  NoDup (activeNodes w) /\
  (forall a, In a (activeNodes w) ->
     MonitoringNode.isActive (monitoringNodes w a) = true /\ good_node w a) /\
  (forall i, NoDup (requestNodes w i)) /\
  (forall i a, In a (requestNodes w i) -> good_node w a).

(** ** The view functions of the contract *)

Definition getActiveNodes {tok : IERC20} (w : world tok) : list address :=
  activeNodes w.

Definition getActiveRequests {tok : IERC20} (w : world tok) : list uint256 :=
  activeRequests w.

Definition getRequestNodes {tok : IERC20} (_requestId : uint256) (w : world tok)
  : list address :=
  requestNodes w _requestId.

Definition getNodeRequests {tok : IERC20} (_node : address) (w : world tok)
  : list uint256 :=
  nodeRequests w _node.

Definition getNodeInfo {tok : IERC20} (_node : address) (w : world tok)
  : MonitoringNode.t :=
  monitoringNodes w _node.

Definition getRequestInfo {tok : IERC20} (_requestId : uint256) (w : world tok)
  : MonitoringRequest.t :=
  monitoringRequests w _requestId.

(** ** Groups of fields used to state what a call leaves alone *)

(** The parameters of the monitor, its pause switch and its owner. *)
Definition parameters {tok : IERC20} (w : world tok)
  : uint256 * uint256 * uint256 * bool * address :=
  (minimumStake w, consensusThreshold w, maxResponseTime w, _paused w, _owner w).

(** A node's enrolment: the part of its record that settlement never
    writes. *)
Definition enrolment (n : MonitoringNode.t)
  : address * uint256 * bool * uint256 * uint256 :=
  (MonitoringNode.nodeAddress n, MonitoringNode.stake n, MonitoringNode.isActive n,
   MonitoringNode.registrationTime n, MonitoringNode.totalChecks n).

(** The terms of a request: everything but its activity flag and the time
    of its last check. *)
Definition terms (r : MonitoringRequest.t)
  : uint256 * address * string * uint256 * uint256 * uint256 * uint256 :=
  (MonitoringRequest.id r, MonitoringRequest.requester r, MonitoringRequest.url r,
   MonitoringRequest.interval r, MonitoringRequest.timeout r,
   MonitoringRequest.reward r, MonitoringRequest.createdAt r).

(** What settlement leaves alone besides [settlement_frame]. *)
Definition settlement_keeps {tok : IERC20} (w w' : world tok) : Prop :=
  parameters w' = parameters w /\
  nodeRequests w' = nodeRequests w /\
  activeRequests w' = activeRequests w /\
  forall a, enrolment (monitoringNodes w' a) = enrolment (monitoringNodes w a).

(** The consensus events logged for one request. *)
Definition about (_requestId : uint256) (ev : Event) : bool :=
  match ev with
  | ConsensusReached i _ _ => i =? _requestId
  | _ => false
  end.

Definition consensus_for {tok : IERC20} (_requestId : uint256) (w : world tok)
  : list Event :=
  filter (about _requestId) (consensus_events w).

(** A round is closed when every member of the committee has submitted. *)
Definition round_closed {tok : IERC20} (_requestId : uint256) (w : world tok) : Prop :=
  forall a, In a (requestNodes w _requestId) ->
            MonitoringResult.isSubmitted (monitoringResults w _requestId a) = true.

(** The calls by which a node enrols or leaves, and those that move its
    stake. *)
Definition membership_call (c : call) : bool :=
  match c with
  | RegisterNode | UnregisterNode => true
  | _ => false
  end.

Definition staking_call (c : call) : bool :=
  match c with
  | RegisterNode | UnregisterNode | AddStake _ => true
  | _ => false
  end.

(** ** Invariants of the request book, the registry and the rounds *)

(** A request id that has been handed out. *)
Definition allocated {tok : IERC20} (_requestId : uint256) (w : world tok) : Prop :=
  0 < _requestId < _nextRequestId w.

(** What [createMonitoringRequest] checks before it stores a request. *)
Definition well_formed_request (_requestId : uint256) (r : MonitoringRequest.t)
  : Prop :=
  MonitoringRequest.id r = _requestId /\
  (0 < String.length (MonitoringRequest.url r))%nat /\
  60 <= MonitoringRequest.interval r /\
  MonitoringRequest.timeout r <= 30000 /\
  0 < MonitoringRequest.reward r.

Definition requests_inv {tok : IERC20} (w : world tok) : Prop :=
  maxResponseTime w = 30000 /\
  1 <= _nextRequestId w /\
  (forall j, ~ allocated j w ->
             MonitoringRequest.isActive (monitoringRequests w j) = false) /\
  (forall i, allocated i w -> well_formed_request i (monitoringRequests w i)) /\
  NoDup (activeRequests w) /\
  (forall i, In i (activeRequests w) <->
             MonitoringRequest.isActive (monitoringRequests w i) = true).

(** Every active node is listed in the registry. *)
Definition listed_inv {tok : IERC20} (w : world tok) : Prop :=
  forall a, MonitoringNode.isActive (monitoringNodes w a) = true ->
            In a (activeNodes w).

(** The two assignment tables mirror each other. *)
Definition index_inv {tok : IERC20} (w : world tok) : Prop :=
  forall a,
    NoDup (nodeRequests w a) /\
    forall i, In i (nodeRequests w a) <-> In a (requestNodes w i).

(** At most one consensus per request, and only on a closed round. *)
Definition rounds_inv {tok : IERC20} (w : world tok) : Prop :=
  forall i,
    (List.length (consensus_for i w) <= 1)%nat /\
    (consensus_for i w <> [] -> round_closed i w /\ allocated i w).

(** The calls that may move tokens. *)
Definition moves_tokens (c : call) : bool :=
  match c with
  | RegisterNode | UnregisterNode | AddStake _ | EmergencyWithdraw
  | SubmitMonitoringResult _ _ _ => true
  | _ => false
  end.


(** Further worlds of the fixture. *)
Module Scenario.

(** Node 1 has approved 5000 tokens and is registered. *)
Definition generous : Ledger.state :=
  {| Ledger.balances := Ledger.balances Fixture.funded;
     Ledger.allowances := fun a spender =>
       if (a =? Fixture.node1) && (spender =? Fixture.monitor)
       then Fixture.ether 5000 else 0 |}.

Definition enrolled : world RewardToken :=
  transact RegisterNode (Fixture.at_time Fixture.node1 10)
    (deployed RewardToken Fixture.owner Fixture.monitor generous).

Definition topped_up : world RewardToken :=
  transact (AddStake (Fixture.ether 500)) (Fixture.at_time Fixture.node1 11) enrolled.

Definition withdrawn : world RewardToken :=
  transact UnregisterNode (Fixture.at_time Fixture.node1 12) topped_up.

(** The requester withdraws the request before any vote. *)
Definition deactivated : world RewardToken :=
  transact (DeactivateMonitoringRequest 1) (Fixture.at_time Fixture.requester 25)
    (Fixture.requested Ledger.Reverts).

(** A monitor that can pay one reward of a round but not two: it starts
    with a single token, the three nodes stake 1000 tokens each, and the
    request promises 2000 tokens per check.  Nodes 1 and 2 have voted
    up. *)
Definition thin : Ledger.state :=
  {| Ledger.balances := fun a =>
       if a =? Fixture.monitor then Fixture.ether 1
       else Ledger.balances Fixture.funded a;
     Ledger.allowances := Ledger.allowances Fixture.funded |}.

Definition costly : world RewardToken :=
  run [(Fixture.at_time Fixture.node1 10, RegisterNode);
       (Fixture.at_time Fixture.node2 11, RegisterNode);
       (Fixture.at_time Fixture.node3 12, RegisterNode);
       (Fixture.at_time Fixture.requester 20,
        CreateMonitoringRequest "https://example.com" 300 5000 (Fixture.ether 2000));
       (Fixture.at_time Fixture.node1 30, SubmitMonitoringResult 1 true 200);
       (Fixture.at_time Fixture.node2 31, SubmitMonitoringResult 1 true 180)]
    (deployed RewardToken Fixture.owner Fixture.monitor thin).

(** Inside the submission of node 3: its vote is recorded, the settlement
    starts; and after the settlement has paid node 1. *)
Definition costly_voted : world RewardToken :=
  set_monitoringResults
    (upd (monitoringResults costly) 1
       (upd (monitoringResults costly 1) Fixture.node3
          (MonitoringResult.mk Fixture.node3 false 5000 32 true))) costly.

Definition costly_first_paid : world RewardToken :=
  match settle_all 1 true (Fixture.ether 2000) [Fixture.node1] costly_voted with
  | Ok w => w
  | Revert _ => costly_voted
  end.









End Scenario.

(** ** The observer node's request cache and check queue ([MonitoringNode.js])

    [syncWithBlockchain], [processCheckQueue] and the bookkeeping of
    [performMonitoringCheck].  Conventions:
    - JavaScript numbers are doubles; the code keeps them integral, and
      they are modelled as integers.  Clock readings ([Date.now()]),
      counters and their differences stay within the range where doubles
      are exact.  An interval is chosen by whoever created the request on
      the ledger, so the next check time computed from it is rounded the
      way a double is ([to_double]);
    - the [Map] [assignedRequests] is an association list in insertion
      order; its values are references to request objects, which live in
      a store ([heap]), because the jobs in [checkQueue] hold references to
      the same objects;
    - the answers of the outside world (the ledger's list of assigned
      requests, the request records, clock readings, HTTP replies, whether a
      submission throws) are inputs of the functions;
    - a function is written as running from its first statement to its
      last.  The steps of a run ([step]) are finer: the jobs interleave at
      their [await]s, the checks of one batch with each other.  Two
      synchronisations are taken not to overlap. *)

Module Scheduler.

(** The object [BlockchainService.getRequestInfo] returns. *)
Record request_info : Type := {
  id : string;
  requester : string;
  url : string;
  interval : Z;
  timeout : Z;
  reward : string;
  isActive : bool;
  createdAt : Z;
  lastCheckedAt : Z
}.

(** A cached request: [{...requestInfo, lastChecked, nextCheck}].
    [processCheckQueue] also reads a property [priority] of the object,
    which it may or may not have ([own_priority]). *)
Record request : Type := {
  info : request_info;
  lastChecked : Z;
  nextCheck : Z;
  own_priority : option Z
}.

Definition with_lastChecked (v : Z) (r : request) : request :=
  {| info := info r; lastChecked := v; nextCheck := nextCheck r;
     own_priority := own_priority r |}.

Definition with_nextCheck (v : Z) (r : request) : request :=
  {| info := info r; lastChecked := lastChecked r; nextCheck := v;
     own_priority := own_priority r |}.

(** [request.priority || 0]: the property when the object has one and it
    is not 0, and 0 otherwise. *)
Definition request_priority (r : request) : Z :=
  match own_priority r with
  | Some p => if (p =? 0)%Z then 0%Z else p
  | None => 0%Z
  end.

(** The double nearest to the integer [z], ties going to the even
    significand: [z] itself up to [2^53] in magnitude, a multiple of a
    power of two beyond.  (A sum or product overflows to [Infinity] only
    from [2^1024] on, far above a clock reading or a [uint256] times
    1000.) *)
Definition to_double (z : Z) : Z :=
  let m := Z.abs z in
  if (m <=? 2 ^ 53)%Z then z
  else
    let ulp := (2 ^ (Z.log2 m - 52))%Z in
    let q := (m / ulp)%Z in
    let r := (m mod ulp)%Z in
    let q := if (2 * r <? ulp)%Z then q
             else if (ulp <? 2 * r)%Z then (q + 1)%Z
             else if Z.even q then q else (q + 1)%Z in
    (Z.sgn z * (q * ulp))%Z.

(** The integers on which sums and products of doubles are exact. *)
Definition exact (z : Z) : Prop := (Z.abs z <= 2 ^ 53)%Z.

(** An entry of [checkQueue]; [request] is a reference. *)
Record check : Type := {
  requestId : string;
  request_ref : nat;
  priority : Z;
  timestamp : Z
}.

Record error_record : Type := {
  error_requestId : string;
  error_url : string;
  error_message : string;
  error_timestamp : Z
}.

Record statistics : Type := {
  totalChecks : Z;
  successfulChecks : Z;
  failedChecks : Z;
  startTime : Z;
  lastHeartbeat : option Z;
  errors : list error_record
}.

Record t : Type := mk {
  heap : nat -> request;
  next_ref : nat;
  assignedRequests : list (string * nat);
  checkQueue : list check;
  isProcessingQueue : bool;
  stats : statistics
}.

Definition set_heap (v : nat -> request) (st : t) : t :=
  mk v (next_ref st) (assignedRequests st) (checkQueue st) (isProcessingQueue st)
    (stats st).

Definition set_next_ref (v : nat) (st : t) : t :=
  mk (heap st) v (assignedRequests st) (checkQueue st) (isProcessingQueue st)
    (stats st).

Definition set_assignedRequests (v : list (string * nat)) (st : t) : t :=
  mk (heap st) (next_ref st) v (checkQueue st) (isProcessingQueue st) (stats st).

Definition set_checkQueue (v : list check) (st : t) : t :=
  mk (heap st) (next_ref st) (assignedRequests st) v (isProcessingQueue st) (stats st).

Definition set_isProcessingQueue (v : bool) (st : t) : t :=
  mk (heap st) (next_ref st) (assignedRequests st) (checkQueue st) v (stats st).

Definition set_stats (v : statistics) (st : t) : t :=
  mk (heap st) (next_ref st) (assignedRequests st) (checkQueue st)
    (isProcessingQueue st) v.

(** The state the constructor builds. *)
Definition initial (now : Z) : t :=
  mk (fun _ => {| info := Build_request_info EmptyString EmptyString EmptyString
                            0 0 EmptyString false 0 0;
                  lastChecked := 0; nextCheck := 0; own_priority := None |})
    0 [] [] false
    {| totalChecks := 0; successfulChecks := 0; failedChecks := 0;
       startTime := now; lastHeartbeat := None; errors := [] |}.

(** Writing through a reference. *)
Definition store (h : nat -> request) (ref : nat) (r : request) : nat -> request :=
  fun ref' => if Nat.eqb ref' ref then r else h ref'.

(** [Map.prototype.has] and [Array.prototype.includes] on request ids. *)
Definition has (requestId : string) (m : list (string * nat)) : bool :=
  existsb (fun entry => String.eqb (fst entry) requestId) m.

Definition includes (ids : list string) (requestId : string) : bool :=
  existsb (String.eqb requestId) ids.

(** *** [syncWithBlockchain] *)

(** [assignedRequests.set] of a request that is not cached: a new object,
    entered last.  It has the nine properties of [requestInfo],
    [lastChecked] and [nextCheck], and so no [priority]. *)
Definition add_request (requestId : string) (requestInfo : request_info) (now : Z)
  (st : t) : t :=
  let ref := next_ref st in
  let st := set_heap
              (store (heap st) ref
                 {| info := requestInfo; lastChecked := 0; nextCheck := now;
                    own_priority := None |}) st in
  let st := set_next_ref (S ref) st in
  set_assignedRequests (assignedRequests st ++ [(requestId, ref)]) st.

(** The first loop.  [getRequestInfo] answers [None] when the lookup
    throws; [now requestId] is the clock reading taken when the request is
    added.  The boolean tells whether the loop ran to its end. *)
Fixpoint add_assigned (ids : list string)
  (getRequestInfo : string -> option request_info) (now : string -> Z) (st : t)
  : t * bool :=
  match ids with
  | [] => (st, true)
  | requestId :: rest =>
      if negb (has requestId (assignedRequests st)) then
        match getRequestInfo requestId with
        | None => (st, false)
        | Some requestInfo =>
            add_assigned rest getRequestInfo now
              (add_request requestId requestInfo (now requestId) st)
        end
      else add_assigned rest getRequestInfo now st
  end.

(** The second loop. *)
Definition remove_unassigned (ids : list string) (st : t) : t :=
  set_assignedRequests
    (filter (fun entry => includes ids (fst entry)) (assignedRequests st)) st.

(** [assignedRequests] is what [getAssignedRequests] returned (the empty
    list when the ledger could not be read).  An exception of
    [getRequestInfo] ends the function in its [catch] block. *)
Definition syncWithBlockchain (assignedRequests : list string)
  (getRequestInfo : string -> option request_info) (now : string -> Z) (st : t)
  : t :=
  let '(st, completed) := add_assigned assignedRequests getRequestInfo now st in
  if completed then remove_unassigned assignedRequests st else st.

(** *** [processCheckQueue] *)

(** One iteration of the loop that adds the due checks;
    [now + (request.interval * 1000)] is a product and a sum of doubles. *)
Definition enqueue_if_due (now : Z) (st : t) (entry : string * nat) : t :=
  let '(requestId, ref) := entry in
  let request := heap st ref in
  if (nextCheck request <=? now)%Z then
    let st := set_checkQueue
                (checkQueue st
                 ++ [{| requestId := requestId; request_ref := ref;
                        priority := request_priority request;
                        timestamp := now |}]) st in
    set_heap
      (store (heap st) ref
         (with_nextCheck
            (to_double (now + to_double (interval (info request) * 1000)))
            request)) st
  else st.

(** The comparator handed to [sort]. *)
Definition compare_checks (a b : check) : Z :=
  if negb (priority a =? priority b)%Z then (priority b - priority a)%Z
  else (timestamp a - timestamp b)%Z.

(** [Array.prototype.sort] is stable and the comparator is consistent, so
    the sorted array is determined by them alone; it is computed here by
    insertion. *)
Fixpoint insert (a : check) (l : list check) : list check :=
  match l with
  | [] => [a]
  | b :: rest =>
      if (compare_checks a b <=? 0)%Z then a :: b :: rest
      else b :: insert a rest
  end.

Definition sort (l : list check) : list check := fold_right insert [] l.

(** [processCheckQueue] up to the point where the selected checks are
    started: the new state (with [isProcessingQueue] set) and
    [checksToProcess].  [splice(0, maxConcurrent)] removes nothing for a
    count that is not positive. *)
Definition processCheckQueue (now : Z) (maxConcurrent : Z) (st : t)
  : t * list check :=
  if isProcessingQueue st then (st, [])
  else
    let st := set_isProcessingQueue true st in
    let st := fold_left (enqueue_if_due now) (assignedRequests st) st in
    let st := set_checkQueue (sort (checkQueue st)) st in
    let checksToProcess := firstn (Z.to_nat maxConcurrent) (checkQueue st) in
    let st := set_checkQueue (skipn (Z.to_nat maxConcurrent) (checkQueue st)) st in
    (st, checksToProcess).

(** The [finally] block, run when the checks have settled. *)
Definition processCheckQueue_finally (st : t) : t :=
  set_isProcessingQueue false st.

(** *** [performMonitoringCheck], with its bookkeeping

    [sentAt] and [answeredAt] are the two clock readings of [httpCheck],
    [checkedAt] and [failedAt] those of
    [request.lastChecked = Date.now()] and of the error record.
    [httpCheck] catches every exception itself, so the [catch] block runs
    only when the submission throws. *)

(** The statements between the probe and the submission of its result. *)
Definition record_probe (ref : nat) (checkedAt : Z) (result : Probe.check_result)
  (st : t) : t :=
  let s := stats st in
  let s := {| totalChecks := totalChecks s + 1;
              successfulChecks :=
                if Probe.isUp result then successfulChecks s + 1
                else successfulChecks s;
              failedChecks :=
                if Probe.isUp result then failedChecks s else failedChecks s + 1;
              startTime := startTime s; lastHeartbeat := lastHeartbeat s;
              errors := errors s |}%Z in
  let st := set_stats s st in
  set_heap (store (heap st) ref (with_lastChecked checkedAt (heap st ref))) st.

(** The [catch] block, up to the submission of the error result. *)
Definition record_failure (requestId : string) (ref : nat) (failedAt : Z)
  (message : string) (st : t) : t :=
  let s := stats st in
  let errs := errors s
              ++ [{| error_requestId := requestId;
                     error_url := url (info (heap st ref));
                     error_message := message;
                     error_timestamp := failedAt |}] in
  let errs := if (100 <? List.length errs)%nat
              then skipn (List.length errs - 100) errs else errs in
  let s := {| totalChecks := totalChecks s + 1;
              successfulChecks := successfulChecks s;
              failedChecks := failedChecks s + 1;
              startTime := startTime s; lastHeartbeat := lastHeartbeat s;
              errors := errs |}%Z in
  set_stats s st.

(** The whole function; the second component is the sequence of results
    handed to [submitResult]. *)
Definition performMonitoringCheck (requestId : string) (ref : nat)
  (sentAt answeredAt checkedAt failedAt : Z) (r : Probe.reply)
  (submit_throws : Probe.check_result -> option string) (st : t)
  : t * list Probe.check_result :=
  let result := Probe.httpCheck sentAt answeredAt r in
  let st := record_probe ref checkedAt result st in
  (match submit_throws result with
   | None => st
   | Some message => record_failure requestId ref failedAt message st
   end,
   Probe.performMonitoringCheck sentAt answeredAt r submit_throws).

(** *** Runs of the node *)

(** The node moves on by the jobs it has scheduled and by the checks they
    start: a synchronisation adds a request that is not cached or drops the
    requests that are no longer listed; a pass over the queue starts a
    batch and later ends; a check records its probe and, when its
    submission throws, the failure. *)
Inductive step : t -> t -> Prop :=
| step_add requestId requestInfo now st :
    has requestId (assignedRequests st) = false ->
    step st (add_request requestId requestInfo now st)
| step_remove ids st :
    step st (remove_unassigned ids st)
| step_queue now maxConcurrent st :
    step st (fst (processCheckQueue now maxConcurrent st))
| step_finally st :
    step st (processCheckQueue_finally st)
| step_probe ref checkedAt result st :
    step st (record_probe ref checkedAt result st)
| step_failure requestId ref failedAt message st :
    step st (record_failure requestId ref failedAt message st).

Inductive runs : t -> t -> Prop :=
| runs_refl st : runs st st
| runs_step st st' st'' : runs st st' -> step st' st'' -> runs st st''.

(** *** Views used to state the properties *)

(** The cache is well formed: no request id twice, every entry with an
    object of its own, allocated earlier. *)
Definition well_formed (st : t) : Prop :=
  NoDup (map fst (assignedRequests st)) /\
  NoDup (map snd (assignedRequests st)) /\
  forall ref, In ref (map snd (assignedRequests st)) -> (ref < next_ref st)%nat.

Definition is_due (now : Z) (h : nat -> request) (entry : string * nat) : bool :=
  (nextCheck (h (snd entry)) <=? now)%Z.

Definition check_of (now : Z) (h : nat -> request) (entry : string * nat) : check :=
  {| requestId := fst entry; request_ref := snd entry;
     priority := request_priority (h (snd entry)); timestamp := now |}.

(** No cached request has a [priority] property. *)
Definition no_priority (st : t) : Prop :=
  forall entry, In entry (assignedRequests st) ->
                own_priority (heap st (snd entry)) = None.

(** The order [sort] establishes. *)
Definition precedes (a b : check) : Prop := (compare_checks a b <= 0)%Z.

(** The counters add up and the error log is bounded. *)
Definition consistent (s : statistics) : Prop :=
  totalChecks s = (successfulChecks s + failedChecks s)%Z /\
  (0 <= successfulChecks s)%Z /\ (0 <= failedChecks s)%Z /\
  (List.length (errors s) <= 100)%nat.

End Scheduler.

(** ** The node's gateway to the ledger ([BlockchainService.js]) *)

Module BlockchainService.

(** [id.toString()] of a [uint256] that the ledger returned. *)
Definition toString (n : uint256) : string :=
  NilEmpty.string_of_uint (N.to_uint n).

(** [getAssignedRequests]: the ids that the contract's [getNodeRequests]
    returned, as strings, and the empty list when the call failed. *)
Definition getAssignedRequests (answer : option (list uint256)) : list string :=
  match answer with
  | Some requestIds => map toString requestIds
  | None => []
  end.

End BlockchainService.

(** A node that has synchronised with a ledger holding two requests for
    it, both due at once. *)
Module NodeScenario.

Definition info1 : Scheduler.request_info :=
  Scheduler.Build_request_info "1" "0x04" "https://example.com" 300 5000
    "1000000000000000000" true 20000 20000.

Definition info2 : Scheduler.request_info :=
  Scheduler.Build_request_info "2" "0x04" "https://example.org" 60 3000
    "2000000000000000000" true 21000 21000.

Definition getRequestInfo (requestId : string) : option Scheduler.request_info :=
  if String.eqb requestId "1" then Some info1
  else if String.eqb requestId "2" then Some info2
  else None.

Definition synced : Scheduler.t :=
  Scheduler.syncWithBlockchain ["1"; "2"]%string getRequestInfo (fun _ => 1000%Z)
    (Scheduler.initial 0).

End NodeScenario.

(** * Properties *)

(** ** Proof tools *)

(** Case analysis on the scrutinee of a [match] of [t] that has no [match]
    inside it. *)
Ltac destruct_innermost t :=
  lazymatch t with
  | context [match ?x with _ => _ end] =>
      first [destruct_innermost x | destruct x eqn:?]
  end.

Ltac break_match_in H := let t := type of H in destruct_innermost t.

Ltac break_match_goal :=
  match goal with
  | |- ?g => destruct_innermost g
  end.

(** Splits a conjunction into its parts, leaving the parts untouched. *)
Ltac split_all := repeat match goal with |- _ /\ _ => split end.

(** Boolean tests in the context, read as propositions. *)
Ltac to_props :=
  repeat match goal with
         | H : (_ && _) = true |- _ => apply andb_true_iff in H as [? ?]
         | H : (_ || _) = false |- _ => apply orb_false_iff in H as [? ?]
         | H : negb _ = true |- _ => apply negb_true_iff in H
         | H : negb _ = false |- _ => apply negb_false_iff in H
         | H : (_ <=? _) = true |- _ => apply N.leb_le in H
         | H : (_ <=? _) = false |- _ => apply N.leb_gt in H
         | H : (_ <? _) = true |- _ => apply N.ltb_lt in H
         | H : (_ <? _) = false |- _ => apply N.ltb_ge in H
         | H : (_ =? _) = true |- _ => apply N.eqb_eq in H
         | H : (_ =? _) = false |- _ => apply N.eqb_neq in H
         end.

(** Splits a successful call along the [require]s and binds it went through. *)
Ltac step_ok H :=
  repeat (break_match_in H; try discriminate H);
  try (injection H as H).

Lemma add_chk_ok a b c : add_chk a b = Ok c -> c = a + b.
Proof. unfold add_chk. destruct (a + b <=? MAX_UINT256); congruence. Qed.

Lemma mul_chk_ok a b c : mul_chk a b = Ok c -> c = a * b.
Proof. unfold mul_chk. destruct (a * b <=? MAX_UINT256); congruence. Qed.

Lemma sub_chk_ok a b c : sub_chk a b = Ok c -> c = a - b /\ b <= a.
Proof.
  unfold sub_chk. destruct (b <=? a) eqn:E; [|discriminate].
  intros H. injection H as <-. apply N.leb_le in E. auto.
Qed.

Lemma bind_ok {A B : Type} (m : outcome A) (f : A -> outcome B) (b : B) :
  bind m f = Ok b -> exists a, m = Ok a /\ f a = Ok b.
Proof. destruct m; simpl; [eauto | discriminate]. Qed.

Lemma upd_same {V : Type} (m : N -> V) k v : upd m k v k = v.
Proof. unfold upd. now rewrite N.eqb_refl. Qed.

Lemma upd_other {V : Type} (m : N -> V) k k' v : k' <> k -> upd m k v k' = m k'.
Proof. unfold upd. intros H. apply N.eqb_neq in H. now rewrite H. Qed.

(** ** The probe *)

Section ProbeFacts.
Import Probe.

Lemma httpCheck_isUp startTime endTime r :
  isUp (httpCheck startTime endTime r) =
  match r with
  | HttpStatus status => (status <? 500)%Z
  | NoResponse _ => false
  end.
Proof.
  unfold httpCheck, axios_get. destruct r as [s|m]; [|reflexivity].
  destruct (s <? 500)%Z; reflexivity.
Qed.

Lemma httpCheck_responseTime startTime endTime r :
  responseTime (httpCheck startTime endTime r) = (endTime - startTime)%Z.
Proof.
  unfold httpCheck, axios_get. destruct r as [s|m]; [|reflexivity].
  destruct (s <? 500)%Z; reflexivity.
Qed.

End ProbeFacts.

(** C9, as the code has it.  A reply with a status below 500 is classified
    up; a reply with status 500 or above, or no reply at all (timeout,
    connection error), is classified down.  The response time reported by
    [httpCheck] is the elapsed time between its two clock readings in both
    cases, down included.  [performMonitoringCheck] hands the result of
    [httpCheck] to the gateway as it is; its [catch] block, entered when
    that throws, hands over a second result, [(down, 0)]. *)
Theorem probe_classification_and_elapsed_time :
  forall (startTime endTime : Z) (r : Probe.reply),
    Probe.isUp (Probe.httpCheck startTime endTime r)
      = match r with
        | Probe.HttpStatus status => (status <? 500)%Z
        | Probe.NoResponse _ => false
        end /\
    Probe.responseTime (Probe.httpCheck startTime endTime r)
      = (endTime - startTime)%Z /\
    forall submit_throws,
      Probe.performMonitoringCheck startTime endTime r submit_throws
        = Probe.httpCheck startTime endTime r ::
          match submit_throws (Probe.httpCheck startTime endTime r) with
          | None => []
          | Some message =>
              [{| Probe.isUp := false; Probe.responseTime := 0%Z;
                  Probe.statusCode := 0%Z; Probe.error := Some message |}]
          end.
Proof.
  intros startTime endTime r. split; [|split].
  - apply httpCheck_isUp.
  - apply httpCheck_responseTime.
  - intros submit_throws. unfold Probe.performMonitoringCheck.
    destruct (submit_throws _); reflexivity.
Qed.

(** C9 as stated fails: a probe answered with status 503 after 250 ms is
    classified down and reports 250, not 0. *)
Lemma probe_down_reports_elapsed_time :
  let result := Probe.httpCheck 1000 1250 (Probe.HttpStatus 503) in
  Probe.isUp result = false /\ Probe.responseTime result = 250%Z /\
  Probe.responseTime result <> 0%Z.
Proof. vm_compute. repeat split; discriminate. Qed.

(** ** The contract, for any reward token *)

Section MonitorFacts.

Variable tok : IERC20.
Implicit Types w : world tok.

Lemma consensus_events_emit w ev :
  consensus_events (emit ev w) = consensus_events w ++ filter is_consensus [ev].
Proof. unfold consensus_events. simpl. apply filter_app. Qed.

Lemma settlement_frame_refl w : settlement_frame w w.
Proof. repeat split. Qed.

Lemma settlement_frame_trans w1 w2 w3 :
  settlement_frame w1 w2 -> settlement_frame w2 w3 -> settlement_frame w1 w3.
Proof.
  unfold settlement_frame.
  intros (?&?&?&?&?&?&?&?) (?&?&?&?&?&?&?&?).
  repeat split; congruence.
Qed.

Ltac frame_done :=
  unfold settlement_frame; simpl;
  rewrite ?consensus_events_emit; simpl; rewrite ?app_nil_r;
  repeat split; reflexivity.

Lemma settle_one_frame _requestId c reward n w w' :
  settle_one _requestId c reward n w = Ok w' -> settlement_frame w w'.
Proof.
  unfold settle_one, bind, call_token. intros H.
  step_ok H; subst; frame_done.
Qed.

Lemma settle_all_frame _requestId c reward nodes :
  forall w w', settle_all _requestId c reward nodes w = Ok w' -> settlement_frame w w'.
Proof.
  induction nodes as [|n rest IH]; simpl; intros w w' H.
  - injection H as <-. apply settlement_frame_refl.
  - apply bind_ok in H as (w1 & H1 & H).
    eapply settlement_frame_trans; [eapply settle_one_frame | eapply IH]; eauto.
Qed.

(** *** The counting loop *)

Lemma upCount_of_cons v vals :
  upCount_of (v :: vals) = (if fst v then 1 else 0) + upCount_of vals.
Proof.
  unfold upCount_of. cbn [filter]. destruct (fst v); cbn [List.length];
    rewrite ?Nat2N.inj_succ; lia.
Qed.

Lemma tally_spec results nodes :
  forall c u t c' u' t',
    tally results nodes (c, u, t) = Ok (c', u', t') ->
    c' = c + N.of_nat (List.length (submitted_values results nodes)) /\
    u' = u + upCount_of (submitted_values results nodes) /\
    t' = t + totalResponseTime_of (submitted_values results nodes).
Proof.
  unfold submitted_values.
  induction nodes as [|n rest IH]; simpl; intros c u t c' u' t' H.
  - injection H as <- <- <-. unfold upCount_of. simpl. lia.
  - destruct (MonitoringResult.isSubmitted (results n)) eqn:Hs.
    + apply bind_ok in H as (c1 & Hc & H). apply add_chk_ok in Hc.
      apply bind_ok in H as (u1 & Hu & H).
      apply bind_ok in H as (t1 & Ht & H). apply add_chk_ok in Ht.
      apply IH in H as (-> & -> & ->). subst c1 t1.
      rewrite map_cons, upCount_of_cons. simpl.
      destruct (MonitoringResult.isUp (results n)).
      * apply add_chk_ok in Hu. subst u1. lia.
      * injection Hu as <-. lia.
    + now apply IH.
Qed.

(** *** Consensus *)

Lemma average_guard t n : (if 0 <? n then t / n else 0) = t / n.
Proof. destruct n; [now destruct t | reflexivity]. Qed.

Lemma _checkConsensus_spec _requestId e w w' :
  _checkConsensus _requestId e w = Ok w' ->
  let vals := submissions _requestId w in
  monitoringResults w' = monitoringResults w /\
  requestNodes w' = requestNodes w /\
  consensusThreshold w' = consensusThreshold w /\
  if (List.length vals =? List.length (requestNodes w _requestId))%nat then
    consensus_events w' =
    consensus_events w ++
      [ConsensusReached _requestId (consensusIsUp_of (consensusThreshold w) vals)
         (averageResponseTime_of vals)]
  else w' = w.
Proof.
  unfold _checkConsensus, submissions. intros H.
  apply bind_ok in H as ([[c u] t] & Ht & H).
  apply tally_spec in Ht as (Hc & Hu & Htot). simpl in Hc, Hu, Htot.
  set (vals := submitted_values _ _) in *. cbv zeta.
  destruct (c =? N.of_nat (List.length (requestNodes w _requestId))) eqn:Hfull.
  - apply N.eqb_eq in Hfull.
    assert (Hlen : List.length vals = List.length (requestNodes w _requestId)) by lia.
    rewrite Hlen, Nat.eqb_refl.
    apply bind_ok in H as (lhs & Hl & H). apply mul_chk_ok in Hl.
    apply bind_ok in H as (rhs & Hr & H). apply mul_chk_ok in Hr.
    apply bind_ok in H as (w1 & Hd & H). injection H as <-.
    unfold _distributeRewards in Hd. apply settle_all_frame in Hd.
    destruct Hd as (Hres & Hnodes & _ & _ & Hthr & _ & _ & Hev).
    simpl in Hres, Hnodes, Hthr. rewrite consensus_events_emit in Hev.
    simpl. repeat split; try assumption.
    transitivity (consensus_events w1); [reflexivity|].
    rewrite Hev. simpl. rewrite Hl, Hr, Hu, Htot, Hc.
    unfold consensusIsUp_of, averageResponseTime_of.
    now rewrite average_guard.
  - injection H as <-. apply N.eqb_neq in Hfull.
    destruct (List.length vals =? _)%nat eqn:Hl; [|repeat split].
    apply Nat.eqb_eq in Hl. lia.
Qed.

(** *** Result submission *)

Lemma transact_revert c e w reason : exec c e w = Revert reason -> transact c e w = w.
Proof. unfold transact. now intros ->. Qed.

Lemma submitMonitoringResult_inv _requestId up rt e w w' :
  submitMonitoringResult _requestId up rt e w = Ok w' ->
  onlyRegisteredNode e w = true /\
  validRequest_id _requestId w = true /\
  validRequest_active _requestId w = true /\
  MonitoringResult.isSubmitted (monitoringResults w _requestId (msg_sender e)) = false /\
  _isNodeAssignedToRequest _requestId (msg_sender e) w = true /\
  exists w1,
    _checkConsensus _requestId e w1 = Ok w' /\
    monitoringResults w1 =
      upd (monitoringResults w) _requestId
        (upd (monitoringResults w _requestId) (msg_sender e)
           (MonitoringResult.mk (msg_sender e) up rt (block_timestamp e) true)) /\
    requestNodes w1 = requestNodes w /\
    consensusThreshold w1 = consensusThreshold w /\
    consensus_events w1 = consensus_events w.
Proof.
  unfold submitMonitoringResult, bind. intros H. step_ok H.
  apply negb_true_iff in Heqb2.
  repeat (split; [first [assumption | reflexivity]|]).
  eexists. split; [exact H|].
  rewrite consensus_events_emit. simpl. rewrite app_nil_r. repeat split.
Qed.

Lemma submitMonitoringResult_spec _requestId up rt e w w' :
  submitMonitoringResult _requestId up rt e w = Ok w' ->
  let vals := submissions _requestId w' in
  monitoringResults w' =
    upd (monitoringResults w) _requestId
      (upd (monitoringResults w _requestId) (msg_sender e)
         (MonitoringResult.mk (msg_sender e) up rt (block_timestamp e) true)) /\
  requestNodes w' = requestNodes w /\
  consensusThreshold w' = consensusThreshold w /\
  consensus_events w' =
    consensus_events w ++
    if (List.length vals =? List.length (requestNodes w' _requestId))%nat then
      [ConsensusReached _requestId (consensusIsUp_of (consensusThreshold w') vals)
         (averageResponseTime_of vals)]
    else [].
Proof.
  intros H. apply submitMonitoringResult_inv in H.
  destruct H as (_ & _ & _ & _ & _ & w1 & Hc & Hres & Hnodes & Hthr & Hev).
  apply _checkConsensus_spec in Hc. cbv zeta in Hc.
  destruct Hc as (Hres' & Hnodes' & Hthr' & Hc). cbv zeta.
  unfold submissions in *. rewrite Hres', Hnodes', Hthr'.
  repeat split; try congruence.
  destruct (_ =? _)%nat.
  - now rewrite Hc, Hev.
  - subst w'. now rewrite app_nil_r.
Qed.

End MonitorFacts.

Lemma third_vote_accepted :
  submitMonitoringResult 1 false 5000 (Fixture.at_time Fixture.node3 32)
    (Fixture.two_votes Ledger.Reverts)
  = Ok (Fixture.settled Ledger.Reverts).
Proof. vm_compute. reflexivity. Qed.

(** C1.  A successful result submission logs a [ConsensusReached] event
    exactly when, the new result included, as many results are recorded as
    the committee has members; the event then carries
    [upCount * 100 >= submittedCount * consensusThreshold] and
    [floor (sum responseTime / submittedCount)], both taken over the
    recorded results.  With the fixture's committee of three and the
    threshold 66, the votes up (200 ms), up (180 ms), down (5000 ms) give
    no consensus event after two votes and [ConsensusReached 1 true 1793]
    after the third. *)
Theorem consensus_evaluation :
  (forall (tok : IERC20) (w w' : world tok) _requestId _isUp _responseTime e,
      submitMonitoringResult _requestId _isUp _responseTime e w = Ok w' ->
      let vals := submissions _requestId w' in
      let submittedCount := N.of_nat (List.length vals) in
      consensus_events w' =
        consensus_events w ++
        if submittedCount =? N.of_nat (List.length (requestNodes w' _requestId)) then
          [ConsensusReached _requestId
             (submittedCount * consensusThreshold w' <=? upCount_of vals * 100)
             (totalResponseTime_of vals / submittedCount)]
        else []) /\
  (let before := Fixture.two_votes Ledger.Reverts in
   let after := Fixture.settled Ledger.Reverts in
   requestNodes before 1 = [Fixture.node1; Fixture.node2; Fixture.node3] /\
   consensusThreshold before = 66 /\
   consensus_events before = [] /\
   submitMonitoringResult 1 false 5000 (Fixture.at_time Fixture.node3 32) before
     = Ok after /\
   submissions 1 after = [(true, 200); (true, 180); (false, 5000)] /\
   consensus_events after = [ConsensusReached 1 true 1793]).
Proof.
  split.
  - intros tok w w' _requestId _isUp _responseTime e H.
    apply submitMonitoringResult_spec in H. cbv zeta in *.
    destruct H as (_ & _ & _ & ->). f_equal.
    destruct (_ =? _)%nat eqn:E.
    + unfold consensusIsUp_of, averageResponseTime_of.
      apply Nat.eqb_eq in E. rewrite E, N.eqb_refl. reflexivity.
    + apply Nat.eqb_neq in E.
      destruct (N.of_nat _ =? N.of_nat _) eqn:E'; [|reflexivity].
      apply N.eqb_eq in E'. lia.
  - cbv zeta. split_all; vm_compute; reflexivity.
Qed.

Lemma consensus_evaluation_witness :
  let before := Fixture.two_votes Ledger.Reverts in
  let after := Fixture.settled Ledger.Reverts in
  let vals := submissions 1 after in
  let submittedCount := N.of_nat (List.length vals) in
  consensus_events after =
    consensus_events before ++
    if submittedCount =? N.of_nat (List.length (requestNodes after 1)) then
      [ConsensusReached 1
         (submittedCount * consensusThreshold after <=? upCount_of vals * 100)
         (totalResponseTime_of vals / submittedCount)]
    else [].
Proof.
  exact (proj1 consensus_evaluation _ _ _ 1 false 5000
           (Fixture.at_time Fixture.node3 32) third_vote_accepted).
Defined.

(** ** Validation of monitoring requests *)

(** C8.  A [createMonitoringRequest] call with an interval below 60, an
    empty URL, a reward of 0 or a timeout above [maxResponseTime] reverts;
    the transaction leaves the world as it was, so no request record is
    written and [_nextRequestId] keeps its value. *)
Theorem invalid_request_rejected :
  forall (tok : IERC20) (w : world tok) e _url _interval _timeout _rewardPerCheck,
    _interval < 60 \/ _url = EmptyString \/ _rewardPerCheck = 0 \/
    maxResponseTime w < _timeout ->
    let tx := CreateMonitoringRequest _url _interval _timeout _rewardPerCheck in
    (exists reason,
        createMonitoringRequest _url _interval _timeout _rewardPerCheck e w
        = Revert reason) /\
    transact tx e w = w /\
    monitoringRequests (transact tx e w) = monitoringRequests w /\
    _nextRequestId (transact tx e w) = _nextRequestId w.
Proof.
  intros tok w e _url _interval _timeout _rewardPerCheck H tx.
  assert (Hrev : exists reason,
             createMonitoringRequest _url _interval _timeout _rewardPerCheck e w
             = Revert reason).
  { unfold createMonitoringRequest.
    destruct (negb (_paused w)); [|eauto].
    destruct (0 <? String.length _url)%nat eqn:Hu; [|eauto].
    destruct (60 <=? _interval) eqn:Hi; [|eauto].
    destruct (_timeout <=? maxResponseTime w) eqn:Ht; [|eauto].
    destruct (0 <? _rewardPerCheck) eqn:Hr; [|eauto].
    apply Nat.ltb_lt in Hu. apply N.leb_le in Hi, Ht. apply N.ltb_lt in Hr.
    destruct H as [H | [H | [H | H]]]; try lia.
    subst _url. simpl in Hu. lia. }
  destruct Hrev as (reason & Hrev).
  assert (Htx : transact tx e w = w).
  { apply transact_revert with (reason := reason). unfold tx, exec.
    now rewrite Hrev. }
  rewrite Htx. eauto.
Qed.

Lemma invalid_request_rejected_witness :
  let w := Fixture.registered Ledger.Reverts in
  let tx := CreateMonitoringRequest "https://example.com" 30 5000 (Fixture.ether 1) in
  (exists reason,
      createMonitoringRequest "https://example.com" 30 5000 (Fixture.ether 1)
        (Fixture.at_time Fixture.requester 20) w = Revert reason) /\
  transact tx (Fixture.at_time Fixture.requester 20) w = w /\
  monitoringRequests (transact tx (Fixture.at_time Fixture.requester 20) w)
    = monitoringRequests w /\
  _nextRequestId (transact tx (Fixture.at_time Fixture.requester 20) w)
    = _nextRequestId w.
Proof.
  apply (@invalid_request_rejected (Ledger.erc20 Ledger.Reverts)
           (Fixture.registered Ledger.Reverts)
           (Fixture.at_time Fixture.requester 20)
           "https://example.com" 30 5000 (Fixture.ether 1)).
  left. reflexivity.
Defined.

(** ** The pause switch *)

Section PauseFacts.

Variable tok : IERC20.
Implicit Types w : world tok.

Lemma settle_one_pause _requestId c reward n b w :
  settle_one _requestId c reward n (set_paused b w)
  = lift_outcome (set_paused b) (settle_one _requestId c reward n w).
Proof.
  unfold settle_one, bind, call_token. simpl.
  repeat (break_match_goal; simpl; try reflexivity; try congruence).
Qed.

Lemma settle_all_pause _requestId c reward nodes b :
  forall w,
    settle_all _requestId c reward nodes (set_paused b w)
    = lift_outcome (set_paused b) (settle_all _requestId c reward nodes w).
Proof.
  induction nodes as [|n rest IH]; intros w; [reflexivity|].
  cbn [settle_all]. rewrite settle_one_pause.
  destruct (settle_one _requestId c reward n w) as [w1|]; [apply IH | reflexivity].
Qed.

Lemma _checkConsensus_pause _requestId e b w :
  _checkConsensus _requestId e (set_paused b w)
  = lift_outcome (set_paused b) (_checkConsensus _requestId e w).
Proof.
  unfold _checkConsensus, _distributeRewards, bind.
  simpl requestNodes. simpl monitoringResults. simpl consensusThreshold.
  simpl monitoringRequests.
  destruct (tally _ _ _) as [[[sc uc] tot]|]; [|reflexivity].
  destruct (sc =? _); [|reflexivity].
  destruct (mul_chk uc 100); [|reflexivity].
  destruct (mul_chk sc _); [|reflexivity].
  match goal with
  | |- context [settle_all _ _ _ _ (emit ?ev (set_paused b w))] =>
      change (emit ev (set_paused b w)) with (set_paused b (emit ev w))
  end.
  rewrite settle_all_pause.
  destruct (settle_all _ _ _ _ _); reflexivity.
Qed.

Lemma submitMonitoringResult_pause _requestId up rt e b w :
  submitMonitoringResult _requestId up rt e (set_paused b w)
  = lift_outcome (set_paused b) (submitMonitoringResult _requestId up rt e w).
Proof.
  unfold submitMonitoringResult, onlyRegisteredNode, validRequest_id,
    validRequest_active, _isNodeAssignedToRequest, bind.
  simpl monitoringNodes. simpl _nextRequestId. simpl monitoringRequests.
  simpl monitoringResults. simpl requestNodes.
  repeat match goal with
         | |- (if ?c then _ else _) = lift_outcome _ (if ?c then _ else _) =>
             destruct c; [|reflexivity]
         end.
  destruct (add_chk _ 1) as [tc|]; [|reflexivity].
  match goal with
  | |- _checkConsensus _ _ ?w1 = lift_outcome _ (_checkConsensus _ _ ?w2) =>
      change w1 with (set_paused b w2)
  end.
  apply _checkConsensus_pause.
Qed.

Ltac pause_blind :=
  unfold bind, call_token; simpl;
  repeat (break_match_goal; simpl; try reflexivity; try congruence).

Lemma exec_pause c e b w :
  gated_by_pause c = false -> pause_switch c = false ->
  exec c e (set_paused b w) = lift_outcome (set_paused b) (exec c e w).
Proof.
  intros Hg Hs. destruct c; try discriminate; cbn [exec].
  - unfold unregisterNode, onlyRegisteredNode. pause_blind.
  - unfold addStake, onlyRegisteredNode. pause_blind.
  - unfold deactivateMonitoringRequest, validRequest_id, validRequest_active.
    pause_blind.
  - apply submitMonitoringResult_pause.
  - unfold setMinimumStake, onlyOwner. pause_blind.
  - unfold setConsensusThreshold, onlyOwner. pause_blind.
  - unfold emergencyWithdraw, onlyOwner. pause_blind.
  - unfold transferOwnership, onlyOwner. pause_blind.
  - unfold renounceOwnership, onlyOwner. pause_blind.
Qed.

Lemma exec_gated c e w :
  gated_by_pause c = true -> _paused w = true -> exec c e w = Revert "EnforcedPause".
Proof.
  intros Hg Hp. destruct c; try discriminate; cbn [exec].
  - unfold registerNode. now rewrite Hp.
  - unfold createMonitoringRequest. now rewrite Hp.
Qed.

End PauseFacts.

(** C10, as the code has it.  While the monitor is paused three calls are
    stopped by the pause, not two: [registerNode] and
    [createMonitoringRequest], which carry [whenNotPaused], and [pause]
    itself, whose [_pause] carries the same modifier; for the owner all
    three revert with [EnforcedPause].  [unpause] is the one call that
    needs the pause: it reverts with [ExpectedPause] without it.  Every
    other call, [submitMonitoringResult], [unregisterNode] and [addStake]
    among them, neither reads nor writes the flag: run with the flag set to
    any value it has the outcome it has without, reverting for the same
    reason or returning the same world up to the flag. *)
Theorem calls_stopped_by_the_pause :
  forall (tok : IERC20) (c : call) (e : env) (w : world tok),
    (gated_by_pause c = true <->
     c = RegisterNode \/
     exists u i t r, c = CreateMonitoringRequest u i t r) /\
    (gated_by_pause c = true ->
     exec c e (set_paused true w) = Revert "EnforcedPause") /\
    (forall b,
        exec Pause e (set_paused b w)
        = if msg_sender e =? _owner w then
            if b then Revert "EnforcedPause" else Ok (set_paused true w)
          else Revert "OwnableUnauthorizedAccount") /\
    (forall b,
        exec Unpause e (set_paused b w)
        = if msg_sender e =? _owner w then
            if b then Ok (set_paused false w) else Revert "ExpectedPause"
          else Revert "OwnableUnauthorizedAccount") /\
    (gated_by_pause c = false -> pause_switch c = false ->
     forall b, exec c e (set_paused b w)
               = lift_outcome (set_paused b) (exec c e w)).
Proof.
  intros tok c e w. split_all.
  - destruct c; simpl; split; intros H; try discriminate; eauto 6;
      destruct H as [H | (u & i & t & r & H)]; discriminate.
  - intros Hg. now apply exec_gated.
  - intros b. cbn [exec]. unfold pause, onlyOwner. simpl.
    destruct (msg_sender e =? _owner w); [|reflexivity].
    destruct b; reflexivity.
  - intros b. cbn [exec]. unfold unpause, onlyOwner. simpl.
    destruct (msg_sender e =? _owner w); [|reflexivity].
    destruct b; reflexivity.
  - intros Hg Hs b. now apply exec_pause.
Qed.

(** The third vote of the fixture's round is accepted on the paused
    monitor as it is on the running one. *)
Lemma calls_stopped_by_the_pause_witness :
  exec (SubmitMonitoringResult 1 false 5000) (Fixture.at_time Fixture.node3 32)
    (set_paused true (Fixture.two_votes Ledger.Reverts))
  = Ok (set_paused true (Fixture.settled Ledger.Reverts)).
Proof.
  exact (eq_trans
           (proj2 (proj2 (proj2 (proj2
              (@calls_stopped_by_the_pause (Ledger.erc20 Ledger.Reverts)
                 (SubmitMonitoringResult 1 false 5000)
                 (Fixture.at_time Fixture.node3 32)
                 (Fixture.two_votes Ledger.Reverts))))) eq_refl eq_refl true)
           (f_equal (lift_outcome (set_paused true)) third_vote_accepted)).
Defined.

(** C10 as stated fails: [pause] is not one of the two calls it names, yet
    the pause stops it.  On the fixture with its three nodes registered the
    owner's [pause] succeeds; repeated on the monitor it has paused, the
    same call by the same sender reverts with [EnforcedPause]. *)
Lemma pause_is_stopped_by_the_pause :
  let w := Fixture.registered Ledger.Reverts in
  let e := Fixture.at_time Fixture.owner 40 in
  gated_by_pause Pause = false /\
  _paused w = false /\
  exec Pause e w = Ok (set_paused true w) /\
  exec Pause e (set_paused true w) = Revert "EnforcedPause".
Proof. cbv zeta. split_all; vm_compute; reflexivity. Qed.

(** ** Staking with the reward asset *)


Lemma move_credit a b amount bal :
  a <> b -> Ledger.move a b amount bal b = bal b + amount.
Proof.
  intros Hab. unfold Ledger.move. rewrite upd_same, upd_other; congruence.
Qed.

Lemma move_other a b c amount bal :
  c <> a -> c <> b -> Ledger.move a b amount bal c = bal c.
Proof. intros Ha Hb. unfold Ledger.move. now rewrite !upd_other. Qed.


Lemma unregisterNode_reward_token e (w w2 : world RewardToken) :
  unregisterNode e w = Ok w2 ->
  let a := msg_sender e in
  let s := MonitoringNode.stake (monitoringNodes w a) in
  s <= Ledger.balances (token w) (self w) /\
  Ledger.balances (token w2) = Ledger.move (self w) a s (Ledger.balances (token w)) /\
  MonitoringNode.isActive (monitoringNodes w2 a) = false /\
  MonitoringNode.stake (monitoringNodes w2 a) = 0.
Proof.
  unfold unregisterNode, bind, call_token. simpl. unfold Ledger.transfer.
  intros H. step_ok H; try discriminate. subst w2. to_props.
  simpl. rewrite !upd_same. simpl. auto.
Qed.


(** ** Failing token transfers *)

Section TransferFailures.

Variable tok : IERC20.
Implicit Types w : world tok.

Lemma registerNode_failed_transfer e w :
  transfer_failed
    (transferFrom tok (self w) (msg_sender e) (self w) (minimumStake w) (token w))
  = true ->
  exists reason, registerNode e w = Revert reason.
Proof.
  unfold registerNode, bind, call_token. intros H.
  destruct (negb (_paused w)); [|eauto].
  destruct (negb (MonitoringNode.isActive _)); [|eauto].
  destruct (transferFrom tok _ _ _ _ _) as [[|] t|]; simpl in *; eauto.
  discriminate.
Qed.

Lemma addStake_failed_transfer _amount e w :
  transfer_failed
    (transferFrom tok (self w) (msg_sender e) (self w) _amount (token w)) = true ->
  exists reason, addStake _amount e w = Revert reason.
Proof.
  unfold addStake, bind, call_token. intros H.
  destruct (onlyRegisteredNode e w); [|eauto].
  destruct (0 <? _amount); [|eauto].
  destruct (transferFrom tok _ _ _ _ _) as [[|] t|]; simpl in *; eauto.
  discriminate.
Qed.

Lemma unregisterNode_failed_transfer e w :
  transfer_failed
    (transfer tok (self w) (msg_sender e)
       (MonitoringNode.stake (monitoringNodes w (msg_sender e))) (token w)) = true ->
  exists reason, unregisterNode e w = Revert reason.
Proof.
  unfold unregisterNode, bind, call_token. intros H.
  destruct (onlyRegisteredNode e w); [|eauto].
  destruct (0 <? _); [|eauto]. simpl.
  destruct (transfer tok _ _ _ _) as [[|] t|]; simpl in *; eauto.
  discriminate.
Qed.

Lemma settle_one_reverting_transfer _requestId c reward a w :
  MonitoringResult.isSubmitted (monitoringResults w _requestId a) = true ->
  MonitoringResult.isUp (monitoringResults w _requestId a) = c ->
  transfer tok (self w) a reward (token w) = Reverted ->
  exists reason, settle_one _requestId c reward a w = Revert reason.
Proof.
  intros Hs Hu Ht. unfold settle_one, bind, call_token.
  rewrite Hs, Hu, eqb_reflx.
  destruct (add_chk _ 1); [|eauto].
  destruct (add_chk _ 1); [|eauto].
  simpl. rewrite Ht. eauto.
Qed.

Lemma settle_all_app _requestId c reward pre post :
  forall w,
    settle_all _requestId c reward (pre ++ post) w
    = bind (settle_all _requestId c reward pre w)
        (settle_all _requestId c reward post).
Proof.
  induction pre as [|n rest IH]; intros w; [reflexivity|].
  cbn [app settle_all].
  destruct (settle_one _requestId c reward n w) as [w1|reason]; [apply IH | reflexivity].
Qed.

(** The payout that reverts may be any one of the loop: the members
    [pre] before it have been settled, [w1] is the world they left. *)
Lemma settle_all_reverting_transfer _requestId c reward pre a post w w1 :
  settle_all _requestId c reward pre w = Ok w1 ->
  MonitoringResult.isSubmitted (monitoringResults w _requestId a) = true ->
  MonitoringResult.isUp (monitoringResults w _requestId a) = c ->
  transfer tok (self w) a reward (token w1) = Reverted ->
  exists reason,
    settle_all _requestId c reward (pre ++ a :: post) w = Revert reason.
Proof.
  intros Hpre Hs Hu Ht. rewrite settle_all_app, Hpre.
  apply settle_all_frame in Hpre as (Hres & _ & _ & _ & _ & _ & Hself & _).
  destruct (@settle_one_reverting_transfer _requestId c reward a w1) as (reason & Hr);
    rewrite ?Hres, ?Hself; try assumption.
  cbn [bind settle_all]. rewrite Hr. simpl. eauto.
Qed.

End TransferFailures.

(** *** A reward pool that cannot pay *)

Section PoolShortfall.

Implicit Types w : world RewardToken.

Lemma reward_token_reverts :
  (forall caller to amount t,
      transfer_failed (transfer RewardToken caller to amount t) = true ->
      transfer RewardToken caller to amount t = Reverted) /\
  (forall caller from to amount t,
      transfer_failed (transferFrom RewardToken caller from to amount t) = true ->
      transferFrom RewardToken caller from to amount t = Reverted).
Proof.
  split; intros; simpl in *.
  - unfold Ledger.transfer in *. destruct (_ <=? _); [discriminate | reflexivity].
  - unfold Ledger.transferFrom in *. destruct (_ && _); [discriminate | reflexivity].
Qed.

(** What settling one member does to the pool. *)
Lemma settle_one_pool _requestId c reward n w w1 :
  settle_one _requestId c reward n w = Ok w1 ->
  n <> self w ->
  if agrees (monitoringResults w _requestId) c n
  then reward <= Ledger.balances (token w) (self w) /\
       Ledger.balances (token w1) (self w)
       = Ledger.balances (token w) (self w) - reward
  else token w1 = token w.
Proof.
  unfold settle_one, bind, call_token, agrees. intros H Hne.
  destruct (MonitoringResult.isSubmitted _); [|now injection H as <-].
  destruct (Bool.eqb _ _); cbn [andb].
  - destruct (add_chk _ 1); [|discriminate]. simpl in H.
    destruct (add_chk _ 1); [|discriminate]. simpl in H.
    unfold Ledger.transfer in H.
    destruct (reward <=? _) eqn:Hle; [|discriminate]. injection H as <-.
    apply N.leb_le in Hle. split; [exact Hle|]. simpl. unfold Ledger.move.
    assert (Hne' : self w <> n) by congruence.
    now rewrite (upd_other _ _ Hne'), upd_same.
  - destruct (1 <? _); simpl in H; [destruct (sub_chk _ 1); simpl in H|];
      try discriminate; now injection H as <-.
Qed.

(** The pool has to pay every member whose vote is the consensus. *)
Lemma settle_all_pool _requestId c reward nodes :
  forall w,
    forallb (fun a => negb (a =? self w)) nodes = true ->
    Ledger.balances (token w) (self w)
    < N.of_nat (List.length (filter (agrees (monitoringResults w _requestId) c) nodes))
      * reward ->
    exists reason, settle_all _requestId c reward nodes w = Revert reason.
Proof.
  induction nodes as [|n rest IH]; intros w Hnodes Hb; [simpl in Hb; lia|].
  cbn [forallb] in Hnodes. apply andb_prop in Hnodes as (Hn & Hrest).
  apply negb_true_iff, N.eqb_neq in Hn.
  cbn [settle_all].
  destruct (settle_one _requestId c reward n w) as [w1|reason] eqn:E;
    [|simpl; eauto].
  pose proof (settle_one_pool _ _ _ _ E Hn) as Hpool.
  apply settle_one_frame in E as (Hres & _ & _ & _ & _ & _ & Hself & _).
  cbn [bind]. apply IH; rewrite ?Hself, ?Hres; [exact Hrest|].
  cbn [filter] in Hb.
  destruct (agrees (monitoringResults w _requestId) c n).
  - destruct Hpool as (Hle & ->). cbn [List.length] in Hb.
    rewrite Nat2N.inj_succ in Hb. lia.
  - now rewrite Hpool.
Qed.

Lemma submitted_values_full results nodes :
  forallb (fun a => MonitoringResult.isSubmitted (results a)) nodes = true ->
  List.length (submitted_values results nodes) = List.length nodes.
Proof.
  unfold submitted_values. rewrite length_map.
  induction nodes as [|n rest IH]; intros Hall; [reflexivity|].
  cbn [forallb] in Hall. apply andb_prop in Hall as (Hn & Hrest).
  cbn [filter]. rewrite Hn. cbn [List.length]. now rewrite IH.
Qed.

Lemma _checkConsensus_pool _requestId e w :
  let nodes := requestNodes w _requestId in
  let results := monitoringResults w _requestId in
  let verdict :=
    consensusIsUp_of (consensusThreshold w) (submitted_values results nodes) in
  forallb (fun a => MonitoringResult.isSubmitted (results a)) nodes = true ->
  forallb (fun a => negb (a =? self w)) nodes = true ->
  Ledger.balances (token w) (self w)
  < N.of_nat (List.length (filter (agrees results verdict) nodes))
    * MonitoringRequest.reward (monitoringRequests w _requestId) ->
  exists reason, _checkConsensus _requestId e w = Revert reason.
Proof.
  cbv zeta. intros Hall Hnodes Hb.
  destruct (_checkConsensus _requestId e w) as [w'|reason] eqn:H; [exfalso | eauto].
  unfold _checkConsensus in H.
  apply bind_ok in H as ([[sc uc] tot] & Ht & H).
  apply tally_spec in Ht as (Hsc & Huc & _). simpl in Hsc, Huc.
  pose proof (submitted_values_full _ _ Hall) as Hlen.
  rewrite Hlen in Hsc. subst sc. rewrite N.eqb_refl in H.
  apply bind_ok in H as (lhs & Hl & H). apply mul_chk_ok in Hl.
  apply bind_ok in H as (rhs & Hr & H). apply mul_chk_ok in Hr.
  apply bind_ok in H as (w1 & Hd & _).
  unfold _distributeRewards in Hd. subst lhs rhs uc.
  unfold consensusIsUp_of in Hb. rewrite Hlen in Hb.
  match type of Hd with
  | settle_all _ ?c ?reward ?nodes ?w0 = _ =>
      destruct (@settle_all_pool _requestId c reward nodes w0) as (reason & Hrev)
  end.
  - exact Hnodes.
  - exact Hb.
  - simpl in Hd, Hrev. congruence.
Qed.

Lemma submitMonitoringResult_pool _requestId up rt e w :
  let nodes := requestNodes w _requestId in
  let results :=
    upd (monitoringResults w _requestId) (msg_sender e)
      (MonitoringResult.mk (msg_sender e) up rt (block_timestamp e) true) in
  let verdict :=
    consensusIsUp_of (consensusThreshold w) (submitted_values results nodes) in
  forallb (fun a => MonitoringResult.isSubmitted (results a)) nodes = true ->
  forallb (fun a => negb (a =? self w)) nodes = true ->
  Ledger.balances (token w) (self w)
  < N.of_nat (List.length (filter (agrees results verdict) nodes))
    * MonitoringRequest.reward (monitoringRequests w _requestId) ->
  exists reason, submitMonitoringResult _requestId up rt e w = Revert reason.
Proof.
  cbv zeta. intros Hall Hnodes Hb.
  destruct (submitMonitoringResult _requestId up rt e w) as [w'|reason] eqn:H;
    [exfalso | eauto].
  unfold submitMonitoringResult, bind in H.
  destruct (onlyRegisteredNode e w); [|discriminate].
  destruct (validRequest_id _requestId w); [|discriminate].
  destruct (validRequest_active _requestId w); [|discriminate].
  destruct (negb _); [|discriminate].
  destruct (_isNodeAssignedToRequest _requestId (msg_sender e) w); [|discriminate].
  destruct (add_chk _ 1) as [tc|]; [|discriminate].
  match type of H with
  | _checkConsensus _ _ ?w1 = _ =>
      destruct (@_checkConsensus_pool _requestId e w1) as (reason & Hrev)
  end.
  - simpl. rewrite upd_same. exact Hall.
  - exact Hnodes.
  - simpl. rewrite upd_same. exact Hb.
  - congruence.
Qed.

End PoolShortfall.

(** C3.  A transaction whose call reverts leaves the world unchanged.  A
    stake transfer ([registerNode], [addStake]) or a stake return
    ([unregisterNode]) that fails, by reverting or by returning [false],
    makes the call revert.  A reward payout that reverts, at whatever member
    of the committee the settlement loop has arrived, makes the settlement
    revert.  [_distributeRewards] tests the value a payout returns with
    [if], not with [require]; the reward asset never returns [false], a
    transfer it cannot make reverts.  So with the reward asset a result
    submission that completes a round reverts as a whole, the vote not
    recorded, whenever the monitor holds less than the reward times the
    number of members whose vote is the consensus: the payouts it can make
    are undone with the one it cannot. *)
Theorem transfer_failure_handling :
  (forall (tok : IERC20) (w : world tok) (e : env),
      (forall c reason, exec c e w = Revert reason -> transact c e w = w) /\
      (transfer_failed
         (transferFrom tok (self w) (msg_sender e) (self w) (minimumStake w)
            (token w)) = true ->
       exists reason, registerNode e w = Revert reason) /\
      (forall _amount,
          transfer_failed
            (transferFrom tok (self w) (msg_sender e) (self w) _amount (token w))
          = true ->
          exists reason, addStake _amount e w = Revert reason) /\
      (transfer_failed
         (transfer tok (self w) (msg_sender e)
            (MonitoringNode.stake (monitoringNodes w (msg_sender e))) (token w))
       = true ->
       exists reason, unregisterNode e w = Revert reason) /\
      (forall _requestId consensusIsUp pre a post w1,
          requestNodes w _requestId = pre ++ a :: post ->
          settle_all _requestId consensusIsUp
            (MonitoringRequest.reward (monitoringRequests w _requestId)) pre w
          = Ok w1 ->
          MonitoringResult.isSubmitted (monitoringResults w _requestId a) = true ->
          MonitoringResult.isUp (monitoringResults w _requestId a) = consensusIsUp ->
          transfer tok (self w) a
            (MonitoringRequest.reward (monitoringRequests w _requestId)) (token w1)
          = Reverted ->
          exists reason,
            _distributeRewards _requestId consensusIsUp w = Revert reason)) /\
  (forall caller from to amount t,
      (transfer_failed (transfer RewardToken caller to amount t) = true ->
       transfer RewardToken caller to amount t = Reverted) /\
      (transfer_failed (transferFrom RewardToken caller from to amount t) = true ->
       transferFrom RewardToken caller from to amount t = Reverted)) /\
  (forall (w : world RewardToken) (e : env) _requestId _isUp _responseTime,
      let nodes := requestNodes w _requestId in
      let results :=
        upd (monitoringResults w _requestId) (msg_sender e)
          (MonitoringResult.mk (msg_sender e) _isUp _responseTime
             (block_timestamp e) true) in
      let verdict :=
        consensusIsUp_of (consensusThreshold w) (submitted_values results nodes) in
      let winners := filter (agrees results verdict) nodes in
      forallb (fun a => MonitoringResult.isSubmitted (results a)) nodes = true ->
      forallb (fun a => negb (a =? self w)) nodes = true ->
      balanceOf RewardToken (token w) (self w)
      < N.of_nat (List.length winners)
        * MonitoringRequest.reward (monitoringRequests w _requestId) ->
      let tx := SubmitMonitoringResult _requestId _isUp _responseTime in
      (exists reason, exec tx e w = Revert reason) /\ transact tx e w = w).
Proof.
  split; [|split].
  - intros tok w e. split_all.
    + intros c reason. apply transact_revert.
    + apply registerNode_failed_transfer.
    + intros _amount. apply addStake_failed_transfer.
    + apply unregisterNode_failed_transfer.
    + intros _requestId consensusIsUp pre a post w1 Hnodes Hpre Hs Hu Ht.
      unfold _distributeRewards. rewrite Hnodes.
      now apply settle_all_reverting_transfer with (w1 := w1).
  - intros caller from to amount t. split.
    + apply (proj1 reward_token_reverts).
    + apply (proj2 reward_token_reverts).
  - intros w e _requestId _isUp _responseTime nodes results verdict winners
      Hall Hnodes Hb tx.
    destruct (@submitMonitoringResult_pool _requestId _isUp _responseTime
                e w Hall Hnodes Hb) as (reason & H).
    split; [exists reason; exact H|].
    apply transact_revert with (reason := reason). exact H.
Qed.

(** The theorem at work on the fixture.  Address 5 holds no tokens, so its
    registration reverts; node 1 has spent its allowance on its stake, so
    its [addStake] reverts; on the monitor whose pool has been swept its
    [unregisterNode] reverts.  On the monitor that can pay one reward but
    not two, the settlement started by the vote of node 3 pays node 1 and
    reverts at the payout of node 2; the submission of node 3 reverts and
    leaves the world as it was.  On the swept monitor node 1 casts the only
    vote of request 1 and the payout cannot be made: the submission
    reverts and the world stays as it was. *)
Lemma transfer_failure_handling_witness :
  (exists reason,
      registerNode (Fixture.at_time 5 50) (Fixture.fresh Ledger.Reverts)
      = Revert reason) /\
  (exists reason,
      addStake (Fixture.ether 1) (Fixture.at_time Fixture.node1 50)
        (Fixture.registered Ledger.Reverts) = Revert reason) /\
  (exists reason,
      unregisterNode (Fixture.at_time Fixture.node1 50) (Fixture.drained Ledger.Reverts)
      = Revert reason) /\
  (exists reason, _distributeRewards 1 true Scenario.costly_voted = Revert reason) /\
  ((exists reason,
       exec (SubmitMonitoringResult 1 false 5000) (Fixture.at_time Fixture.node3 32)
         Scenario.costly = Revert reason) /\
   transact (SubmitMonitoringResult 1 false 5000) (Fixture.at_time Fixture.node3 32)
     Scenario.costly
   = Scenario.costly) /\
  ((exists reason,
       exec (SubmitMonitoringResult 1 true 200) (Fixture.at_time Fixture.node1 32)
         (Fixture.drained Ledger.Reverts) = Revert reason) /\
   transact (SubmitMonitoringResult 1 true 200) (Fixture.at_time Fixture.node1 32)
     (Fixture.drained Ledger.Reverts)
   = Fixture.drained Ledger.Reverts).
Proof.
  split; [|split; [|split; [|split; [|split]]]].
  - apply (proj1 (proj2 (proj1 transfer_failure_handling RewardToken
                           (Fixture.fresh Ledger.Reverts) (Fixture.at_time 5 50)))).
    vm_compute. reflexivity.
  - apply (proj1 (proj2 (proj2 (proj1 transfer_failure_handling RewardToken
                                  (Fixture.registered Ledger.Reverts)
                                  (Fixture.at_time Fixture.node1 50))))
             (Fixture.ether 1)).
    vm_compute. reflexivity.
  - apply (proj1 (proj2 (proj2 (proj2 (proj1 transfer_failure_handling RewardToken
                                         (Fixture.drained Ledger.Reverts)
                                         (Fixture.at_time Fixture.node1 50)))))).
    vm_compute. reflexivity.
  - apply (proj2 (proj2 (proj2 (proj2
             (proj1 transfer_failure_handling RewardToken Scenario.costly_voted
                (Fixture.at_time Fixture.node3 32)))))
             1 true [Fixture.node1] Fixture.node2 [Fixture.node3]
             Scenario.costly_first_paid);
      vm_compute; reflexivity.
  - apply (proj2 (proj2 transfer_failure_handling)
             Scenario.costly (Fixture.at_time Fixture.node3 32) 1 false 5000).
    + vm_compute. reflexivity.
    + vm_compute. reflexivity.
    + apply N.ltb_lt. vm_compute. reflexivity.
  - apply (proj2 (proj2 transfer_failure_handling)
             (Fixture.drained Ledger.Reverts) (Fixture.at_time Fixture.node1 32)
             1 true 200).
    + vm_compute. reflexivity.
    + vm_compute. reflexivity.
    + apply N.ltb_lt. vm_compute. reflexivity.
Defined.

(** ** Settlement on the reward asset *)

Section Settlement.

Implicit Types w : world RewardToken.

Variable _requestId : uint256.
Variable consensusIsUp : bool.
Variable reward : uint256.

Lemma settle_one_effect n w w' :
  settle_one _requestId consensusIsUp reward n w = Ok w' ->
  n <> self w ->
  others_untouched n w w' /\
  if MonitoringResult.isSubmitted (monitoringResults w _requestId n) then
    member_settled _requestId consensusIsUp reward n w w' /\
    events w' = events w ++ [settlement_event _requestId consensusIsUp reward w n]
  else w' = w.
Proof.
  unfold settle_one, bind, call_token, member_settled, settlement_event,
    others_untouched, untouched.
  unfold RewardToken, Ledger.erc20. simpl. unfold Ledger.transfer, sub_chk, add_chk.
  intros H Hn.
  destruct (MonitoringResult.isSubmitted _); [|injection H as <-; now split].
  destruct (Bool.eqb _ _).
  - step_ok H; try discriminate. subst w'. simpl.
    rewrite !upd_same. simpl. split; [|split; [split_all|]]; try reflexivity.
    + intros a Ha. rewrite !upd_other by assumption. split; [reflexivity|].
      intros Hs. now apply move_other.
    + apply move_credit. intros E. now apply Hn.
  - step_ok H; try discriminate; subst w'; simpl; rewrite ?upd_same; simpl;
      (split; [|split; [split_all|]]); try reflexivity;
      intros a Ha; rewrite ?upd_other by assumption; split; reflexivity.
Qed.

Lemma untouched_trans a w1 w2 w3 :
  self w2 = self w1 -> untouched a w1 w2 -> untouched a w2 w3 -> untouched a w1 w3.
Proof.
  unfold untouched. intros Hs [H1 H1'] [H2 H2']. split; [congruence|].
  intros Ha. rewrite H2', H1'; congruence.
Qed.

Lemma member_settled_before a w1 w2 w3 :
  monitoringResults w2 = monitoringResults w1 ->
  self w2 = self w1 -> a <> self w1 ->
  untouched a w1 w2 ->
  member_settled _requestId consensusIsUp reward a w2 w3 ->
  member_settled _requestId consensusIsUp reward a w1 w3.
Proof.
  unfold member_settled, untouched. intros Hr Hs Ha [Hn Hb] H.
  rewrite Hr, Hn, Hb in H by assumption. exact H.
Qed.

Lemma member_settled_after a w1 w2 w3 :
  self w2 = self w1 -> a <> self w1 ->
  member_settled _requestId consensusIsUp reward a w1 w2 ->
  untouched a w2 w3 ->
  member_settled _requestId consensusIsUp reward a w1 w3.
Proof.
  unfold member_settled, untouched. intros Hs Ha H [Hn Hb].
  rewrite Hn, Hb by congruence. exact H.
Qed.

Lemma settle_all_effect nodes :
  forall w w',
    NoDup nodes -> ~ In (self w) nodes ->
    settle_all _requestId consensusIsUp reward nodes w = Ok w' ->
    (forall a, ~ In a nodes -> untouched a w w') /\
    (forall a, In a nodes ->
       if MonitoringResult.isSubmitted (monitoringResults w _requestId a)
       then member_settled _requestId consensusIsUp reward a w w'
       else untouched a w w') /\
    events w' =
      events w ++
      map (settlement_event _requestId consensusIsUp reward w)
        (filter (fun a =>
                   MonitoringResult.isSubmitted (monitoringResults w _requestId a))
           nodes).
Proof.
  induction nodes as [|n rest IH]; intros w w' Hnd Hself H.
  - injection H as <-. simpl. rewrite app_nil_r.
    split_all; [now split | contradiction | reflexivity].
  - cbn [settle_all] in H. apply bind_ok in H as (w1 & H1 & H).
    apply NoDup_cons_iff in Hnd as [Hn Hnd].
    assert (Hns : n <> self w) by (intros E; apply Hself; left; congruence).
    assert (Hrs : ~ In (self w) rest) by (intros E; apply Hself; now right).
    pose proof (settle_one_frame _ _ _ _ _ H1) as (Hres & _ & _ & _ & _ & _ & Hs1 & _).
    apply settle_one_effect in H1 as [Hoth H1]; [|assumption].
    rewrite <- Hs1 in Hrs.
    destruct (IH w1 w' Hnd Hrs H) as (IH1 & IH2 & IH3). clear IH.
    rewrite Hs1 in Hrs. split_all.
    + intros a Ha. apply untouched_trans with (w2 := w1); [assumption| |].
      * apply Hoth. intros E. apply Ha. now left.
      * apply IH1. intros E. apply Ha. now right.
    + intros a [<- | Ha].
      * specialize (IH1 n Hn).
        destruct (MonitoringResult.isSubmitted _).
        -- destruct H1 as [H1 _].
           now apply member_settled_after with (w2 := w1).
        -- now subst w1.
      * assert (Han : a <> n) by (intros E; now subst a).
        assert (Has : a <> self w) by (intros E; apply Hrs; now rewrite <- E).
        specialize (IH2 a Ha). rewrite Hres in IH2.
        destruct (MonitoringResult.isSubmitted (monitoringResults w _requestId a)).
        -- apply member_settled_before with (w2 := w1); auto.
        -- apply untouched_trans with (w2 := w1); auto.
    + rewrite IH3, Hres. cbn [filter].
      replace (settlement_event _requestId consensusIsUp reward w1)
        with (settlement_event _requestId consensusIsUp reward w)
        by (unfold settlement_event; now rewrite Hres).
      destruct (MonitoringResult.isSubmitted (monitoringResults w _requestId n)).
      * destruct H1 as [_ ->]. now rewrite <- app_assoc.
      * now subst w1.
Qed.

End Settlement.

(** [_distributeRewards] on the reward asset, for a committee without
    duplicates that does not contain the monitor: what it does to a member
    that has submitted, and the events it logs, one per such member. *)
Lemma _distributeRewards_effect :
  forall (w w' : world RewardToken) _requestId consensusIsUp,
    NoDup (requestNodes w _requestId) ->
    ~ In (self w) (requestNodes w _requestId) ->
    _distributeRewards _requestId consensusIsUp w = Ok w' ->
    let reward := MonitoringRequest.reward (monitoringRequests w _requestId) in
    let voted a := MonitoringResult.isSubmitted (monitoringResults w _requestId a) in
    let agrees a :=
      Bool.eqb (MonitoringResult.isUp (monitoringResults w _requestId a))
        consensusIsUp in
    (forall a,
        In a (requestNodes w _requestId) -> voted a = true ->
        let n := monitoringNodes w a in
        let n' := monitoringNodes w' a in
        (agrees a = true ->
         MonitoringNode.successfulChecks n' = MonitoringNode.successfulChecks n + 1 /\
         MonitoringNode.reputation n' = MonitoringNode.reputation n + 1 /\
         balanceOf RewardToken (token w') a
         = balanceOf RewardToken (token w) a + reward) /\
        (agrees a = false ->
         MonitoringNode.successfulChecks n' = MonitoringNode.successfulChecks n /\
         MonitoringNode.reputation n' =
           (if 1 <? MonitoringNode.reputation n
            then MonitoringNode.reputation n - 1 else MonitoringNode.reputation n) /\
         (1 <= MonitoringNode.reputation n ->
          MonitoringNode.reputation n' = N.max 1 (MonitoringNode.reputation n - 1)) /\
         balanceOf RewardToken (token w') a = balanceOf RewardToken (token w) a)) /\
    events w' =
      events w ++
      map (fun a => if agrees a then RewardDistributed a reward else PenaltyApplied a 0)
        (filter voted (requestNodes w _requestId)).
Proof.
  intros w w' _requestId consensusIsUp Hnd Hself H reward voted agrees.
  unfold _distributeRewards in H.
  apply settle_all_effect in H as (_ & Hm & Hev); try assumption.
  split; [|exact Hev].
  intros a Ha Hv n n'. specialize (Hm a Ha). unfold voted in Hv. rewrite Hv in Hm.
  unfold member_settled in Hm. fold reward n n' (agrees a) in Hm.
  destruct (agrees a); split; intros E; try discriminate.
  - exact Hm.
  - destruct Hm as (Hsc & Hrep & Hbal). split_all; try assumption.
    intros Hone. rewrite Hrep.
    destruct (1 <? MonitoringNode.reputation n) eqn:Hlt; to_props; lia.
Qed.

(** ** What each call leaves alone *)

Section Frames.

Variable tok : IERC20.
Implicit Types w : world tok.

Lemma standing_kept_refl w : standing_kept w w.
Proof. intros a. auto. Qed.

Lemma standing_kept_trans w1 w2 w3 :
  standing_kept w1 w2 -> standing_kept w2 w3 -> standing_kept w1 w3.
Proof.
  intros H12 H23 a. destruct (H12 a) as [E1 R1]. destruct (H23 a) as [E2 R2].
  split; [congruence | auto].
Qed.

Lemma settle_one_standing _requestId c reward n w w' :
  settle_one _requestId c reward n w = Ok w' -> standing_kept w w'.
Proof.
  unfold settle_one, bind, call_token. intros H.
  step_ok H; subst; try apply standing_kept_refl;
    intros x; simpl; unfold upd; destruct (x =? n) eqn:E;
    try rewrite N.eqb_refl; simpl; auto; to_props; subst;
    repeat match goal with
           | Hc : add_chk _ _ = Ok _ |- _ => apply add_chk_ok in Hc
           | Hc : sub_chk _ _ = Ok _ |- _ => apply sub_chk_ok in Hc as [? ?]
           end;
    subst; simpl in *; split; try reflexivity; intros; lia.
Qed.

Lemma settle_all_standing _requestId c reward nodes :
  forall w w',
    settle_all _requestId c reward nodes w = Ok w' -> standing_kept w w'.
Proof.
  induction nodes as [|n rest IH]; simpl; intros w w' H.
  - injection H as <-. apply standing_kept_refl.
  - apply bind_ok in H as (w1 & H1 & H).
    eapply standing_kept_trans; [eapply settle_one_standing | eapply IH]; eauto.
Qed.

Lemma _checkConsensus_frame _requestId e w w' :
  _checkConsensus _requestId e w = Ok w' ->
  monitoringResults w' = monitoringResults w /\
  requestNodes w' = requestNodes w /\
  _nextRequestId w' = _nextRequestId w /\
  activeNodes w' = activeNodes w /\
  self w' = self w /\
  standing_kept w w'.
Proof.
  unfold _checkConsensus, _distributeRewards. intros H.
  apply bind_ok in H as ([[sc uc] tot] & _ & H).
  destruct (sc =? _);
    [|injection H as <-; split_all; auto using standing_kept_refl].
  apply bind_ok in H as (lhs & _ & H). apply bind_ok in H as (rhs & _ & H).
  apply bind_ok in H as (w1 & Hd & H). injection H as <-.
  pose proof (settle_all_standing _ _ _ _ _ Hd) as Hst.
  apply settle_all_frame in Hd. destruct Hd as (? & ? & _ & ? & _ & ? & ? & _).
  split_all; auto.
Qed.

Lemma submitMonitoringResult_frame _requestId up rt e w w' :
  submitMonitoringResult _requestId up rt e w = Ok w' ->
  requestNodes w' = requestNodes w /\
  _nextRequestId w' = _nextRequestId w /\
  activeNodes w' = activeNodes w /\
  self w' = self w /\
  standing_kept w w' /\
  forall i a,
    MonitoringResult.isSubmitted (monitoringResults w i a) = true ->
    MonitoringResult.isSubmitted (monitoringResults w' i a) = true.
Proof.
  unfold submitMonitoringResult, bind. intros H. step_ok H.
  apply _checkConsensus_frame in H as (Hr & Hn & Hi & Ha & Hs & Hst).
  simpl in Hr, Hn, Hi, Ha, Hs.
  split_all; try assumption.
  - refine (standing_kept_trans _ Hst).
    intros x. simpl. unfold upd. destruct (x =? msg_sender e) eqn:E; [|auto].
    to_props. subst x. auto.
  - intros i x Hsub. rewrite Hr. unfold upd.
    destruct (i =? _requestId) eqn:Ei; [|assumption].
    destruct (x =? msg_sender e) eqn:Ex; [reflexivity|].
    to_props. now subst i.
Qed.

Lemma exec_bookkeeping c e w w' :
  bookkeeping_call c = true ->
  exec c e w = Ok w' ->
  monitoringResults w' = monitoringResults w /\
  requestNodes w' = requestNodes w /\
  _nextRequestId w' = _nextRequestId w /\
  activeNodes w' = activeNodes w /\
  self w' = self w /\
  standing_kept w w'.
Proof.
  destruct c; try discriminate; intros _; cbn [exec];
    unfold addStake, deactivateMonitoringRequest,
      setMinimumStake, setConsensusThreshold, pause, unpause, emergencyWithdraw,
      transferOwnership, renounceOwnership, bind, call_token;
    intros H; step_ok H; subst w'; simpl; split_all;
    try reflexivity;
    intros x; simpl; unfold upd; try destruct (x =? msg_sender e) eqn:E;
    to_props; subst; simpl; auto.
Qed.

Lemma registerNode_frame e w w' :
  registerNode e w = Ok w' ->
  monitoringResults w' = monitoringResults w /\
  requestNodes w' = requestNodes w /\
  _nextRequestId w' = _nextRequestId w /\
  self w' = self w /\
  MonitoringNode.isActive (monitoringNodes w (msg_sender e)) = false /\
  activeNodes w' = activeNodes w ++ [msg_sender e] /\
  monitoringNodes w' =
    upd (monitoringNodes w) (msg_sender e)
      (MonitoringNode.mk (msg_sender e) (minimumStake w) 100 0 0 true
         (block_timestamp e)).
Proof.
  unfold registerNode, bind, call_token. intros H. step_ok H. subst w'.
  to_props. simpl. split_all; auto.
Qed.

Lemma unregisterNode_frame e w w' :
  unregisterNode e w = Ok w' ->
  monitoringResults w' = monitoringResults w /\
  requestNodes w' = requestNodes w /\
  _nextRequestId w' = _nextRequestId w /\
  self w' = self w /\
  activeNodes w' = swap_pop (msg_sender e) (activeNodes w) /\
  (forall a, a <> msg_sender e -> monitoringNodes w' a = monitoringNodes w a) /\
  (forall a, MonitoringNode.reputation (monitoringNodes w' a)
             = MonitoringNode.reputation (monitoringNodes w a)).
Proof.
  unfold unregisterNode, bind, call_token. intros H. step_ok H. subst w'.
  simpl. split_all; auto.
  - intros a Ha. now rewrite !upd_other.
  - intros a. unfold upd. destruct (a =? msg_sender e) eqn:E; [|reflexivity].
    to_props. subst a. now rewrite N.eqb_refl.
Qed.

(** The assignment loop. *)
Lemma assign_all_spec _requestId nodes :
  forall w,
    let w' := fold_left (fun w a => assign_one _requestId a w) nodes w in
    (forall j, requestNodes w' j =
               if j =? _requestId then requestNodes w _requestId ++ nodes
               else requestNodes w j) /\
    monitoringResults w' = monitoringResults w /\
    _nextRequestId w' = _nextRequestId w /\
    activeNodes w' = activeNodes w /\
    monitoringNodes w' = monitoringNodes w /\
    self w' = self w.
Proof.
  induction nodes as [|n rest IH]; intros w; cbn [fold_left]; cbv zeta.
  - split_all; try reflexivity. intros j.
    destruct (j =? _requestId) eqn:E; [|reflexivity].
    to_props. subst j. now rewrite app_nil_r.
  - destruct (IH (assign_one _requestId n w)) as (Hn & Hr & Hi & Ha & Hm & Hs).
    split_all; try (etransitivity; [eassumption | reflexivity]).
    intros j. rewrite Hn. simpl. unfold upd. rewrite N.eqb_refl.
    destruct (j =? _requestId); [|reflexivity].
    now rewrite <- app_assoc.
Qed.

Lemma nodesToAssign_min w :
  nodesToAssign w = Nat.min 3 (List.length (activeNodes w)).
Proof.
  unfold nodesToAssign.
  destruct (3 <=? List.length (activeNodes w))%nat eqn:E.
  - apply Nat.leb_le in E. lia.
  - apply Nat.leb_gt in E. lia.
Qed.

Lemma createMonitoringRequest_spec u i t r e w requestId w' :
  createMonitoringRequest u i t r e w = Ok (requestId, w') ->
  requestId = _nextRequestId w /\
  _nextRequestId w' = requestId + 1 /\
  activeNodes w <> [] /\
  monitoringResults w' = monitoringResults w /\
  activeNodes w' = activeNodes w /\
  monitoringNodes w' = monitoringNodes w /\
  self w' = self w /\
  forall j, requestNodes w' j =
            if j =? requestId
            then requestNodes w requestId
                 ++ firstn (Nat.min 3 (List.length (activeNodes w))) (activeNodes w)
            else requestNodes w j.
Proof.
  unfold createMonitoringRequest, _assignNodesToRequest. intros H.
  destruct (negb (_paused w)); [|discriminate].
  destruct (0 <? String.length u)%nat; [|discriminate].
  destruct (60 <=? i); [|discriminate].
  destruct (t <=? maxResponseTime w); [|discriminate].
  destruct (0 <? r); [|discriminate].
  apply bind_ok in H as (next & Hnext & H). apply add_chk_ok in Hnext.
  apply bind_ok in H as (w1 & H1 & H). injection H as <- <-.
  match type of H1 with
  | (if (0 <? nodesToAssign ?w0)%nat then _ else _) = _ =>
      destruct (0 <? nodesToAssign w0)%nat eqn:Hk in H1; [|discriminate];
      change (nodesToAssign w0) with (nodesToAssign w) in *;
      change (activeNodes w0) with (activeNodes w) in *;
      injection H1 as <-;
      destruct (assign_all_spec (_nextRequestId w)
                  (firstn (nodesToAssign w) (activeNodes w)) w0)
        as (Hn & Hr & Hi & Ha & Hm & Hs)
  end.
  cbv zeta in Hn, Hr, Hi, Ha, Hm, Hs. simpl in Hr, Hi, Ha, Hm, Hs.
  split_all; try assumption; try reflexivity.
  - simpl. rewrite Hi. assumption.
  - apply Nat.ltb_lt in Hk. rewrite nodesToAssign_min in Hk.
    destruct (activeNodes w); [simpl in Hk; lia | discriminate].
  - intros j. simpl. rewrite Hn. simpl. now rewrite nodesToAssign_min.
Qed.

Lemma exec_self c e w w' : exec c e w = Ok w' -> self w' = self w.
Proof.
  intros H. destruct c;
    try (apply exec_bookkeeping in H as (_ & _ & _ & _ & Hs & _);
         [exact Hs | reflexivity]).
  - apply registerNode_frame in H as (_ & _ & _ & Hs & _). exact Hs.
  - apply unregisterNode_frame in H as (_ & _ & _ & Hs & _). exact Hs.
  - cbn [exec] in H. apply bind_ok in H as ([requestId w1] & H & Hw).
    injection Hw as <-.
    apply createMonitoringRequest_spec in H as (_ & _ & _ & _ & _ & _ & Hs & _).
    exact Hs.
  - apply submitMonitoringResult_frame in H as (_ & _ & _ & Hs & _). exact Hs.
Qed.

Lemma transact_self c e w : self (transact c e w) = self w.
Proof.
  unfold transact. destruct (exec c e w) eqn:H; [|reflexivity].
  now apply exec_self in H.
Qed.

(** The results, committees and request ids after a call other than
    [createMonitoringRequest] and [submitMonitoringResult]. *)
Lemma exec_frame c e w w' :
  exec c e w = Ok w' ->
  match c with
  | CreateMonitoringRequest _ _ _ _ | SubmitMonitoringResult _ _ _ => True
  | _ =>
      monitoringResults w' = monitoringResults w /\
      requestNodes w' = requestNodes w /\
      _nextRequestId w' = _nextRequestId w
  end.
Proof.
  intros H. destruct c; trivial;
    try (apply exec_bookkeeping in H as (? & ? & ? & _); [auto | reflexivity]).
  - apply registerNode_frame in H as (? & ? & ? & _). auto.
  - apply unregisterNode_frame in H as (? & ? & ? & _). auto.
Qed.

Lemma evolves_run (txs : list (env * call)) :
  forall w0 w,
    Forall (fun tx => msg_sender (fst tx) <> self w) txs ->
    evolves w0 w -> evolves w0 (run txs w).
Proof.
  induction txs as [|[e c] rest IH]; intros w0 w Hs H; [exact H|].
  apply Forall_cons_iff in Hs as [He Hs]. cbn [run fold_left fst snd].
  apply IH.
  - now rewrite transact_self.
  - now apply evolves_transact.
Qed.

End Frames.

(** ** Swap-and-pop removal *)

Lemma last_first_perm (y : N) (tl : list N) :
  tl <> [] -> Permutation (last tl y :: removelast tl) tl.
Proof.
  intros H. rewrite (app_removelast_last y H) at 3.
  apply Permutation_cons_append.
Qed.

Lemma swap_pop_perm a l : In a l -> Permutation (a :: swap_pop a l) l.
Proof.
  induction l as [|y tl IH]; intros Hin; [contradiction|].
  cbn [swap_pop]. destruct (y =? a) eqn:E; to_props.
  - subst y. apply perm_skip. destruct tl as [|z tl']; [reflexivity|].
    apply last_first_perm. discriminate.
  - destruct Hin as [->|Hin]; [congruence|].
    rewrite perm_swap. apply perm_skip. now apply IH.
Qed.

Lemma swap_pop_absent a l : ~ In a l -> swap_pop a l = l.
Proof.
  induction l as [|y tl IH]; intros Hin; [reflexivity|].
  cbn [swap_pop]. destruct (y =? a) eqn:E; to_props.
  - exfalso. apply Hin. now left.
  - f_equal. apply IH. intros H. apply Hin. now right.
Qed.

Lemma swap_pop_NoDup a l :
  NoDup l ->
  NoDup (swap_pop a l) /\ ~ In a (swap_pop a l) /\
  forall x, In x (swap_pop a l) -> In x l.
Proof.
  intros Hnd. destruct (in_dec N.eq_dec a l) as [Hin|Hin].
  - pose proof (swap_pop_perm _ _ Hin) as Hp.
    apply Permutation_sym in Hp as Hp'.
    apply (Permutation_NoDup Hp') in Hnd. apply NoDup_cons_iff in Hnd as [Ha Hnd].
    split_all; try assumption.
    intros x Hx. apply (Permutation_in _ Hp). now right.
  - rewrite (swap_pop_absent _ _ Hin). split_all; auto.
Qed.

Lemma firstn_NoDup (k : nat) (l : list N) :
  NoDup l -> NoDup (firstn k l) /\ forall x, In x (firstn k l) -> In x l.
Proof.
  intros Hnd. rewrite <- (firstn_skipn k l) in Hnd at 1. split.
  - now apply NoDup_app_remove_r in Hnd.
  - intros x Hx. rewrite <- (firstn_skipn k l). apply in_or_app. now left.
Qed.

(** ** Invariants of the reachable worlds *)

Section Invariants.

Variable tok : IERC20.
Implicit Types w : world tok.

Lemma committees_inv_exec c e w w' :
  committees_inv w -> exec c e w = Ok w' -> committees_inv w'.
Proof.
  intros [Hfresh Hfull] H.
  assert (Hsame : requestNodes w' = requestNodes w ->
                  _nextRequestId w' = _nextRequestId w -> committees_inv w').
  { intros Hn Hi. unfold committees_inv. rewrite Hn, Hi. now split. }
  destruct c;
    try (apply exec_frame in H as (_ & Hn & Hi); now apply Hsame).
  - cbn [exec] in H. apply bind_ok in H as ([requestId w1] & H & Hw).
    injection Hw as <-.
    apply createMonitoringRequest_spec in H as (-> & Hi & Hact & _ & _ & _ & _ & Hn).
    cbn [snd]. split; intros j Hj; rewrite Hn.
    + destruct (j =? _nextRequestId w) eqn:E; to_props; [lia|].
      apply Hfresh. lia.
    + destruct (j =? _nextRequestId w) eqn:E; to_props.
      * rewrite Hfresh by lia. simpl.
        destruct (activeNodes w) as [|a rest]; [congruence|].
        simpl. discriminate.
      * apply Hfull. lia.
  - cbn [exec] in H. apply submitMonitoringResult_frame in H as (Hn & Hi & _).
    now apply Hsame.
Qed.

Lemma committees_inv_evolves w w' :
  evolves w w' -> committees_inv w -> committees_inv w'.
Proof.
  induction 1 as [w | c e w w' _ IH | tk w w' _ IH]; intros Hinv.
  - assumption.
  - specialize (IH Hinv). unfold transact.
    destruct (exec c e w') eqn:E; [|assumption].
    exact (@committees_inv_exec c e w' _ IH E).
  - exact (IH Hinv).
Qed.

Lemma committees_inv_reachable w : reachable w -> committees_inv w.
Proof.
  intros (deployer & this & tk & H).
  apply (committees_inv_evolves H). split; simpl; intros j Hj; [reflexivity | lia].
Qed.

Lemma good_node_kept w w' a :
  self w' = self w -> standing_kept w w' -> good_node w a -> good_node w' a.
Proof.
  unfold good_node. intros Hs Hst [Hrep Ha]. rewrite Hs. split; [|exact Ha].
  now apply Hst.
Qed.

Lemma registry_inv_same w w' :
  activeNodes w' = activeNodes w -> requestNodes w' = requestNodes w ->
  self w' = self w -> standing_kept w w' ->
  registry_inv w -> registry_inv w'.
Proof.
  intros Ha Hn Hs Hst (Hnd & Hact & Hcnd & Hcom).
  unfold registry_inv. rewrite Ha, Hn. split_all; try assumption.
  - intros a Hin. destruct (Hact a Hin) as [E Hg]. split.
    + destruct (Hst a) as [-> _]. exact E.
    + now apply (good_node_kept Hs Hst).
  - intros i a Hin. apply (good_node_kept Hs Hst). now apply (Hcom i).
Qed.

Lemma registry_inv_register e w w' :
  registry_inv w -> msg_sender e <> self w ->
  registerNode e w = Ok w' -> registry_inv w'.
Proof.
  intros (Hnd & Hact & Hcnd & Hcom) Hsender H.
  apply registerNode_frame in H as (_ & Hn & _ & Hs & Hoff & Ha & Hm).
  assert (Hnew : ~ In (msg_sender e) (activeNodes w)).
  { intros Hin. destruct (Hact _ Hin) as [E _]. congruence. }
  assert (Hgood : forall a, good_node w a -> good_node w' a).
  { unfold good_node. intros a [Hrep Hself]. rewrite Hs, Hm. split; [|exact Hself].
    unfold upd. destruct (a =? msg_sender e); [simpl; lia | exact Hrep]. }
  unfold registry_inv. rewrite Ha, Hn. split_all.
  - apply (Permutation_NoDup (Permutation_cons_append _ _)).
    now constructor.
  - intros a Hin. apply in_app_or in Hin as [Hin | [<- | []]].
    + destruct (Hact a Hin) as [E Hg]. split; [|now apply Hgood].
      rewrite Hm, upd_other; [exact E|]. intros ->. contradiction.
    + rewrite Hm, upd_same. split; [reflexivity|].
      unfold good_node. rewrite Hm, upd_same, Hs. simpl. split; [lia | exact Hsender].
  - exact Hcnd.
  - intros i a Hin. apply Hgood. now apply (Hcom i).
Qed.

Lemma registry_inv_unregister e w w' :
  registry_inv w -> unregisterNode e w = Ok w' -> registry_inv w'.
Proof.
  intros (Hnd & Hact & Hcnd & Hcom) H.
  apply unregisterNode_frame in H as (_ & Hn & _ & Hs & Ha & Hother & Hrep).
  assert (Hgood : forall a, good_node w a -> good_node w' a).
  { unfold good_node. intros a [Hr Hself]. now rewrite Hs, Hrep. }
  destruct (swap_pop_NoDup (msg_sender e) Hnd) as (Hnd' & Hgone & Hsub).
  unfold registry_inv. rewrite Ha, Hn. split_all; try assumption.
  - intros a Hin. destruct (Hact a (Hsub a Hin)) as [E Hg].
    split; [|now apply Hgood].
    rewrite Hother; [exact E|]. intros ->. contradiction.
  - intros i a Hin. apply Hgood. now apply (Hcom i).
Qed.

Lemma registry_inv_create u i t r e w requestId w' :
  registry_inv w -> committees_inv w ->
  createMonitoringRequest u i t r e w = Ok (requestId, w') -> registry_inv w'.
Proof.
  intros (Hnd & Hact & Hcnd & Hcom) [Hfresh _] H.
  apply createMonitoringRequest_spec in H
    as (-> & _ & _ & _ & Ha & Hm & Hs & Hn).
  assert (Hgood : forall a, good_node w a -> good_node w' a).
  { unfold good_node. intros a. now rewrite Hs, Hm. }
  destruct (firstn_NoDup (Nat.min 3 (List.length (activeNodes w))) Hnd)
    as [Hfnd Hfsub].
  unfold registry_inv. rewrite Ha. split_all; try assumption.
  - intros a Hin. destruct (Hact a Hin) as [E Hg].
    split; [now rewrite Hm | now apply Hgood].
  - intros j. rewrite Hn. destruct (j =? _nextRequestId w); [|apply Hcnd].
    rewrite Hfresh by lia. exact Hfnd.
  - intros j a. rewrite Hn. destruct (j =? _nextRequestId w).
    + rewrite Hfresh by lia. simpl. intros Hin. apply Hgood.
      now apply (Hact a), Hfsub.
    + intros Hin. apply Hgood. now apply (Hcom j).
Qed.

Lemma registry_inv_exec c e w w' :
  registry_inv w -> committees_inv w -> msg_sender e <> self w ->
  exec c e w = Ok w' -> registry_inv w'.
Proof.
  intros Hinv Hcom Hsender H.
  destruct c;
    try (apply exec_bookkeeping in H as (_ & Hn & _ & Ha & Hs & Hst);
         [now apply (registry_inv_same Ha Hn Hs Hst) | reflexivity]).
  - exact (@registry_inv_register e w w' Hinv Hsender H).
  - exact (@registry_inv_unregister e w w' Hinv H).
  - cbn [exec] in H. apply bind_ok in H as ([requestId w1] & H & Hw).
    injection Hw as <-. cbn [snd].
    exact (@registry_inv_create _ _ _ _ e w requestId w1 Hinv Hcom H).
  - apply submitMonitoringResult_frame in H as (Hn & _ & Ha & Hs & Hst & _).
    now apply (registry_inv_same Ha Hn Hs Hst).
Qed.

Lemma invariants_evolve w w' :
  evolves w w' ->
  committees_inv w /\ registry_inv w -> committees_inv w' /\ registry_inv w'.
Proof.
  induction 1 as [w | c e w w' _ IH Hsender | tk w w' _ IH]; intros Hinv.
  - assumption.
  - destruct (IH Hinv) as [Hc Hr]. unfold transact.
    destruct (exec c e w') eqn:E; [|now split].
    split; [exact (@committees_inv_exec c e w' _ Hc E)|].
    exact (@registry_inv_exec c e w' _ Hr Hc Hsender E).
  - exact (IH Hinv).
Qed.

Lemma registry_inv_reachable w : reachable w -> registry_inv w.
Proof.
  intros (deployer & this & tk & H).
  apply (invariants_evolve H). split.
  - split; simpl; intros j Hj; [reflexivity | lia].
  - unfold registry_inv. simpl. split_all; try constructor; contradiction.
Qed.

Lemma submitted_stays_exec c e w w' i a :
  exec c e w = Ok w' ->
  MonitoringResult.isSubmitted (monitoringResults w i a) = true ->
  MonitoringResult.isSubmitted (monitoringResults w' i a) = true.
Proof.
  intros H Hs.
  destruct c;
    try (apply exec_frame in H as (Hr & _ & _); now rewrite Hr).
  - cbn [exec] in H. apply bind_ok in H as ([requestId w1] & H & Hw).
    injection Hw as <-.
    apply createMonitoringRequest_spec in H as (_ & _ & _ & Hr & _).
    cbn [snd]. now rewrite Hr.
  - cbn [exec] in H. apply submitMonitoringResult_frame in H as (_ & _ & H).
    now apply H.
Qed.

Lemma submitted_stays w w' i a :
  evolves w w' ->
  MonitoringResult.isSubmitted (monitoringResults w i a) = true ->
  MonitoringResult.isSubmitted (monitoringResults w' i a) = true.
Proof.
  induction 1 as [w | c e w w' _ IH | tk w w' _ IH]; intros Hs.
  - assumption.
  - specialize (IH Hs). unfold transact.
    destruct (exec c e w') eqn:E; [|assumption].
    exact (@submitted_stays_exec c e w' _ i a E IH).
  - exact (IH Hs).
Qed.

Lemma submitMonitoringResult_records _requestId up rt e w w' :
  submitMonitoringResult _requestId up rt e w = Ok w' ->
  MonitoringResult.isSubmitted (monitoringResults w' _requestId (msg_sender e)) = true.
Proof.
  intros H. apply submitMonitoringResult_spec in H as (Hr & _).
  rewrite Hr. now rewrite !upd_same.
Qed.

Lemma submitMonitoringResult_duplicate _requestId up rt e w :
  MonitoringResult.isSubmitted (monitoringResults w _requestId (msg_sender e)) = true ->
  exists reason,
    submitMonitoringResult _requestId up rt e w = Revert reason /\
    (onlyRegisteredNode e w = true ->
     validRequest_id _requestId w = true ->
     validRequest_active _requestId w = true ->
     reason = "Result already submitted"%string).
Proof.
  intros Hs. unfold submitMonitoringResult. rewrite Hs. simpl.
  destruct (onlyRegisteredNode e w);
    [|eexists; split; [reflexivity | discriminate]].
  destruct (validRequest_id _requestId w);
    [|eexists; split; [reflexivity | discriminate]].
  destruct (validRequest_active _requestId w);
    [|eexists; split; [reflexivity | discriminate]].
  eexists; split; reflexivity.
Qed.

End Invariants.

Lemma fixture_registered_reachable : reachable (Fixture.registered Ledger.Reverts).
Proof.
  exists Fixture.owner, Fixture.monitor, Fixture.funded.
  unfold Fixture.registered, Fixture.fresh. apply evolves_run.
  - vm_compute. repeat constructor; discriminate.
  - apply evolves_refl.
Qed.

Lemma fixture_request_created :
  createMonitoringRequest "https://example.com" 300 5000 (Fixture.ether 1)
    (Fixture.at_time Fixture.requester 20) (Fixture.registered Ledger.Reverts)
  = Ok (1, Fixture.requested Ledger.Reverts).
Proof. vm_compute. reflexivity. Qed.

(** C7.  In every reachable world: a [createMonitoringRequest] call that
    succeeds gives the new request the first [min 3 n] addresses of the [n]
    active nodes, in registry order, and that committee is not empty; when
    no node is active the call reverts and the transaction creates nothing;
    and every request id allocated so far has a committee with at least one
    member. *)
Theorem committee_assignment :
  forall (tok : IERC20) (w : world tok),
    reachable w ->
    (forall u i t r e requestId w',
        createMonitoringRequest u i t r e w = Ok (requestId, w') ->
        requestNodes w' requestId
        = firstn (Nat.min 3 (List.length (activeNodes w))) (activeNodes w) /\
        requestNodes w' requestId <> []) /\
    (activeNodes w = [] ->
     forall u i t r e,
       (exists reason, createMonitoringRequest u i t r e w = Revert reason) /\
       transact (CreateMonitoringRequest u i t r) e w = w) /\
    (forall requestId,
        0 < requestId < _nextRequestId w -> requestNodes w requestId <> []).
Proof.
  intros tok w Hreach.
  destruct (committees_inv_reachable Hreach) as [Hfresh Hfull].
  split_all.
  - intros u i t r e requestId w' H.
    apply createMonitoringRequest_spec in H as (-> & _ & Hact & _ & _ & _ & _ & Hn).
    rewrite Hn, N.eqb_refl, Hfresh by lia. simpl. split; [reflexivity|].
    destruct (activeNodes w); [congruence | discriminate].
  - intros Hnone u i t r e.
    assert (Hrev : exists reason,
               createMonitoringRequest u i t r e w = Revert reason).
    { destruct (createMonitoringRequest u i t r e w) as [[requestId w']|reason] eqn:H;
        [|eauto].
      apply createMonitoringRequest_spec in H as (_ & _ & Hact & _). contradiction. }
    split; [exact Hrev|]. destruct Hrev as (reason & Hrev).
    apply transact_revert with (reason := reason). cbn [exec]. now rewrite Hrev.
  - exact Hfull.
Qed.

Lemma committee_assignment_witness :
  requestNodes (Fixture.requested Ledger.Reverts) 1
  = firstn (Nat.min 3 (List.length (activeNodes (Fixture.registered Ledger.Reverts))))
      (activeNodes (Fixture.registered Ledger.Reverts)) /\
  requestNodes (Fixture.requested Ledger.Reverts) 1 <> [].
Proof.
  exact (proj1 (committee_assignment fixture_registered_reachable)
           _ _ _ _ _ _ _ fixture_request_created).
Defined.

Lemma fixture_first_vote :
  submitMonitoringResult 1 true 200 (Fixture.at_time Fixture.node1 30)
    (Fixture.requested Ledger.Reverts)
  = Ok (Fixture.one_vote Ledger.Reverts).
Proof. vm_compute. reflexivity. Qed.

Lemma fixture_settled_later :
  evolves (Fixture.one_vote Ledger.Reverts) (Fixture.settled Ledger.Reverts).
Proof.
  unfold Fixture.settled. apply evolves_transact.
  - unfold Fixture.two_votes. cbn [run fold_left fst snd]. apply evolves_transact.
    + unfold Fixture.one_vote. apply evolves_refl.
    + vm_compute. discriminate.
  - vm_compute. discriminate.
Qed.

(** C4.  Once a [submitMonitoringResult] call of an observer for a request
    id has succeeded, then, however the world moves on (further
    submissions, consensus and settlement, any other call, any token
    activity), every later [submitMonitoringResult] call of that observer
    for that id reverts, whatever vote it carries, and the transaction
    leaves the world unchanged.  While the observer is still registered and
    the request still valid and active, the reason is [Result already
    submitted]. *)
Theorem duplicate_submission_rejected :
  forall (tok : IERC20) (w0 w1 w : world tok) _requestId up rt e,
    submitMonitoringResult _requestId up rt e w0 = Ok w1 ->
    evolves w1 w ->
    forall up' rt' e',
      msg_sender e' = msg_sender e ->
      (exists reason,
          submitMonitoringResult _requestId up' rt' e' w = Revert reason /\
          (onlyRegisteredNode e' w = true ->
           validRequest_id _requestId w = true ->
           validRequest_active _requestId w = true ->
           reason = "Result already submitted"%string)) /\
      transact (SubmitMonitoringResult _requestId up' rt') e' w = w.
Proof.
  intros tok w0 w1 w _requestId up rt e H Hev up' rt' e' He.
  apply submitMonitoringResult_records in H.
  apply (@submitted_stays _ w1 w _requestId (msg_sender e) Hev) in H.
  rewrite <- He in H.
  destruct (submitMonitoringResult_duplicate _requestId up' rt' e' _ H)
    as (reason & Hrev & Hreason).
  split; [eauto|].
  apply transact_revert with (reason := reason). exact Hrev.
Qed.

Lemma duplicate_submission_rejected_witness :
  let w := Fixture.settled Ledger.Reverts in
  let e' := Fixture.at_time Fixture.node1 40 in
  (exists reason,
      submitMonitoringResult 1 false 900 e' w = Revert reason /\
      (onlyRegisteredNode e' w = true ->
       validRequest_id 1 w = true ->
       validRequest_active 1 w = true ->
       reason = "Result already submitted"%string)) /\
  transact (SubmitMonitoringResult 1 false 900) e' w = w.
Proof.
  exact (@duplicate_submission_rejected _ _ _ _ 1 true 200
           (Fixture.at_time Fixture.node1 30) fixture_first_vote
           fixture_settled_later false 900 (Fixture.at_time Fixture.node1 40)
           eq_refl).
Defined.

(** ** Consensus does not depend on the order of submission *)

Lemma upCount_of_perm vals vals' :
  Permutation vals vals' -> upCount_of vals = upCount_of vals'.
Proof.
  induction 1 as [|v l l' _ IH|v v' l|l l' l'' _ IH1 _ IH2].
  - reflexivity.
  - now rewrite !upCount_of_cons, IH.
  - rewrite !upCount_of_cons. lia.
  - congruence.
Qed.

Lemma totalResponseTime_of_perm vals vals' :
  Permutation vals vals' -> totalResponseTime_of vals = totalResponseTime_of vals'.
Proof.
  unfold totalResponseTime_of.
  induction 1 as [|v l l' _ IH|v v' l|l l' l'' _ IH1 _ IH2]; simpl.
  - reflexivity.
  - now rewrite IH.
  - lia.
  - congruence.
Qed.

Lemma consensus_of_perm threshold vals vals' :
  Permutation vals vals' ->
  consensusIsUp_of threshold vals = consensusIsUp_of threshold vals' /\
  averageResponseTime_of vals = averageResponseTime_of vals'.
Proof.
  intros H. unfold consensusIsUp_of, averageResponseTime_of.
  now rewrite (Permutation_length H), (upCount_of_perm H),
    (totalResponseTime_of_perm H).
Qed.

Lemma submitted_values_upd_absent results a r nodes :
  ~ In a nodes ->
  submitted_values (upd results a r) nodes = submitted_values results nodes.
Proof.
  unfold submitted_values.
  induction nodes as [|n rest IH]; intros Ha; [reflexivity|].
  assert (Hn : n <> a) by (intros E; apply Ha; now left).
  cbn [filter]. rewrite (upd_other _ _ Hn).
  destruct (MonitoringResult.isSubmitted (results n)); cbn [map];
    rewrite ?(upd_other _ _ Hn), IH; try reflexivity;
    intros E; apply Ha; now right.
Qed.

Lemma submitted_values_upd results a r nodes :
  NoDup nodes -> In a nodes ->
  MonitoringResult.isSubmitted (results a) = false ->
  MonitoringResult.isSubmitted r = true ->
  Permutation (submitted_values (upd results a r) nodes)
    ((MonitoringResult.isUp r, MonitoringResult.responseTime r)
       :: submitted_values results nodes).
Proof.
  intros Hnd Hin Hold Hnew.
  induction nodes as [|n rest IH]; [contradiction|].
  apply NoDup_cons_iff in Hnd as [Hn Hnd].
  destruct (N.eq_dec n a) as [->|Hna].
  - unfold submitted_values at 1 2. cbn [filter].
    rewrite upd_same, Hnew, Hold. cbn [map]. rewrite upd_same.
    fold (submitted_values (upd results a r) rest).
    fold (submitted_values results rest).
    now rewrite submitted_values_upd_absent.
  - destruct Hin as [E|Hin]; [contradiction|].
    specialize (IH Hnd Hin).
    unfold submitted_values at 1 2. cbn [filter]. rewrite (upd_other _ _ Hna).
    fold (submitted_values (upd results a r) rest) in *.
    destruct (MonitoringResult.isSubmitted (results n)) eqn:Hs.
    + cbn [map]. rewrite (upd_other _ _ Hna).
      fold (submitted_values (upd results a r) rest).
      fold (submitted_values results rest).
      rewrite IH. apply perm_swap.
    + fold (submitted_values results rest). exact IH.
Qed.

Section SubmissionOrder.

Variable tok : IERC20.
Implicit Types w : world tok.

Lemma submit_step _requestId up rt e w w' :
  submitMonitoringResult _requestId up rt e w = Ok w' ->
  NoDup (requestNodes w _requestId) ->
  requestNodes w' = requestNodes w /\
  consensusThreshold w' = consensusThreshold w /\
  Permutation (submissions _requestId w') ((up, rt) :: submissions _requestId w) /\
  consensus_events w' =
    consensus_events w ++
    if (List.length (submissions _requestId w')
        =? List.length (requestNodes w _requestId))%nat
    then [ConsensusReached _requestId
            (consensusIsUp_of (consensusThreshold w) (submissions _requestId w'))
            (averageResponseTime_of (submissions _requestId w'))]
    else [].
Proof.
  intros H Hnd.
  pose proof (submitMonitoringResult_inv _ _ _ _ _ H) as (_ & _ & _ & Hold & Hin & _).
  apply submitMonitoringResult_spec in H. cbv zeta in H.
  destruct H as (Hres & Hnodes & Hthr & Hev).
  rewrite Hnodes, Hthr in Hev. split_all; try assumption.
  unfold submissions. rewrite Hres, Hnodes, upd_same.
  unfold _isNodeAssignedToRequest in Hin.
  apply existsb_exists in Hin as (n & Hn & En). apply N.eqb_eq in En. subst n.
  exact (submitted_values_upd _ _
           (MonitoringResult.mk (msg_sender e) up rt (block_timestamp e) true)
           Hnd Hn Hold eq_refl).
Qed.

Lemma submit_all_spec _requestId subs :
  forall w w',
    submit_all _requestId subs w = Ok w' ->
    NoDup (requestNodes w _requestId) ->
    (List.length (submissions _requestId w) + List.length subs
     = List.length (requestNodes w _requestId))%nat ->
    subs <> [] ->
    Permutation (submissions _requestId w')
      (map snd subs ++ submissions _requestId w) /\
    consensus_events w' =
      consensus_events w ++
      [ConsensusReached _requestId
         (consensusIsUp_of (consensusThreshold w) (submissions _requestId w'))
         (averageResponseTime_of (submissions _requestId w'))].
Proof.
  induction subs as [|[e [up rt]] rest IH]; intros w w' H Hnd Hlen Hne;
    [congruence|].
  cbn [submit_all] in H. apply bind_ok in H as (w1 & H1 & H).
  apply submit_step in H1 as (Hnodes & Hthr & Hperm & Hev); [|assumption].
  pose proof (Permutation_length Hperm) as Hcount. cbn [Datatypes.length] in Hcount, Hlen.
  destruct rest as [|s rest'].
  - injection H as <-. cbn [map app]. split; [exact Hperm|].
    cbn [Datatypes.length] in Hlen. rewrite Hev.
    replace (List.length (submissions _requestId w1)
             =? List.length (requestNodes w _requestId))%nat with true
      by (symmetry; apply Nat.eqb_eq; lia).
    reflexivity.
  - apply IH in H as (Hperm' & Hev');
      [|now rewrite Hnodes|rewrite Hnodes; cbn [Datatypes.length] in *; lia|discriminate].
    split.
    + rewrite Hperm', Hperm. cbn [map]. rewrite <- Permutation_middle.
      apply Permutation_refl.
    + rewrite Hev', Hev, Hthr.
      replace (List.length (submissions _requestId w1)
               =? List.length (requestNodes w _requestId))%nat with false
        by (symmetry; apply Nat.eqb_neq; cbn [Datatypes.length] in *; lia).
      now rewrite app_nil_r.
Qed.

End SubmissionOrder.

Lemma fixture_votes_in_order :
  submit_all 1 Fixture.votes_in_order (Fixture.requested Ledger.Reverts)
  = Ok (Fixture.all_submitted Ledger.Reverts Fixture.votes_in_order).
Proof. vm_compute. reflexivity. Qed.

Lemma fixture_votes_reordered :
  submit_all 1 Fixture.votes_reordered (Fixture.requested Ledger.Reverts)
  = Ok (Fixture.all_submitted Ledger.Reverts Fixture.votes_reordered).
Proof. vm_compute. reflexivity. Qed.

Lemma fixture_requested_reachable : reachable (Fixture.requested Ledger.Reverts).
Proof.
  exists Fixture.owner, Fixture.monitor, Fixture.funded.
  unfold Fixture.requested. apply evolves_transact; [|vm_compute; discriminate].
  unfold Fixture.registered, Fixture.fresh.
  apply evolves_run; [vm_compute; repeat constructor; discriminate|].
  apply evolves_refl.
Qed.

Lemma fixture_request_open :
  let w := Fixture.requested Ledger.Reverts in
  validRequest_id 1 w = true /\ submissions 1 w = [] /\
  List.length Fixture.votes_in_order = List.length (requestNodes w 1).
Proof. vm_compute. split_all; reflexivity. Qed.

(** C5.  The consensus flag and the average response time are functions of
    the threshold and of the multiset of submitted [(isUp, responseTime)]
    values: they are the same for two lists of values that are permutations
    of each other.  On the contract: take, in a reachable world, a request
    whose committee has not voted yet, and two series of successful
    submissions, one per committee member, that carry the same votes in any
    two orders; each series logs exactly one [ConsensusReached] event, the
    same in both, carrying the flag and the average of the submitted values.
    And a successful submission logs a consensus event if and only if the
    number of results then recorded equals the committee size. *)
Theorem consensus_independent_of_order :
  (forall threshold vals vals',
      Permutation vals vals' ->
      consensusIsUp_of threshold vals = consensusIsUp_of threshold vals' /\
      averageResponseTime_of vals = averageResponseTime_of vals') /\
  (forall (tok : IERC20) (w w1 w2 : world tok) _requestId subs1 subs2,
      reachable w ->
      validRequest_id _requestId w = true ->
      submissions _requestId w = [] ->
      List.length subs1 = List.length (requestNodes w _requestId) ->
      Permutation (map snd subs1) (map snd subs2) ->
      submit_all _requestId subs1 w = Ok w1 ->
      submit_all _requestId subs2 w = Ok w2 ->
      let vals := map snd subs1 in
      let reached :=
        ConsensusReached _requestId
          (consensusIsUp_of (consensusThreshold w) vals)
          (averageResponseTime_of vals) in
      consensus_events w1 = consensus_events w ++ [reached] /\
      consensus_events w2 = consensus_events w ++ [reached]) /\
  (forall (tok : IERC20) (w w' : world tok) _requestId up rt e,
      submitMonitoringResult _requestId up rt e w = Ok w' ->
      consensus_events w' <> consensus_events w <->
      List.length (submissions _requestId w')
      = List.length (requestNodes w' _requestId)).
Proof.
  split_all.
  - intros threshold vals vals'. apply consensus_of_perm.
  - intros tok w w1 w2 _requestId subs1 subs2 Hreach Hid Hnone Hlen Hperm H1 H2
      vals reached.
    destruct (registry_inv_reachable Hreach) as (_ & _ & Hnd & _).
    specialize (Hnd _requestId).
    assert (Hne : requestNodes w _requestId <> []).
    { apply (committees_inv_reachable Hreach).
      unfold validRequest_id in Hid. to_props. lia. }
    assert (Hlen2 : List.length subs2 = List.length (requestNodes w _requestId)).
    { rewrite <- Hlen, <- (length_map snd subs2), <- (length_map snd subs1).
      symmetry. now apply Permutation_length. }
    assert (Hsubs : forall subs : list (env * (bool * uint256)),
               List.length subs = List.length (requestNodes w _requestId) ->
               subs <> []).
    { intros subs E ->. destruct (requestNodes w _requestId); [congruence|].
      discriminate. }
    apply submit_all_spec in H1 as (Hp1 & Hev1);
      [|assumption|rewrite Hnone; simpl; lia|auto].
    apply submit_all_spec in H2 as (Hp2 & Hev2);
      [|assumption|rewrite Hnone; simpl; lia|auto].
    rewrite Hnone, app_nil_r in Hp1, Hp2.
    assert (Hp2' : Permutation (submissions _requestId w2) vals).
    { rewrite Hp2. now apply Permutation_sym. }
    destruct (consensus_of_perm (consensusThreshold w) Hp1) as [E1 E1'].
    destruct (consensus_of_perm (consensusThreshold w) Hp2') as [E2 E2'].
    rewrite Hev1, Hev2, E1, E1', E2, E2'. split; reflexivity.
  - intros tok w w' _requestId up rt e H.
    apply submitMonitoringResult_spec in H. cbv zeta in H.
    destruct H as (_ & _ & _ & Hev). rewrite Hev.
    destruct (_ =? _)%nat eqn:E.
    + apply Nat.eqb_eq in E. split; [intros _; exact E|].
      intros _ Habs. apply (f_equal (@List.length Event)) in Habs.
      rewrite length_app in Habs. simpl in Habs. lia.
    + apply Nat.eqb_neq in E. rewrite app_nil_r. split; [congruence|].
      intros Habs. contradiction.
Qed.

Lemma consensus_independent_of_order_witness :
  let w := Fixture.requested Ledger.Reverts in
  let vals := map snd Fixture.votes_in_order in
  let reached :=
    ConsensusReached 1 (consensusIsUp_of (consensusThreshold w) vals)
      (averageResponseTime_of vals) in
  consensus_events (Fixture.all_submitted Ledger.Reverts Fixture.votes_in_order)
  = consensus_events w ++ [reached] /\
  consensus_events (Fixture.all_submitted Ledger.Reverts Fixture.votes_reordered)
  = consensus_events w ++ [reached].
Proof.
  exact (proj1 (proj2 consensus_independent_of_order) _ _ _ _ 1
           Fixture.votes_in_order Fixture.votes_reordered
           fixture_requested_reachable
           (proj1 fixture_request_open)
           (proj1 (proj2 fixture_request_open))
           (proj2 (proj2 fixture_request_open))
           (Permutation_app_comm [(true, 200); (true, 180)] [(false, 5000)])
           fixture_votes_in_order fixture_votes_reordered).
Defined.

(** ** Settlement, from the submission that completes the round *)

Lemma filter_all {A : Type} (f : A -> bool) (l : list A) :
  List.length (filter f l) = List.length l -> forall x, In x l -> f x = true.
Proof.
  induction l as [|y tl IH]; intros Hlen x Hin; [contradiction|].
  cbn [filter] in Hlen. pose proof (filter_length_le f tl) as Hle.
  destruct (f y) eqn:Hy; cbn [Datatypes.length] in Hlen; [|lia].
  destruct Hin as [<-|Hin]; [exact Hy|]. apply IH; [lia | exact Hin].
Qed.

Lemma filter_none {A : Type} (f : A -> bool) (l : list A) :
  (forall x, In x l -> f x = true) -> filter f l = l.
Proof.
  induction l as [|y tl IH]; intros H; [reflexivity|].
  cbn [filter]. rewrite (H y) by now left. f_equal. apply IH.
  intros x Hx. apply H. now right.
Qed.

Lemma submissions_length (tok : IERC20) (w : world tok) _requestId :
  List.length (submissions _requestId w)
  = List.length
      (filter (fun a => MonitoringResult.isSubmitted (monitoringResults w _requestId a))
         (requestNodes w _requestId)).
Proof. unfold submissions, submitted_values. apply length_map. Qed.

Lemma _checkConsensus_settles (tok : IERC20) (w w' : world tok) _requestId e :
  _checkConsensus _requestId e w = Ok w' ->
  List.length (submissions _requestId w) = List.length (requestNodes w _requestId) ->
  let c := consensusIsUp_of (consensusThreshold w) (submissions _requestId w) in
  let avg := averageResponseTime_of (submissions _requestId w) in
  exists w2,
    _distributeRewards _requestId c (emit (ConsensusReached _requestId c avg) w)
    = Ok w2 /\
    w' = update_request _requestId
           (MonitoringRequest.with_lastCheckedAt (block_timestamp e)) w2.
Proof.
  unfold _checkConsensus, submissions. intros H Hlen.
  apply bind_ok in H as ([[c u] t] & Ht & H).
  apply tally_spec in Ht as (Hc & Hu & Htot). simpl in Hc, Hu, Htot.
  set (vals := submitted_values _ _) in *. cbv zeta.
  replace (c =? N.of_nat (List.length (requestNodes w _requestId))) with true in H
    by (symmetry; apply N.eqb_eq; lia).
  apply bind_ok in H as (lhs & Hl & H). apply mul_chk_ok in Hl.
  apply bind_ok in H as (rhs & Hr & H). apply mul_chk_ok in Hr.
  apply bind_ok in H as (w2 & Hd & H). injection H as <-.
  exists w2. split; [|reflexivity].
  rewrite <- Hd. unfold consensusIsUp_of, averageResponseTime_of.
  rewrite average_guard. now subst.
Qed.

Lemma submitMonitoringResult_steps (tok : IERC20) (w w' : world tok)
  _requestId up rt e :
  submitMonitoringResult _requestId up rt e w = Ok w' ->
  exists tc,
    _checkConsensus _requestId e
      (emit (MonitoringResultSubmitted _requestId (msg_sender e) up rt)
         (update_node (msg_sender e) (MonitoringNode.with_totalChecks tc)
            (set_monitoringResults
               (upd (monitoringResults w) _requestId
                  (upd (monitoringResults w _requestId) (msg_sender e)
                     (MonitoringResult.mk (msg_sender e) up rt
                        (block_timestamp e) true))) w)))
    = Ok w'.
Proof.
  unfold submitMonitoringResult, bind. intros H. step_ok H. eexists. exact H.
Qed.

Lemma with_totalChecks_standing (tok : IERC20) (w : world tok) sender tc a :
  let n := monitoringNodes w a in
  let n1 := monitoringNodes
              (update_node sender (MonitoringNode.with_totalChecks tc) w) a in
  MonitoringNode.successfulChecks n1 = MonitoringNode.successfulChecks n /\
  MonitoringNode.reputation n1 = MonitoringNode.reputation n.
Proof.
  simpl. unfold upd. destruct (a =? sender) eqn:E; [|auto].
  to_props. subst a. auto.
Qed.

Lemma fixture_round_complete :
  List.length (submissions 1 (Fixture.settled Ledger.Reverts))
  = List.length (requestNodes (Fixture.two_votes Ledger.Reverts) 1).
Proof. vm_compute. reflexivity. Qed.

Lemma fixture_two_votes_reachable : reachable (Fixture.two_votes Ledger.Reverts).
Proof.
  exists Fixture.owner, Fixture.monitor, Fixture.funded.
  unfold Fixture.two_votes.
  apply evolves_run; [vm_compute; repeat constructor; discriminate|].
  unfold Fixture.requested. apply evolves_transact; [|vm_compute; discriminate].
  unfold Fixture.registered, Fixture.fresh.
  apply evolves_run; [vm_compute; repeat constructor; discriminate|].
  apply evolves_refl.
Qed.

(** C2.  Settlement on the reward asset, in a reachable world, when a
    submission completes the round (as many results recorded as the
    committee has members).  Every committee member whose recorded vote
    equals the consensus has [successfulChecks] and reputation incremented by
    exactly 1 (no cap is applied) and its token balance raised by the
    request's reward.  Every member whose vote differs keeps its
    [successfulChecks] and its balance, and its reputation goes down by 1
    but not below 1.  After the submission and consensus events the call
    logs one event per member, in committee order: [RewardDistributed] for
    an agreeing member, [PenaltyApplied] for a disagreeing one; no member
    gets both. *)
Theorem settlement_rewards_and_penalties :
  forall (w w' : world RewardToken) _requestId up rt e,
    reachable w ->
    submitMonitoringResult _requestId up rt e w = Ok w' ->
    List.length (submissions _requestId w')
    = List.length (requestNodes w _requestId) ->
    let consensusIsUp :=
      consensusIsUp_of (consensusThreshold w) (submissions _requestId w') in
    let reward := MonitoringRequest.reward (monitoringRequests w _requestId) in
    let agrees a :=
      Bool.eqb (MonitoringResult.isUp (monitoringResults w' _requestId a))
        consensusIsUp in
    (forall a,
        In a (requestNodes w _requestId) ->
        let n := monitoringNodes w a in
        let n' := monitoringNodes w' a in
        (agrees a = true ->
         MonitoringNode.successfulChecks n' = MonitoringNode.successfulChecks n + 1 /\
         MonitoringNode.reputation n' = MonitoringNode.reputation n + 1 /\
         balanceOf RewardToken (token w') a
         = balanceOf RewardToken (token w) a + reward) /\
        (agrees a = false ->
         MonitoringNode.successfulChecks n' = MonitoringNode.successfulChecks n /\
         MonitoringNode.reputation n' = N.max 1 (MonitoringNode.reputation n - 1) /\
         balanceOf RewardToken (token w') a = balanceOf RewardToken (token w) a)) /\
    events w' =
      events w ++
      MonitoringResultSubmitted _requestId (msg_sender e) up rt
      :: ConsensusReached _requestId consensusIsUp
           (averageResponseTime_of (submissions _requestId w'))
      :: map (fun a =>
                if agrees a then RewardDistributed a reward else PenaltyApplied a 0)
           (requestNodes w _requestId).
Proof.
  intros w w' _requestId up rt e Hreach H Hlen consensusIsUp reward agrees.
  destruct (registry_inv_reachable Hreach) as (_ & _ & Hcnd & Hcom).
  specialize (Hcnd _requestId).
  pose proof (submitMonitoringResult_spec _ _ _ _ _ H) as (Hres & Hnodes & Hthr & _).
  destruct (submitMonitoringResult_steps _ _ _ _ _ H) as (tc & Hc).
  match type of Hc with
  | _checkConsensus _ _ ?x = _ => set (w1 := x) in *
  end.
  assert (Hres1 : monitoringResults w1 = monitoringResults w') by (now rewrite Hres).
  assert (Hsub1 : submissions _requestId w1 = submissions _requestId w').
  { unfold submissions. now rewrite Hres1, Hnodes. }
  apply _checkConsensus_settles in Hc; [|now rewrite Hsub1, Hlen].
  cbv zeta in Hc. destruct Hc as (w2 & Hd & Hw').
  rewrite Hsub1 in Hd. change (consensusThreshold w1) with (consensusThreshold w) in Hd.
  fold consensusIsUp in Hd.
  unfold _distributeRewards in Hd.
  apply settle_all_effect in Hd as (_ & Hm & Hev);
    [|exact Hcnd| intros Habs; now destruct (Hcom _ _ Habs) as [_ Hne]].
  assert (Hvoted : forall a, In a (requestNodes w _requestId) ->
             MonitoringResult.isSubmitted (monitoringResults w' _requestId a) = true).
  { rewrite submissions_length, Hnodes in Hlen. exact (filter_all _ _ Hlen). }
  change (monitoringResults (emit _ w1)) with (monitoringResults w1) in Hm, Hev.
  rewrite Hres1 in Hm, Hev.
  change (requestNodes (emit _ w1) _requestId) with (requestNodes w _requestId)
    in Hm, Hev.
  change (MonitoringRequest.reward
            (monitoringRequests (emit (ConsensusReached _requestId consensusIsUp
               (averageResponseTime_of (submissions _requestId w'))) w1) _requestId))
    with reward in Hm, Hev.
  split.
  - intros a Hin n n'. destruct (Hcom _ _ Hin) as [Hrep _]. fold n in Hrep.
    specialize (Hm a Hin). rewrite (Hvoted a Hin) in Hm.
    unfold member_settled in Hm.
    change (monitoringResults (emit _ w1)) with (monitoringResults w1) in Hm.
    rewrite Hres1 in Hm. fold (agrees a) in Hm.
    change (token (emit _ w1)) with (token w) in Hm.
    change (monitoringNodes (emit _ w1) a)
      with (monitoringNodes
              (update_node (msg_sender e) (MonitoringNode.with_totalChecks tc) w) a)
      in Hm.
    destruct (with_totalChecks_standing w (msg_sender e) tc a) as [Esc Erep].
    cbv zeta in Esc, Erep. rewrite Esc, Erep in Hm. fold n in Hm.
    assert (En' : monitoringNodes w2 a = n') by (unfold n'; now rewrite Hw').
    assert (Et : token w2 = token w') by (now rewrite Hw').
    rewrite En', Et in Hm.
    destruct (agrees a); split; intros E; try discriminate; [exact Hm|].
    destruct Hm as (Hsc & Hr & Hbal). split_all; try assumption.
    rewrite Hr.
    destruct (1 <? MonitoringNode.reputation n) eqn:Hlt; to_props; lia.
  - rewrite (filter_none _ _ Hvoted) in Hev.
    replace (events w') with (events w2) by (now rewrite Hw').
    rewrite Hev.
    match goal with
    | |- events (emit ?cr w1) ++ _ = _ =>
        assert (Hev1 : events (emit cr w1)
                       = events w ++
                         [MonitoringResultSubmitted _requestId (msg_sender e) up rt; cr])
          by (unfold w1; simpl; now rewrite <- app_assoc)
    end.
    rewrite Hev1, <- app_assoc. cbn [app]. do 3 f_equal.
    apply map_ext. intros a. unfold settlement_event.
    change (monitoringResults (emit _ w1)) with (monitoringResults w1).
    now rewrite Hres1.
Qed.

Lemma settlement_rewards_and_penalties_witness :
  let w := Fixture.two_votes Ledger.Reverts in
  let w' := Fixture.settled Ledger.Reverts in
  let e := Fixture.at_time Fixture.node3 32 in
  let consensusIsUp := consensusIsUp_of (consensusThreshold w) (submissions 1 w') in
  let reward := MonitoringRequest.reward (monitoringRequests w 1) in
  let agrees a :=
    Bool.eqb (MonitoringResult.isUp (monitoringResults w' 1 a)) consensusIsUp in
  (forall a,
      In a (requestNodes w 1) ->
      let n := monitoringNodes w a in
      let n' := monitoringNodes w' a in
      (agrees a = true ->
       MonitoringNode.successfulChecks n' = MonitoringNode.successfulChecks n + 1 /\
       MonitoringNode.reputation n' = MonitoringNode.reputation n + 1 /\
       balanceOf RewardToken (token w') a
       = balanceOf RewardToken (token w) a + reward) /\
      (agrees a = false ->
       MonitoringNode.successfulChecks n' = MonitoringNode.successfulChecks n /\
       MonitoringNode.reputation n' = N.max 1 (MonitoringNode.reputation n - 1) /\
       balanceOf RewardToken (token w') a = balanceOf RewardToken (token w) a)) /\
  events w' =
    events w ++
    MonitoringResultSubmitted 1 (msg_sender e) false 5000
    :: ConsensusReached 1 consensusIsUp (averageResponseTime_of (submissions 1 w'))
    :: map (fun a =>
              if agrees a then RewardDistributed a reward else PenaltyApplied a 0)
         (requestNodes w 1).
Proof.
  exact (@settlement_rewards_and_penalties
           (Fixture.two_votes Ledger.Reverts) (Fixture.settled Ledger.Reverts)
           1 false 5000 (Fixture.at_time Fixture.node3 32)
           fixture_two_votes_reachable third_vote_accepted
           fixture_round_complete).
Defined.

(** The fixture's settlement in figures. *)
Example fixture_settlement :
  let w := Fixture.two_votes Ledger.Reverts in
  let w' := Fixture.settled Ledger.Reverts in
  map (fun a => MonitoringNode.reputation (monitoringNodes w a)) [1; 2; 3]
  = [100; 100; 100] /\
  map (fun a => MonitoringNode.reputation (monitoringNodes w' a)) [1; 2; 3]
  = [101; 101; 99] /\
  map (fun a => MonitoringNode.successfulChecks (monitoringNodes w' a)) [1; 2; 3]
  = [1; 1; 0] /\
  map (fun a => balanceOf RewardToken (token w') a - balanceOf RewardToken (token w) a)
    [1; 2; 3]
  = [Fixture.ether 1; Fixture.ether 1; 0] /\
  events w' =
    events w ++
    [MonitoringResultSubmitted 1 3 false 5000;
     ConsensusReached 1 true 1793;
     RewardDistributed 1 (Fixture.ether 1);
     RewardDistributed 2 (Fixture.ether 1);
     PenaltyApplied 3 0].
Proof. cbv zeta. split_all; vm_compute; reflexivity. Qed.

(** * Further properties *)

(** ** What settlement and submission leave alone, continued *)

Section Keeps.

Variable tok : IERC20.
Implicit Types w : world tok.

Lemma settlement_keeps_refl w : settlement_keeps w w.
Proof. repeat split. Qed.

Lemma settlement_keeps_trans w1 w2 w3 :
  settlement_keeps w1 w2 -> settlement_keeps w2 w3 -> settlement_keeps w1 w3.
Proof.
  intros (Hp & Hn & Ha & He) (Hp' & Hn' & Ha' & He').
  unfold settlement_keeps. split_all; try congruence;
    intros a; now rewrite He'.
Qed.

Lemma settle_one_keeps _requestId c reward n w w' :
  settle_one _requestId c reward n w = Ok w' -> settlement_keeps w w'.
Proof.
  unfold settle_one, bind, call_token. intros H.
  step_ok H; subst; try apply settlement_keeps_refl;
    unfold settlement_keeps; simpl; split_all; try reflexivity;
    intros x; unfold upd; destruct (x =? n) eqn:E;
    try rewrite N.eqb_refl; try reflexivity; to_props; subst; reflexivity.
Qed.

Lemma settle_all_keeps _requestId c reward nodes :
  forall w w', settle_all _requestId c reward nodes w = Ok w' -> settlement_keeps w w'.
Proof.
  induction nodes as [|n rest IH]; simpl; intros w w' H.
  - injection H as <-. apply settlement_keeps_refl.
  - apply bind_ok in H as (w1 & H1 & H).
    eapply settlement_keeps_trans; [eapply settle_one_keeps | eapply IH]; eauto.
Qed.

Lemma _checkConsensus_keeps _requestId e w w' :
  _checkConsensus _requestId e w = Ok w' ->
  settlement_keeps w w' /\
  (token w' <> token w -> round_closed _requestId w) /\
  forall j,
    terms (monitoringRequests w' j) = terms (monitoringRequests w j) /\
    MonitoringRequest.isActive (monitoringRequests w' j)
    = MonitoringRequest.isActive (monitoringRequests w j).
Proof.
  unfold _checkConsensus, _distributeRewards. intros H.
  apply bind_ok in H as ([[sc uc] tot] & Ht & H).
  destruct (sc =? _) eqn:Hfull.
  - apply bind_ok in H as (lhs & _ & H). apply bind_ok in H as (rhs & _ & H).
    apply bind_ok in H as (w1 & Hd & H). injection H as <-.
    pose proof (settle_all_keeps _ _ _ _ _ Hd) as Hk.
    apply settle_all_frame in Hd. destruct Hd as (_ & _ & Hq & _).
    split_all.
    + exact Hk.
    + intros _. apply tally_spec in Ht as (Hc & _ & _). to_props.
      unfold round_closed. apply filter_all.
      unfold submitted_values in Hc. rewrite length_map in Hc. lia.
    + intros j. simpl. rewrite Hq. simpl. unfold upd.
      destruct (j =? _requestId) eqn:E; [|split; reflexivity].
      to_props. subst j. split; reflexivity.
  - injection H as <-. split_all; [apply settlement_keeps_refl | congruence | auto].
Qed.

Lemma submitMonitoringResult_keeps _requestId up rt e w w' :
  submitMonitoringResult _requestId up rt e w = Ok w' ->
  let n := monitoringNodes w (msg_sender e) in
  parameters w' = parameters w /\
  nodeRequests w' = nodeRequests w /\
  activeRequests w' = activeRequests w /\
  (forall a,
      enrolment (monitoringNodes w' a)
      = if a =? msg_sender e
        then (MonitoringNode.nodeAddress n, MonitoringNode.stake n,
              MonitoringNode.isActive n, MonitoringNode.registrationTime n,
              MonitoringNode.totalChecks n + 1)
        else enrolment (monitoringNodes w a)) /\
  (token w' <> token w -> round_closed _requestId w') /\
  forall j,
    terms (monitoringRequests w' j) = terms (monitoringRequests w j) /\
    MonitoringRequest.isActive (monitoringRequests w' j)
    = MonitoringRequest.isActive (monitoringRequests w j).
Proof.
  unfold submitMonitoringResult. intros H.
  destruct (onlyRegisteredNode e w); [|discriminate].
  destruct (validRequest_id _ w); [|discriminate].
  destruct (validRequest_active _ w); [|discriminate].
  destruct (negb _); [|discriminate].
  destruct (_isNodeAssignedToRequest _ _ w); [|discriminate].
  apply bind_ok in H as (tc & Htc & H). apply add_chk_ok in Htc.
  pose proof (_checkConsensus_frame _ _ _ H) as (Hres & Hnodes & _).
  apply _checkConsensus_keeps in H as ((Hp & Hn & Ha & He) & Htok & Hq).
  simpl in Hp, Hn, Ha, He, Hq, Htok.
  cbv zeta. split_all; try assumption.
  - intros a. rewrite He. unfold upd.
    destruct (a =? msg_sender e) eqn:E; [|reflexivity].
    subst tc. reflexivity.
  - intros Hne. specialize (Htok Hne). unfold round_closed in *.
    now rewrite Hres, Hnodes.
Qed.

End Keeps.

(** ** The effect of each call, field by field *)

Ltac simple_call H :=
  unfold registerNode, unregisterNode, addStake, deactivateMonitoringRequest,
    setMinimumStake, setConsensusThreshold, pause, unpause, emergencyWithdraw,
    transferOwnership, renounceOwnership, onlyOwner, onlyRegisteredNode,
    validRequest_id, validRequest_active, bind, call_token in H;
  step_ok H; subst; to_props.

Ltac created H requestId w1 :=
  let Hw := fresh "Hw" in
  cbn [exec] in H; apply bind_ok in H as ([requestId w1] & H & Hw);
  injection Hw as <-; cbn [snd].

Section Effects.

Variable tok : IERC20.
Implicit Types w : world tok.

Lemma assign_all_keeps _requestId nodes :
  forall w,
    let w' := fold_left (fun w a => assign_one _requestId a w) nodes w in
    parameters w' = parameters w /\
    monitoringRequests w' = monitoringRequests w /\
    activeRequests w' = activeRequests w /\
    token w' = token w /\
    events w' = events w /\
    forall a, nodeRequests w' a
              = nodeRequests w a ++ repeat _requestId (count_occ N.eq_dec nodes a).
Proof.
  induction nodes as [|n rest IH]; intros w; cbn [fold_left]; cbv zeta.
  - split_all; try reflexivity. intros a. simpl. now rewrite app_nil_r.
  - destruct (IH (assign_one _requestId n w)) as (Hp & Hq & Ha & Ht & He & Hn).
    split_all; try (etransitivity; [eassumption | reflexivity]).
    intros a. rewrite Hn. simpl. unfold upd.
    destruct (N.eq_dec n a) as [->|Hne].
    + rewrite N.eqb_refl. simpl. now rewrite <- app_assoc.
    + assert (E : a <> n) by congruence. apply N.eqb_neq in E. now rewrite E.
Qed.

Lemma createMonitoringRequest_keeps u i t r e w requestId w' :
  createMonitoringRequest u i t r e w = Ok (requestId, w') ->
  (_paused w = false /\ (0 < String.length u)%nat /\ 60 <= i /\
   t <= maxResponseTime w /\ 0 < r) /\
  parameters w' = parameters w /\
  token w' = token w /\
  monitoringRequests w' =
    upd (monitoringRequests w) requestId
      (MonitoringRequest.mk requestId (msg_sender e) u i t r true
         (block_timestamp e) (block_timestamp e)) /\
  activeRequests w' = activeRequests w ++ [requestId] /\
  events w' = events w ++ [MonitoringRequestCreated requestId (msg_sender e) u] /\
  forall a,
    nodeRequests w' a
    = nodeRequests w a
      ++ repeat requestId
           (count_occ N.eq_dec
              (firstn (Nat.min 3 (List.length (activeNodes w))) (activeNodes w)) a).
Proof.
  unfold createMonitoringRequest, _assignNodesToRequest. intros H.
  destruct (negb (_paused w)) eqn:Hp; [|discriminate].
  destruct (0 <? String.length u)%nat eqn:Hu; [|discriminate].
  destruct (60 <=? i) eqn:Hi; [|discriminate].
  destruct (t <=? maxResponseTime w) eqn:Ht; [|discriminate].
  destruct (0 <? r) eqn:Hr; [|discriminate].
  apply bind_ok in H as (next & Hnext & H).
  apply bind_ok in H as (w1 & H1 & H). injection H as <- <-.
  match type of H1 with
  | (if (0 <? nodesToAssign ?w0)%nat then _ else _) = _ =>
      destruct (0 <? nodesToAssign w0)%nat eqn:Hk in H1; [|discriminate];
      change (nodesToAssign w0) with (nodesToAssign w) in *;
      change (activeNodes w0) with (activeNodes w) in *;
      injection H1 as <-;
      destruct (assign_all_keeps (_nextRequestId w)
                  (firstn (nodesToAssign w) (activeNodes w)) w0)
        as (Hpar & Hq & Ha & Htk & Hev & Hn)
  end.
  cbv zeta in Hpar, Hq, Ha, Htk, Hev, Hn. simpl in Hpar, Hq, Ha, Htk, Hev, Hn.
  to_props. apply Nat.ltb_lt in Hu.
  split_all; try assumption.
  - simpl. now rewrite Hev.
  - intros a. simpl. rewrite Hn. now rewrite nodesToAssign_min.
Qed.

Lemma exec_parameters c e w w' :
  exec c e w = Ok w' ->
  match c with
  | SetMinimumStake v =>
      msg_sender e = _owner w /\
      parameters w' = (v, consensusThreshold w, maxResponseTime w, _paused w, _owner w)
  | SetConsensusThreshold v =>
      msg_sender e = _owner w /\ 51 <= v <= 100 /\
      parameters w' = (minimumStake w, v, maxResponseTime w, _paused w, _owner w)
  | Pause =>
      msg_sender e = _owner w /\ _paused w = false /\
      parameters w' = (minimumStake w, consensusThreshold w, maxResponseTime w, true,
                       _owner w)
  | Unpause =>
      msg_sender e = _owner w /\ _paused w = true /\
      parameters w' = (minimumStake w, consensusThreshold w, maxResponseTime w, false,
                       _owner w)
  | TransferOwnership newOwner =>
      msg_sender e = _owner w /\ newOwner <> 0 /\
      parameters w' = (minimumStake w, consensusThreshold w, maxResponseTime w,
                       _paused w, newOwner)
  | RenounceOwnership =>
      msg_sender e = _owner w /\
      parameters w' = (minimumStake w, consensusThreshold w, maxResponseTime w,
                       _paused w, 0)
  | EmergencyWithdraw => msg_sender e = _owner w /\ parameters w' = parameters w
  | _ => parameters w' = parameters w
  end.
Proof.
  intros H. destruct c; cbn [exec] in H;
    try (simple_call H; unfold parameters; simpl; split_all;
         first [reflexivity | assumption | lia]).
  - created H requestId w1.
    now apply createMonitoringRequest_keeps in H as (_ & Hp & _).
  - now apply submitMonitoringResult_keeps in H as (Hp & _).
Qed.

Lemma exec_enrolment c e w w' :
  exec c e w = Ok w' ->
  let a := msg_sender e in
  let n := monitoringNodes w a in
  (forall x, x <> a ->
             enrolment (monitoringNodes w' x) = enrolment (monitoringNodes w x)) /\
  match c with
  | RegisterNode =>
      MonitoringNode.isActive n = false /\
      enrolment (monitoringNodes w' a) = (a, minimumStake w, true, block_timestamp e, 0)
  | UnregisterNode =>
      MonitoringNode.isActive n = true /\ 0 < MonitoringNode.stake n /\
      enrolment (monitoringNodes w' a)
      = (MonitoringNode.nodeAddress n, 0, false, MonitoringNode.registrationTime n,
         MonitoringNode.totalChecks n)
  | AddStake _amount =>
      MonitoringNode.isActive n = true /\ 0 < _amount /\
      enrolment (monitoringNodes w' a)
      = (MonitoringNode.nodeAddress n, MonitoringNode.stake n + _amount, true,
         MonitoringNode.registrationTime n, MonitoringNode.totalChecks n)
  | SubmitMonitoringResult _ _ _ =>
      MonitoringNode.isActive n = true /\
      enrolment (monitoringNodes w' a)
      = (MonitoringNode.nodeAddress n, MonitoringNode.stake n, true,
         MonitoringNode.registrationTime n, MonitoringNode.totalChecks n + 1)
  | _ => enrolment (monitoringNodes w' a) = enrolment n
  end.
Proof.
  intros H. cbv zeta. destruct c; cbn [exec] in H;
    only 1-3, 5, 7-13: (simple_call H;
         repeat match goal with
                | Hc : add_chk _ _ = Ok _ |- _ => apply add_chk_ok in Hc; subst
                end;
         unfold enrolment; simpl; rewrite ?upd_same; simpl; split_all;
         try first [reflexivity | assumption | congruence
                   | solve [repeat f_equal; congruence]];
         intros x Hx; now rewrite ?upd_other by assumption).
  - created H requestId w1.
    apply createMonitoringRequest_spec in H as (_ & _ & _ & _ & _ & -> & _).
    split; reflexivity.
  - pose proof (submitMonitoringResult_inv _ _ _ _ _ H) as (Hact & _).
    unfold onlyRegisteredNode in Hact.
    apply submitMonitoringResult_keeps in H as (_ & _ & _ & Hen & _ & _).
    cbv zeta in Hen. split_all; try assumption.
    + intros x Hx. rewrite Hen. apply N.eqb_neq in Hx. now rewrite Hx.
    + rewrite Hen, N.eqb_refl, Hact. reflexivity.
Qed.

Lemma exec_requests c e w w' :
  exec c e w = Ok w' ->
  match c with
  | CreateMonitoringRequest u i t r =>
      (_paused w = false /\ (0 < String.length u)%nat /\ 60 <= i /\
       t <= maxResponseTime w /\ 0 < r) /\
      _nextRequestId w' = _nextRequestId w + 1 /\
      monitoringRequests w' =
        upd (monitoringRequests w) (_nextRequestId w)
          (MonitoringRequest.mk (_nextRequestId w) (msg_sender e) u i t r true
             (block_timestamp e) (block_timestamp e)) /\
      activeRequests w' = activeRequests w ++ [_nextRequestId w]
  | DeactivateMonitoringRequest i =>
      0 < i < _nextRequestId w /\
      MonitoringRequest.isActive (monitoringRequests w i) = true /\
      (MonitoringRequest.requester (monitoringRequests w i) = msg_sender e \/
       msg_sender e = _owner w) /\
      _nextRequestId w' = _nextRequestId w /\
      monitoringRequests w' =
        upd (monitoringRequests w) i
          (MonitoringRequest.with_isActive false (monitoringRequests w i)) /\
      activeRequests w' = swap_pop i (activeRequests w)
  | SubmitMonitoringResult i _ _ =>
      0 < i < _nextRequestId w /\
      MonitoringRequest.isActive (monitoringRequests w i) = true /\
      _nextRequestId w' = _nextRequestId w /\
      activeRequests w' = activeRequests w /\
      forall j,
        terms (monitoringRequests w' j) = terms (monitoringRequests w j) /\
        MonitoringRequest.isActive (monitoringRequests w' j)
        = MonitoringRequest.isActive (monitoringRequests w j)
  | _ =>
      _nextRequestId w' = _nextRequestId w /\
      monitoringRequests w' = monitoringRequests w /\
      activeRequests w' = activeRequests w
  end.
Proof.
  intros H. destruct c; cbn [exec] in H;
    only 1-3, 7-13: (simple_call H; simpl; split_all; reflexivity).
  - created H requestId w1.
    pose proof (createMonitoringRequest_spec _ _ _ _ _ _ H) as (-> & Hi & _).
    apply createMonitoringRequest_keeps in H as (Hv & _ & _ & Hq & Ha & _).
    split_all; try assumption; apply Hv.
  - unfold deactivateMonitoringRequest, validRequest_id, validRequest_active in H.
    destruct (_ && _) eqn:Hid; [|discriminate].
    destruct (MonitoringRequest.isActive _) eqn:Hact; [|discriminate].
    destruct (_ || _) eqn:Hauth; [|discriminate].
    injection H as <-. to_props. apply orb_true_iff in Hauth.
    simpl. split_all; try first [reflexivity | assumption].
    destruct Hauth as [E|E]; apply N.eqb_eq in E; auto.
  - pose proof (submitMonitoringResult_inv _ _ _ _ _ H) as (_ & Hid & Hact & _).
    pose proof (submitMonitoringResult_frame _ _ _ _ _ H) as (_ & Hi & _).
    apply submitMonitoringResult_keeps in H as (_ & _ & Ha & _ & _ & Hq).
    unfold validRequest_id, validRequest_active in *. to_props.
    split_all; assumption.
Qed.

Lemma exec_assignments c e w w' :
  exec c e w = Ok w' ->
  match c with
  | CreateMonitoringRequest _ _ _ _ =>
      let committee :=
        firstn (Nat.min 3 (List.length (activeNodes w))) (activeNodes w) in
      activeNodes w <> [] /\
      (forall j, requestNodes w' j =
                 if j =? _nextRequestId w
                 then requestNodes w (_nextRequestId w) ++ committee
                 else requestNodes w j) /\
      (forall a, nodeRequests w' a =
                 nodeRequests w a
                 ++ repeat (_nextRequestId w) (count_occ N.eq_dec committee a))
  | _ => requestNodes w' = requestNodes w /\ nodeRequests w' = nodeRequests w
  end.
Proof.
  intros H. destruct c; cbn [exec] in H;
    only 1-3, 5, 7-13: (simple_call H; simpl; split_all; reflexivity).
  - created H requestId w1.
    pose proof (createMonitoringRequest_spec _ _ _ _ _ _ H)
      as (-> & _ & Hne & _ & _ & _ & _ & Hn).
    apply createMonitoringRequest_keeps in H as (_ & _ & _ & _ & _ & _ & Hr).
    cbv zeta. split_all; assumption.
  - pose proof (submitMonitoringResult_frame _ _ _ _ _ H) as (Hn & _).
    apply submitMonitoringResult_keeps in H as (_ & Hr & _).
    split; assumption.
Qed.

Lemma exec_registry c e w w' :
  exec c e w = Ok w' ->
  match c with
  | RegisterNode => activeNodes w' = activeNodes w ++ [msg_sender e]
  | UnregisterNode => activeNodes w' = swap_pop (msg_sender e) (activeNodes w)
  | _ => activeNodes w' = activeNodes w
  end.
Proof.
  intros H. destruct c;
    try (apply exec_bookkeeping in H as (_ & _ & _ & Ha & _); [exact Ha | reflexivity]).
  - now apply registerNode_frame in H as (_ & _ & _ & _ & _ & Ha & _).
  - now apply unregisterNode_frame in H as (_ & _ & _ & _ & Ha & _).
  - created H requestId w1.
    now apply createMonitoringRequest_spec in H as (_ & _ & _ & _ & Ha & _).
  - now apply submitMonitoringResult_frame in H as (_ & _ & Ha & _).
Qed.

Lemma exec_token c e w w' :
  exec c e w = Ok w' ->
  match c with
  | RegisterNode | UnregisterNode | AddStake _ | EmergencyWithdraw => True
  | SubmitMonitoringResult i _ _ => token w' <> token w -> round_closed i w'
  | _ => token w' = token w
  end.
Proof.
  intros H. destruct c; trivial; cbn [exec] in H;
    try (simple_call H; reflexivity).
  - created H requestId w1.
    now apply createMonitoringRequest_keeps in H as (_ & _ & Ht & _).
  - now apply submitMonitoringResult_keeps in H as (_ & _ & _ & _ & Ht & _).
Qed.

Lemma exec_consensus_events c e w w' :
  exec c e w = Ok w' ->
  match c with
  | SubmitMonitoringResult i _ _ =>
      consensus_events w' =
      consensus_events w ++
      if (List.length (submissions i w') =? List.length (requestNodes w' i))%nat
      then [ConsensusReached i
              (consensusIsUp_of (consensusThreshold w') (submissions i w'))
              (averageResponseTime_of (submissions i w'))]
      else []
  | _ => consensus_events w' = consensus_events w
  end.
Proof.
  intros H. destruct c; cbn [exec] in H;
    try (simple_call H; rewrite ?consensus_events_emit; simpl;
         rewrite ?app_nil_r; reflexivity).
  - created H requestId w1.
    apply createMonitoringRequest_keeps in H as (_ & _ & _ & _ & _ & He & _).
    unfold consensus_events. rewrite He, filter_app. simpl. apply app_nil_r.
  - now apply submitMonitoringResult_spec in H as (_ & _ & _ & He).
Qed.

End Effects.

(** ** Administration and enrolment *)

(** X1.  A call whose sender is not the owner leaves the minimum stake, the
    consensus threshold, the maximal response time, the pause switch and the
    ownership as they were, whatever the call is and whether it succeeds or
    reverts. *)
Theorem parameters_change_only_by_owner :
  forall (tok : IERC20) (w : world tok) (c : call) (e : env),
    msg_sender e <> _owner w ->
    parameters (transact c e w) = parameters w.
Proof.
  intros tok w c e Hne. unfold transact.
  destruct (exec c e w) as [w'|reason] eqn:H; [|reflexivity].
  apply exec_parameters in H.
  destruct c; try assumption; destruct H as (Ho & _); contradiction.
Qed.

Lemma parameters_change_only_by_owner_witness :
  parameters (transact (SetMinimumStake 0) (Fixture.at_time Fixture.node1 50)
                (Fixture.registered Ledger.Reverts))
  = parameters (Fixture.registered Ledger.Reverts).
Proof.
  apply parameters_change_only_by_owner. vm_compute. discriminate.
Defined.

Lemma enrolment_fields (n n' : MonitoringNode.t) :
  enrolment n' = enrolment n ->
  MonitoringNode.isActive n' = MonitoringNode.isActive n /\
  MonitoringNode.stake n' = MonitoringNode.stake n.
Proof. unfold enrolment. intros H. injection H as _ -> -> _ _. auto. Qed.

(** X2.  Nobody but the node itself touches its enrolment (address, stake,
    activity, registration time, number of checks): a call of another sender
    leaves it as it was, settlement included.  The activity of a node only
    changes in [registerNode] and [unregisterNode], its stake only in these
    two and [addStake]: no call slashes a stake or ejects a node. *)
Theorem enrolment_is_self_controlled :
  forall (tok : IERC20) (w : world tok) (c : call) (e : env) (a : address),
    let w' := transact c e w in
    (a <> msg_sender e ->
     enrolment (monitoringNodes w' a) = enrolment (monitoringNodes w a)) /\
    (membership_call c = false ->
     MonitoringNode.isActive (monitoringNodes w' a)
     = MonitoringNode.isActive (monitoringNodes w a)) /\
    (staking_call c = false ->
     MonitoringNode.stake (monitoringNodes w' a)
     = MonitoringNode.stake (monitoringNodes w a)).
Proof.
  intros tok w c e a. cbv zeta. unfold transact.
  destruct (exec c e w) as [w'|reason] eqn:H; [|auto].
  apply exec_enrolment in H. cbv zeta in H. destruct H as (Hother & Hself).
  split; [apply Hother|].
  destruct (N.eq_dec a (msg_sender e)) as [->|Hne];
    [|destruct (enrolment_fields (Hother a Hne)); auto].
  destruct c; (split; intros Hc; try discriminate Hc);
    repeat match goal with
           | Hx : _ /\ _ |- _ => destruct Hx
           end;
    match goal with
    | Hx : enrolment _ = _ |- _ =>
        unfold enrolment in Hx; injection Hx as _ Hs Ha _ _
    end; congruence.
Qed.

Section ParameterFacts.

Variable tok : IERC20.
Implicit Types w : world tok.

Lemma threshold_evolves w w' :
  evolves w w' ->
  51 <= consensusThreshold w <= 100 /\ maxResponseTime w = 30000 ->
  51 <= consensusThreshold w' <= 100 /\ maxResponseTime w' = 30000.
Proof.
  induction 1 as [w | c e w w' _ IH | tk w w' _ IH]; intros Hinv.
  - assumption.
  - specialize (IH Hinv). unfold transact.
    destruct (exec c e w') as [w2|reason] eqn:Hx; [|assumption].
    apply exec_parameters in Hx. unfold parameters in Hx.
    destruct c;
      repeat match goal with
             | Hc : _ /\ _ |- _ => destruct Hc
             | Hc : (_, _) = (_, _) |- _ => injection Hc as ? ? ? ? ?
             end; split; try congruence; lia.
  - exact (IH Hinv).
Qed.

End ParameterFacts.

(** X3.  In every reachable world the consensus threshold lies between 51
    and 100 and the maximal response time is 30000: [setConsensusThreshold]
    is the only call that writes the threshold and it refuses a value
    outside the range; no call writes the maximal response time. *)
Theorem threshold_stays_in_range :
  forall (tok : IERC20) (w : world tok),
    reachable w ->
    51 <= consensusThreshold w <= 100 /\ maxResponseTime w = 30000.
Proof.
  intros tok w (deployer & this & tk & H).
  apply (threshold_evolves H). simpl. lia.
Qed.

Lemma threshold_stays_in_range_witness :
  51 <= consensusThreshold (Fixture.registered Ledger.Reverts) <= 100 /\
  maxResponseTime (Fixture.registered Ledger.Reverts) = 30000.
Proof. exact (threshold_stays_in_range fixture_registered_reachable). Defined.

(** ** The request book *)

Lemma swap_pop_In a l x :
  NoDup l -> (In x (swap_pop a l) <-> In x l /\ x <> a).
Proof.
  intros Hnd. destruct (swap_pop_NoDup a Hnd) as (_ & Hgone & Hsub).
  split.
  - intros Hx. split; [now apply Hsub|]. intros ->. contradiction.
  - intros [Hx Hne]. destruct (in_dec N.eq_dec a l) as [Hin|Hin].
    + pose proof (Permutation_sym (swap_pop_perm _ _ Hin)) as Hp.
      apply (Permutation_in _ Hp) in Hx. destruct Hx as [->|Hx]; [congruence|exact Hx].
    + now rewrite (swap_pop_absent _ _ Hin).
Qed.

Lemma well_formed_terms i r r' :
  terms r' = terms r -> well_formed_request i r -> well_formed_request i r'.
Proof.
  unfold terms, well_formed_request. intros H. injection H as -> _ -> -> -> -> _.
  auto.
Qed.

Section RequestBook.

Variable tok : IERC20.
Implicit Types w : world tok.

Lemma evolves_trans w1 w2 w3 : evolves w1 w2 -> evolves w2 w3 -> evolves w1 w3.
Proof.
  intros H12 H23. induction H23 as [w | c e w w' _ IH Hs | tk w w' _ IH].
  - assumption.
  - apply evolves_transact; auto.
  - apply evolves_token; auto.
Qed.

Lemma exec_maxResponseTime c e w w' :
  exec c e w = Ok w' -> maxResponseTime w' = maxResponseTime w.
Proof.
  intros H. apply exec_parameters in H. unfold parameters in H.
  destruct c;
    repeat match goal with
           | Hc : _ /\ _ |- _ => destruct Hc
           | Hc : (_, _) = (_, _) |- _ => injection Hc as ? ? ? ? ?
           end; congruence.
Qed.

Lemma request_fixed_exec c e w w' i :
  exec c e w = Ok w' -> allocated i w ->
  allocated i w' /\
  terms (monitoringRequests w' i) = terms (monitoringRequests w i) /\
  requestNodes w' i = requestNodes w i /\
  (MonitoringRequest.isActive (monitoringRequests w' i) = true ->
   MonitoringRequest.isActive (monitoringRequests w i) = true).
Proof.
  unfold allocated. intros H Hi.
  pose proof (exec_requests _ _ _ H) as Hq.
  pose proof (exec_assignments _ _ _ H) as Ha.
  destruct c;
    try (destruct Hq as (Hn & Hr & _); destruct Ha as (Hc & _);
         rewrite Hn, Hr, Hc; auto).
  - destruct Hq as (_ & Hn & Hr & _). cbv zeta in Ha. destruct Ha as (_ & Hc & _).
    rewrite Hn, Hr, Hc. assert (Hne : i <> _nextRequestId w) by lia.
    rewrite (upd_other _ _ Hne). apply N.eqb_neq in Hne. rewrite Hne.
    split_all; auto; lia.
  - destruct Hq as (_ & _ & _ & Hn & Hr & _). destruct Ha as (Hc & _).
    rewrite Hn, Hr, Hc. unfold upd.
    destruct (i =? _requestId) eqn:E; to_props; subst; simpl; auto.
    split_all; auto; first [lia | discriminate].
  - destruct Hq as (_ & _ & Hn & _ & Hr). destruct Ha as (Hc & _).
    rewrite Hn, Hc. destruct (Hr i) as (Ht & Hact). rewrite Ht, Hact. auto.
Qed.

Lemma request_fixed_evolves w w' i :
  evolves w w' -> allocated i w ->
  allocated i w' /\
  terms (monitoringRequests w' i) = terms (monitoringRequests w i) /\
  requestNodes w' i = requestNodes w i /\
  (MonitoringRequest.isActive (monitoringRequests w' i) = true ->
   MonitoringRequest.isActive (monitoringRequests w i) = true).
Proof.
  induction 1 as [w | c e w w' _ IH | tk w w' _ IH]; intros Hi.
  - auto.
  - specialize (IH Hi). unfold transact.
    destruct (exec c e w') as [w2|reason] eqn:Hx; [|assumption].
    destruct IH as (Hi' & Ht & Hc & Hact).
    destruct (@request_fixed_exec c e w' w2 i Hx Hi') as (Hi2 & Ht2 & Hc2 & Hact2).
    split_all; try congruence; auto.
  - exact (IH Hi).
Qed.

Lemma requests_inv_exec c e w w' :
  requests_inv w -> exec c e w = Ok w' -> requests_inv w'.
Proof.
  intros (Hmax & Hone & Hfree & Hwf & Hnd & Hlist) H.
  pose proof (exec_maxResponseTime _ _ _ H) as Hm.
  pose proof (exec_requests _ _ _ H) as Hq.
  unfold requests_inv, allocated in *. rewrite Hm.
  destruct c;
    try (destruct Hq as (Hn & Hr & Ha); rewrite Hn, Hr, Ha; split_all; assumption).
  - (* createMonitoringRequest *)
    destruct Hq as ((_ & Hu & Hi & Ht & Hrw) & Hn & Hr & Ha).
    rewrite Hn, Hr, Ha.
    assert (Hfresh : ~ In (_nextRequestId w) (activeRequests w)).
    { rewrite Hlist, Hfree; [discriminate | lia]. }
    split_all; try assumption; try lia.
    + intros j Hj. rewrite upd_other by lia. apply Hfree. lia.
    + intros i Hi'. unfold upd. destruct (i =? _nextRequestId w) eqn:E; to_props.
      * subst i. unfold well_formed_request. simpl. split_all; auto. lia.
      * apply Hwf. lia.
    + apply (Permutation_NoDup (Permutation_cons_append _ _)). now constructor.
    + intros i. rewrite in_app_iff. unfold upd.
      destruct (i =? _nextRequestId w) eqn:E; to_props.
      * subst i. simpl. intuition.
      * rewrite <- Hlist. simpl. intuition congruence.
  - (* deactivateMonitoringRequest *)
    destruct Hq as (Hid & Hact & _ & Hn & Hr & Ha). rewrite Hn, Hr, Ha.
    destruct (swap_pop_NoDup _requestId Hnd) as (Hnd' & _ & _).
    split_all; try assumption.
    + intros j Hj. unfold upd. destruct (j =? _requestId); [reflexivity|].
      now apply Hfree.
    + intros i Hi. unfold upd. destruct (i =? _requestId) eqn:E; to_props.
      * subst i.
        apply (@well_formed_terms _requestId (monitoringRequests w _requestId));
          [reflexivity | now apply Hwf].
      * now apply Hwf.
    + intros i. rewrite (swap_pop_In _ _ Hnd), Hlist. unfold upd.
      destruct (i =? _requestId) eqn:E; to_props.
      * subst i. simpl. intuition congruence.
      * intuition congruence.
  - (* submitMonitoringResult *)
    destruct Hq as (_ & _ & Hn & Ha & Hr). rewrite Hn, Ha.
    split_all; try assumption.
    + intros j Hj. destruct (Hr j) as (_ & ->). now apply Hfree.
    + intros i Hi. destruct (Hr i) as (Ht & _).
      apply (@well_formed_terms i _ _ Ht). now apply Hwf.
    + intros i. destruct (Hr i) as (_ & ->). apply Hlist.
Qed.

Lemma requests_inv_evolves w w' : evolves w w' -> requests_inv w -> requests_inv w'.
Proof.
  induction 1 as [w | c e w w' _ IH | tk w w' _ IH]; intros H0.
  - assumption.
  - specialize (IH H0). unfold transact.
    destruct (exec c e w') as [w2|reason] eqn:Hx; [|assumption].
    exact (@requests_inv_exec c e w' w2 IH Hx).
  - exact (IH H0).
Qed.

Lemma requests_inv_reachable w : reachable w -> requests_inv w.
Proof.
  intros (deployer & this & tk & H). apply (requests_inv_evolves H).
  unfold requests_inv, allocated. simpl.
  split_all; auto; try lia; apply NoDup_nil.
Qed.

End RequestBook.

Lemma fixture_requested_to_settled :
  evolves (Fixture.requested Ledger.Reverts) (Fixture.settled Ledger.Reverts).
Proof.
  refine (evolves_trans _ fixture_settled_later).
  unfold Fixture.one_vote. apply evolves_transact; [apply evolves_refl|].
  vm_compute. discriminate.
Qed.

Lemma fixture_request_allocated : allocated 1 (Fixture.requested Ledger.Reverts).
Proof. unfold allocated. vm_compute. split; reflexivity. Qed.

Lemma fixture_deactivation :
  deactivateMonitoringRequest 1 (Fixture.at_time Fixture.requester 25)
    (Fixture.requested Ledger.Reverts)
  = Ok Scenario.deactivated.
Proof. vm_compute. reflexivity. Qed.

(** X4.  Once a request id has been handed out, nothing that happens later
    changes the request's terms (id, requester, URL, interval, timeout,
    reward, creation time) or its committee, and a request that is inactive
    is never active again: the only later change is a deactivation and the
    time of the last check. *)
Theorem request_is_fixed_after_creation :
  forall (tok : IERC20) (w w' : world tok) (_requestId : uint256),
    allocated _requestId w ->
    evolves w w' ->
    allocated _requestId w' /\
    terms (getRequestInfo _requestId w') = terms (getRequestInfo _requestId w) /\
    getRequestNodes _requestId w' = getRequestNodes _requestId w /\
    (MonitoringRequest.isActive (getRequestInfo _requestId w') = true ->
     MonitoringRequest.isActive (getRequestInfo _requestId w) = true).
Proof.
  intros tok w w' i Hi Hev. unfold getRequestInfo, getRequestNodes.
  now apply request_fixed_evolves.
Qed.

Lemma request_is_fixed_after_creation_witness :
  allocated 1 (Fixture.settled Ledger.Reverts) /\
  terms (getRequestInfo 1 (Fixture.settled Ledger.Reverts))
  = terms (getRequestInfo 1 (Fixture.requested Ledger.Reverts)) /\
  getRequestNodes 1 (Fixture.settled Ledger.Reverts)
  = getRequestNodes 1 (Fixture.requested Ledger.Reverts) /\
  (MonitoringRequest.isActive (getRequestInfo 1 (Fixture.settled Ledger.Reverts))
   = true ->
   MonitoringRequest.isActive (getRequestInfo 1 (Fixture.requested Ledger.Reverts))
   = true).
Proof.
  exact (@request_is_fixed_after_creation _ _ _ 1 fixture_request_allocated
           fixture_requested_to_settled).
Defined.

(** X5.  A deactivation is granted only to the requester or the owner, and
    it is final: however the world moves on afterwards, the request stays
    inactive, every result submitted for it reverts and a second
    deactivation reverts with [Request not active]. *)
Theorem deactivation_is_permanent :
  forall (tok : IERC20) (w0 w1 w : world tok) (_requestId : uint256) (e : env),
    deactivateMonitoringRequest _requestId e w0 = Ok w1 ->
    evolves w1 w ->
    (MonitoringRequest.requester (monitoringRequests w0 _requestId) = msg_sender e \/
     msg_sender e = _owner w0) /\
    MonitoringRequest.isActive (monitoringRequests w _requestId) = false /\
    (forall up rt e',
        exists reason,
          submitMonitoringResult _requestId up rt e' w = Revert reason) /\
    (forall e',
        deactivateMonitoringRequest _requestId e' w
        = Revert "Request not active").
Proof.
  intros tok w0 w1 w i e H Hev.
  apply (@exec_requests tok (DeactivateMonitoringRequest i)) in H.
  destruct H as (Hi & _ & Hauth & Hn & Hr & _).
  assert (Hi1 : allocated i w1) by (unfold allocated; now rewrite Hn).
  assert (Hoff1 : MonitoringRequest.isActive (monitoringRequests w1 i) = false)
    by now rewrite Hr, upd_same.
  destruct (request_fixed_evolves Hev Hi1) as (Hi2 & _ & _ & Hact).
  assert (Hoff : MonitoringRequest.isActive (monitoringRequests w i) = false).
  { destruct (MonitoringRequest.isActive (monitoringRequests w i)); [|reflexivity].
    rewrite Hact in Hoff1 by reflexivity. discriminate. }
  assert (Hid : validRequest_id i w = true).
  { unfold validRequest_id, allocated in *. apply andb_true_iff.
    split; apply N.ltb_lt; lia. }
  split_all; try assumption.
  - intros up rt e'. unfold submitMonitoringResult, validRequest_active.
    rewrite Hid, Hoff. destruct (onlyRegisteredNode e' w); eauto.
  - intros e'. unfold deactivateMonitoringRequest, validRequest_active.
    now rewrite Hid, Hoff.
Qed.

Lemma deactivation_is_permanent_witness :
  MonitoringRequest.isActive (monitoringRequests Scenario.deactivated 1) = false /\
  (forall up rt e',
      exists reason,
        submitMonitoringResult 1 up rt e' Scenario.deactivated = Revert reason).
Proof.
  destruct (@deactivation_is_permanent _ _ _ Scenario.deactivated 1 _
              fixture_deactivation (evolves_refl _)) as (_ & Hoff & Hsub & _).
  exact (conj Hoff Hsub).
Defined.

(** X6.  In every reachable world each request id handed out holds a
    request that passes the checks made at its creation: its id field is
    its key, its URL is not empty, its interval is at least 60, its timeout
    at most 30000 and its reward positive; an id not handed out holds no
    active request. *)
Theorem stored_requests_are_well_formed :
  forall (tok : IERC20) (w : world tok),
    reachable w ->
    forall _requestId,
      (allocated _requestId w ->
       well_formed_request _requestId (getRequestInfo _requestId w)) /\
      (~ allocated _requestId w ->
       MonitoringRequest.isActive (getRequestInfo _requestId w) = false).
Proof.
  intros tok w Hreach i.
  destruct (requests_inv_reachable Hreach) as (_ & _ & Hfree & Hwf & _).
  unfold getRequestInfo. split; auto.
Qed.

Lemma stored_requests_are_well_formed_witness :
  well_formed_request 1 (getRequestInfo 1 (Fixture.requested Ledger.Reverts)).
Proof.
  exact (proj1 (stored_requests_are_well_formed fixture_requested_reachable 1)
           fixture_request_allocated).
Defined.

(** X7.  In every reachable world [getActiveRequests] lists exactly the
    requests whose activity flag is set, each of them once, and only ids
    that have been handed out. *)
Theorem active_requests_listed_exactly :
  forall (tok : IERC20) (w : world tok),
    reachable w ->
    NoDup (getActiveRequests w) /\
    forall _requestId,
      (In _requestId (getActiveRequests w) <->
       MonitoringRequest.isActive (getRequestInfo _requestId w) = true) /\
      (In _requestId (getActiveRequests w) -> allocated _requestId w).
Proof.
  intros tok w Hreach.
  destruct (requests_inv_reachable Hreach) as (_ & _ & Hfree & _ & Hnd & Hlist).
  unfold getActiveRequests, getRequestInfo. split; [exact Hnd|].
  intros i. split; [apply Hlist|]. intros Hin. apply Hlist in Hin.
  destruct (N.ltb_spec 0 i) as [H0|H0];
    [destruct (N.ltb_spec i (_nextRequestId w)) as [H1|H1]|];
    [now split | |]; rewrite Hfree in Hin; try discriminate;
    unfold allocated; lia.
Qed.

Lemma active_requests_listed_exactly_witness :
  NoDup (getActiveRequests (Fixture.requested Ledger.Reverts)) /\
  forall _requestId,
    (In _requestId (getActiveRequests (Fixture.requested Ledger.Reverts)) <->
     MonitoringRequest.isActive
       (getRequestInfo _requestId (Fixture.requested Ledger.Reverts)) = true) /\
    (In _requestId (getActiveRequests (Fixture.requested Ledger.Reverts)) ->
     allocated _requestId (Fixture.requested Ledger.Reverts)).
Proof. exact (active_requests_listed_exactly fixture_requested_reachable). Defined.

(** ** The registry of nodes and the assignment tables *)

Section Registry.

Variable tok : IERC20.
Implicit Types w : world tok.

Lemma listed_inv_exec c e w w' :
  registry_inv w -> listed_inv w -> exec c e w = Ok w' -> listed_inv w'.
Proof.
  intros (Hnd & _) Hl H a Ha.
  pose proof (exec_registry _ _ _ H) as Hr.
  apply exec_enrolment in H. cbv zeta in H. destruct H as (Hother & Hself).
  destruct (N.eq_dec a (msg_sender e)) as [->|Hne].
  - destruct c; rewrite Hr;
      repeat match goal with
             | Hx : _ /\ _ |- _ => destruct Hx
             end;
      try (apply in_or_app; right; now left);
      match goal with
      | Hx : enrolment _ = _ |- _ =>
          unfold enrolment in Hx; injection Hx as _ _ Hact _ _
      end;
      try (apply Hl; congruence); congruence.
  - assert (Hin : In a (activeNodes w)).
    { apply Hl. destruct (enrolment_fields (Hother a Hne)) as (<- & _). exact Ha. }
    destruct c; rewrite Hr; try assumption.
    + apply in_or_app. now left.
    + apply (swap_pop_In _ _ Hnd). now split.
Qed.

Lemma index_inv_exec c e w w' :
  registry_inv w -> committees_inv w -> index_inv w ->
  exec c e w = Ok w' -> index_inv w'.
Proof.
  intros (Hnd & _) (Hfresh & _) Hix H.
  apply exec_assignments in H.
  destruct c;
    try (destruct H as (Hc & Hr); unfold index_inv; now rewrite Hc, Hr).
  cbv zeta in H. destruct H as (_ & Hc & Hr).
  set (committee := firstn _ _) in *.
  assert (Hcnd : NoDup committee) by apply (firstn_NoDup _ Hnd).
  intros a. destruct (Hix a) as (Hand & Hiff). rewrite Hr.
  assert (Hnew : ~ In (_nextRequestId w) (nodeRequests w a)).
  { rewrite Hiff, Hfresh by lia. intros []. }
  pose proof (proj1 (NoDup_count_occ N.eq_dec committee) Hcnd a) as Hle.
  pose proof (count_occ_In N.eq_dec committee a) as Hocc.
  split.
  - destruct (count_occ N.eq_dec committee a) as [|[|k]]; simpl; [| |lia].
    + now rewrite app_nil_r.
    + apply (Permutation_NoDup (Permutation_cons_append _ _)). now constructor.
  - intros i. rewrite Hc, in_app_iff, Hiff.
    destruct (i =? _nextRequestId w) eqn:E; to_props.
    + subst i. rewrite Hfresh by lia. simpl. rewrite Hocc.
      destruct (count_occ N.eq_dec committee a) as [|k]; simpl.
      * split; [intros [[]|[]] | lia].
      * split; [lia | auto].
    + split; [|auto]. intros [Hin|Hin]; [exact Hin|].
      apply repeat_spec in Hin. congruence.
Qed.

Lemma listed_index_evolve w w' :
  evolves w w' ->
  committees_inv w /\ registry_inv w /\ listed_inv w /\ index_inv w ->
  committees_inv w' /\ registry_inv w' /\ listed_inv w' /\ index_inv w'.
Proof.
  induction 1 as [w | c e w w' _ IH Hsender | tk w w' _ IH]; intros Hinv.
  - assumption.
  - destruct (IH Hinv) as (Hc & Hr & Hl & Hi). unfold transact.
    destruct (exec c e w') as [w2|reason] eqn:E; [|now split_all].
    split_all.
    + exact (@committees_inv_exec tok c e w' _ Hc E).
    + exact (@registry_inv_exec tok c e w' _ Hr Hc Hsender E).
    + exact (@listed_inv_exec c e w' _ Hr Hl E).
    + exact (@index_inv_exec c e w' _ Hr Hc Hi E).
  - exact (IH Hinv).
Qed.

Lemma listed_index_reachable w :
  reachable w -> registry_inv w /\ listed_inv w /\ index_inv w.
Proof.
  intros (deployer & this & tk & H).
  apply (listed_index_evolve H). split_all.
  - split; simpl; intros j Hj; [reflexivity | lia].
  - unfold registry_inv. simpl. split_all; try constructor; contradiction.
  - intros a. simpl. discriminate.
  - intros a. simpl. split; [constructor | tauto].
Qed.

End Registry.

(** X8.  In every reachable world [getActiveNodes] lists exactly the
    addresses whose node record is active, each of them once. *)
Theorem active_nodes_listed_exactly :
  forall (tok : IERC20) (w : world tok),
    reachable w ->
    NoDup (getActiveNodes w) /\
    forall a,
      In a (getActiveNodes w) <->
      MonitoringNode.isActive (getNodeInfo a w) = true.
Proof.
  intros tok w Hreach.
  destruct (listed_index_reachable Hreach) as ((Hnd & Hact & _) & Hl & _).
  unfold getActiveNodes, getNodeInfo. split; [exact Hnd|].
  intros a. split; [apply Hact | apply Hl].
Qed.

Lemma active_nodes_listed_exactly_witness :
  NoDup (getActiveNodes (Fixture.registered Ledger.Reverts)) /\
  forall a,
    In a (getActiveNodes (Fixture.registered Ledger.Reverts)) <->
    MonitoringNode.isActive (getNodeInfo a (Fixture.registered Ledger.Reverts))
    = true.
Proof. exact (active_nodes_listed_exactly fixture_registered_reachable). Defined.

(** X9.  In every reachable world the two assignment tables mirror each
    other: [getNodeRequests] of a node lists a request exactly when
    [getRequestNodes] of that request lists the node, and it lists no
    request twice. *)
Theorem assignment_tables_mirror_each_other :
  forall (tok : IERC20) (w : world tok),
    reachable w ->
    forall a,
      NoDup (getNodeRequests a w) /\
      forall _requestId,
        In _requestId (getNodeRequests a w) <->
        In a (getRequestNodes _requestId w).
Proof.
  intros tok w Hreach a.
  destruct (listed_index_reachable Hreach) as (_ & _ & Hi).
  exact (Hi a).
Qed.

Lemma assignment_tables_mirror_each_other_witness :
  NoDup (getNodeRequests Fixture.node1 (Fixture.requested Ledger.Reverts)) /\
  forall _requestId,
    In _requestId (getNodeRequests Fixture.node1 (Fixture.requested Ledger.Reverts))
    <-> In Fixture.node1
          (getRequestNodes _requestId (Fixture.requested Ledger.Reverts)).
Proof.
  exact (assignment_tables_mirror_each_other fixture_requested_reachable
           Fixture.node1).
Defined.

(** ** Rounds *)

Section Rounds.

Variable tok : IERC20.
Implicit Types w : world tok.

Lemma round_closed_exec c e w w' i :
  exec c e w = Ok w' -> allocated i w -> round_closed i w ->
  allocated i w' /\ round_closed i w'.
Proof.
  intros H Hi Hcl.
  destruct (@request_fixed_exec tok c e w w' i H Hi) as (Hi' & _ & Hc & _).
  split; [exact Hi'|]. intros a Ha. rewrite Hc in Ha.
  apply (@submitted_stays_exec tok c e w w' i a H). now apply Hcl.
Qed.

Lemma round_closed_evolves w w' i :
  evolves w w' -> allocated i w -> round_closed i w ->
  allocated i w' /\ round_closed i w'.
Proof.
  induction 1 as [w | c e w w' _ IH | tk w w' _ IH]; intros Hi Hcl.
  - auto.
  - destruct (IH Hi Hcl) as (Hi' & Hcl'). unfold transact.
    destruct (exec c e w') as [w2|reason] eqn:Hx; [|auto].
    exact (@round_closed_exec c e w' w2 i Hx Hi' Hcl').
  - exact (IH Hi Hcl).
Qed.

Lemma closed_round_rejects w i up rt e :
  round_closed i w ->
  exists reason, submitMonitoringResult i up rt e w = Revert reason.
Proof.
  intros Hcl.
  destruct (submitMonitoringResult i up rt e w) as [w'|reason] eqn:H; [|eauto].
  apply submitMonitoringResult_inv in H as (_ & _ & _ & Hnot & Has & _).
  unfold _isNodeAssignedToRequest in Has.
  apply existsb_exists in Has as (n & Hin & E). to_props. subst n.
  rewrite Hcl in Hnot by assumption. discriminate.
Qed.

Lemma rounds_inv_exec c e w w' :
  rounds_inv w -> exec c e w = Ok w' -> rounds_inv w'.
Proof.
  intros Hinv H i. destruct (Hinv i) as (Hlen & Hcl).
  pose proof (exec_consensus_events _ _ _ H) as Hev.
  assert (Hkeep : consensus_for i w' = consensus_for i w ->
                  (List.length (consensus_for i w') <= 1)%nat /\
                  (consensus_for i w' <> [] -> round_closed i w' /\ allocated i w')).
  { intros E. rewrite E. split; [exact Hlen|]. intros Hne.
    destruct (Hcl Hne) as (Hc & Ha).
    destruct (@round_closed_exec c e w w' i H Ha Hc). now split. }
  destruct c; try (apply Hkeep; unfold consensus_for; now rewrite Hev).
  unfold consensus_for in *. rewrite Hev, filter_app in *.
  destruct (_requestId =? i) eqn:E; to_props.
  - subst i.
    assert (Hnone : filter (about _requestId) (consensus_events w) = []).
    { destruct (filter (about _requestId) (consensus_events w)) eqn:F;
        [reflexivity|]. exfalso.
      destruct Hcl as (Hc & _); [discriminate|].
      destruct (@closed_round_rejects w _requestId _isUp _responseTime e Hc)
        as (reason & Hrev).
      cbn [exec] in H. congruence. }
    rewrite Hnone. cbn [app].
    destruct (_ =? _)%nat eqn:Hfull; cbn [filter about].
    + rewrite N.eqb_refl. cbn [Datatypes.length]. split; [lia|]. intros _. split.
      * apply Nat.eqb_eq in Hfull. rewrite submissions_length in Hfull.
        intros a Ha. exact (filter_all _ _ Hfull a Ha).
      * apply exec_requests in H as (Hi & _ & Hn & _).
        unfold allocated. now rewrite Hn.
    + cbn [Datatypes.length]. split; [lia | congruence].
  - apply Hkeep. f_equal. destruct (_ =? _)%nat; cbn [filter about].
    + apply N.eqb_neq in E. rewrite E. apply app_nil_r.
    + apply app_nil_r.
Qed.

Lemma rounds_inv_evolves w w' : evolves w w' -> rounds_inv w -> rounds_inv w'.
Proof.
  induction 1 as [w | c e w w' _ IH | tk w w' _ IH]; intros H0.
  - assumption.
  - specialize (IH H0). unfold transact.
    destruct (exec c e w') as [w2|reason] eqn:Hx; [|assumption].
    exact (@rounds_inv_exec c e w' w2 IH Hx).
  - exact (IH H0).
Qed.

Lemma rounds_inv_reachable w : reachable w -> rounds_inv w.
Proof.
  intros (deployer & this & tk & H). apply (rounds_inv_evolves H).
  intros i. unfold consensus_for, consensus_events. simpl. split; [lia | congruence].
Qed.

End Rounds.

Lemma round_closed_by_check (tok : IERC20) (w : world tok) i :
  forallb (fun a => MonitoringResult.isSubmitted (monitoringResults w i a))
    (requestNodes w i) = true ->
  round_closed i w.
Proof. intros H a Ha. now apply (proj1 (forallb_forall _ _) H). Qed.

Lemma fixture_all_submitted :
  forallb
    (fun a => MonitoringResult.isSubmitted
                (monitoringResults (Fixture.settled Ledger.Reverts) 1 a))
    (requestNodes (Fixture.settled Ledger.Reverts) 1) = true.
Proof. vm_compute. reflexivity. Qed.

Lemma fixture_settled_allocated : allocated 1 (Fixture.settled Ledger.Reverts).
Proof. unfold allocated. vm_compute. split; reflexivity. Qed.

Lemma fixture_settled_reachable : reachable (Fixture.settled Ledger.Reverts).
Proof.
  destruct fixture_requested_reachable as (deployer & this & tk & H).
  exists deployer, this, tk.
  exact (evolves_trans H fixture_requested_to_settled).
Qed.

(** X10.  A round that is closed stays closed: once every member of the
    committee of a request has submitted, then, however the world moves on,
    every member still counts as having submitted and every further
    [submitMonitoringResult] call for that request reverts, whoever sends it
    and whatever it reports.  A request is checked in one round only. *)
Theorem closed_round_stays_closed :
  forall (tok : IERC20) (w w' : world tok) (_requestId : uint256),
    allocated _requestId w ->
    round_closed _requestId w ->
    evolves w w' ->
    round_closed _requestId w' /\
    forall up rt e,
      (exists reason,
          submitMonitoringResult _requestId up rt e w' = Revert reason) /\
      transact (SubmitMonitoringResult _requestId up rt) e w' = w'.
Proof.
  intros tok w w' i Hi Hcl Hev.
  destruct (round_closed_evolves Hev Hi Hcl) as (_ & Hcl').
  split; [exact Hcl'|]. intros up rt e.
  destruct (@closed_round_rejects tok w' i up rt e Hcl') as (reason & Hrev).
  split; [eauto|]. apply transact_revert with (reason := reason). exact Hrev.
Qed.

Lemma closed_round_stays_closed_witness :
  round_closed 1 (Fixture.settled Ledger.Reverts) /\
  forall up rt e,
    (exists reason,
        submitMonitoringResult 1 up rt e (Fixture.settled Ledger.Reverts)
        = Revert reason) /\
    transact (SubmitMonitoringResult 1 up rt) e (Fixture.settled Ledger.Reverts)
    = Fixture.settled Ledger.Reverts.
Proof.
  exact (@closed_round_stays_closed _ _ _ 1 fixture_settled_allocated
           (round_closed_by_check _ _ fixture_all_submitted) (evolves_refl _)).
Defined.

(** X11.  In every reachable world the log holds at most one
    [ConsensusReached] event for each request, and when it holds one the
    request's round is closed: all members of its committee have submitted
    and no further result is accepted for it. *)
Theorem one_consensus_per_request :
  forall (tok : IERC20) (w : world tok),
    reachable w ->
    forall _requestId,
      (List.length (consensus_for _requestId w) <= 1)%nat /\
      (consensus_for _requestId w <> [] ->
       round_closed _requestId w /\
       forall up rt e,
         exists reason,
           submitMonitoringResult _requestId up rt e w = Revert reason).
Proof.
  intros tok w Hreach i.
  destruct (rounds_inv_reachable Hreach i) as (Hlen & Hcl).
  split; [exact Hlen|]. intros Hne. destruct (Hcl Hne) as (Hc & _).
  split; [exact Hc|]. intros up rt e. now apply closed_round_rejects.
Qed.

Lemma one_consensus_per_request_witness :
  (List.length (consensus_for 1%N (Fixture.settled Ledger.Reverts)) <= 1)%nat /\
  (consensus_for 1 (Fixture.settled Ledger.Reverts) <> [] ->
   round_closed 1 (Fixture.settled Ledger.Reverts) /\
   forall up rt e,
     exists reason,
       submitMonitoringResult 1 up rt e (Fixture.settled Ledger.Reverts)
       = Revert reason).
Proof. exact (one_consensus_per_request fixture_settled_reachable 1). Defined.

(** ** The verdict of a round *)

Lemma upCount_of_le vals : upCount_of vals <= N.of_nat (List.length vals).
Proof. unfold upCount_of. pose proof (filter_length_le fst vals). lia. Qed.

Lemma upCount_of_all vals :
  Forall (fun v => fst v = true) vals -> upCount_of vals = N.of_nat (List.length vals).
Proof.
  intros H. unfold upCount_of. rewrite filter_none; [reflexivity|].
  now apply Forall_forall.
Qed.

Lemma upCount_of_none vals :
  Forall (fun v => fst v = false) vals -> upCount_of vals = 0.
Proof.
  intros H. unfold upCount_of.
  replace (filter fst vals) with (@nil (bool * uint256)); [reflexivity|].
  symmetry. induction H as [|v rest Hv _ IH]; [reflexivity|].
  cbn [filter]. now rewrite Hv.
Qed.

(** X12.  The verdict of a round in a reachable world follows the
    majority: the submission that completes a round logs one
    [ConsensusReached] event, whose verdict is up only if strictly more
    than half of the recorded votes are up, is up when all votes are up and
    down when all votes are down (the threshold lies between 51 and 100). *)
Theorem verdict_follows_the_majority :
  forall (tok : IERC20) (w w' : world tok) (_requestId : uint256)
         (up : bool) (rt : uint256) (e : env),
    reachable w ->
    submitMonitoringResult _requestId up rt e w = Ok w' ->
    List.length (submissions _requestId w')
    = List.length (requestNodes w' _requestId) ->
    let vals := submissions _requestId w' in
    exists verdict,
      consensus_events w' =
      consensus_events w
      ++ [ConsensusReached _requestId verdict (averageResponseTime_of vals)] /\
      (verdict = true -> N.of_nat (List.length vals) < 2 * upCount_of vals) /\
      (Forall (fun v => fst v = true) vals -> verdict = true) /\
      (Forall (fun v => fst v = false) vals -> verdict = false).
Proof.
  intros tok w w' i up rt e Hreach H Hfull vals.
  assert (Hthr : 51 <= consensusThreshold w <= 100).
  { destruct Hreach as (deployer & this & tk & Hev).
    apply (threshold_evolves Hev). simpl. lia. }
  pose proof (submitMonitoringResult_inv _ _ _ _ _ H) as (_ & _ & _ & _ & Has & _).
  apply submitMonitoringResult_spec in H as (_ & Hnodes & Hsame & Hev).
  cbv zeta in Hev. fold vals in Hev, Hfull.
  apply Nat.eqb_eq in Hfull as Hfull'. rewrite Hfull' in Hev.
  assert (Hpos : 0 < N.of_nat (List.length vals)).
  { rewrite Hfull, Hnodes. unfold _isNodeAssignedToRequest in Has.
    destruct (requestNodes w i); [discriminate | cbn [Datatypes.length]; lia]. }
  pose proof (upCount_of_le vals) as Hle.
  exists (consensusIsUp_of (consensusThreshold w') vals).
  split; [exact Hev|]. rewrite Hsame. unfold consensusIsUp_of. split_all.
  - intros Hup. to_props. nia.
  - intros Hall. rewrite (upCount_of_all Hall). apply N.leb_le. nia.
  - intros Hnone. rewrite (upCount_of_none Hnone). apply N.leb_gt. nia.
Qed.

Lemma fixture_round_full :
  List.length (submissions 1 (Fixture.settled Ledger.Reverts))
  = List.length (requestNodes (Fixture.settled Ledger.Reverts) 1).
Proof. vm_compute. reflexivity. Qed.

Lemma verdict_follows_the_majority_witness :
  let vals := submissions 1 (Fixture.settled Ledger.Reverts) in
  exists verdict,
    consensus_events (Fixture.settled Ledger.Reverts) =
    consensus_events (Fixture.two_votes Ledger.Reverts)
    ++ [ConsensusReached 1 verdict (averageResponseTime_of vals)] /\
    (verdict = true -> N.of_nat (List.length vals) < 2 * upCount_of vals) /\
    (Forall (fun v => fst v = true) vals -> verdict = true) /\
    (Forall (fun v => fst v = false) vals -> verdict = false).
Proof.
  exact (@verdict_follows_the_majority _ _ _ 1 false 5000
           (Fixture.at_time Fixture.node3 32) fixture_two_votes_reachable
           third_vote_accepted fixture_round_full).
Defined.

(** ** Stakes and the pool *)

Lemma addStake_reward_token _amount e (w w1 : world RewardToken) :
  addStake _amount e w = Ok w1 ->
  let a := msg_sender e in
  MonitoringNode.isActive (monitoringNodes w a) = true /\
  _amount <= Ledger.balances (token w) a /\
  Ledger.balances (token w1)
  = Ledger.move a (self w) _amount (Ledger.balances (token w)) /\
  self w1 = self w /\
  monitoringNodes w1
  = upd (monitoringNodes w) a
      (MonitoringNode.with_stake (MonitoringNode.stake (monitoringNodes w a) + _amount)
         (monitoringNodes w a)).
Proof.
  unfold addStake, onlyRegisteredNode, bind, call_token. simpl.
  unfold Ledger.transferFrom.
  intros H. step_ok H; try discriminate. subst w1. to_props.
  match goal with
  | Hc : add_chk _ _ = Ok _ |- _ => apply add_chk_ok in Hc; simpl in Hc; subst
  end.
  simpl. auto.
Qed.

(** X13.  With the reward asset as token, for a node that is not the
    monitor itself: [addStake] raises the recorded stake by the amount paid
    in and changes nothing else in the node's record; when the node
    unregisters next, all of it comes back, the node's balance ending at
    its balance before the top-up plus the stake it held then. *)
Theorem added_stake_is_returned :
  forall (w w1 w2 : world RewardToken) (e e' : env) (_amount : uint256),
    msg_sender e' = msg_sender e ->
    msg_sender e <> self w ->
    addStake _amount e w = Ok w1 ->
    unregisterNode e' w1 = Ok w2 ->
    let a := msg_sender e in
    let n := monitoringNodes w a in
    monitoringNodes w1 a
    = MonitoringNode.with_stake (MonitoringNode.stake n + _amount) n /\
    balanceOf RewardToken (token w1) a + _amount = balanceOf RewardToken (token w) a /\
    MonitoringNode.stake (monitoringNodes w2 a) = 0 /\
    balanceOf RewardToken (token w2) a
    = balanceOf RewardToken (token w) a + MonitoringNode.stake n.
Proof.
  intros w w1 w2 e e' x Hs Hne H1 H2. cbv zeta.
  apply addStake_reward_token in H1. cbv zeta in H1.
  destruct H1 as (_ & Hb & Hbal1 & Hself & Hn).
  apply unregisterNode_reward_token in H2. cbv zeta in H2. rewrite Hs in H2.
  destruct H2 as (Hpool & Hbal2 & _ & Hzero).
  rewrite Hn, upd_same in *. simpl in Hbal2, Hpool.
  split_all; try assumption; try reflexivity; simpl.
  - rewrite Hbal1. unfold Ledger.move.
    rewrite (upd_other _ _ Hne), upd_same. lia.
  - rewrite Hbal2, Hbal1, Hself.
    assert (Hne' : self w <> msg_sender e) by congruence.
    rewrite (move_credit _ _ Hne'). unfold Ledger.move.
    rewrite (upd_other _ _ Hne), upd_same. lia.
Qed.

Lemma fixture_top_up :
  addStake (Fixture.ether 500) (Fixture.at_time Fixture.node1 11) Scenario.enrolled
  = Ok Scenario.topped_up.
Proof. vm_compute. reflexivity. Qed.

Lemma fixture_withdrawal :
  unregisterNode (Fixture.at_time Fixture.node1 12) Scenario.topped_up
  = Ok Scenario.withdrawn.
Proof. vm_compute. reflexivity. Qed.

Lemma added_stake_is_returned_witness :
  MonitoringNode.stake (monitoringNodes Scenario.withdrawn Fixture.node1) = 0 /\
  balanceOf RewardToken (token Scenario.withdrawn) Fixture.node1
  = balanceOf RewardToken (token Scenario.enrolled) Fixture.node1
    + MonitoringNode.stake (monitoringNodes Scenario.enrolled Fixture.node1).
Proof.
  assert (Hne : msg_sender (Fixture.at_time Fixture.node1 11)
                <> self Scenario.enrolled) by (vm_compute; discriminate).
  destruct (@added_stake_is_returned Scenario.enrolled Scenario.topped_up
              Scenario.withdrawn (Fixture.at_time Fixture.node1 11)
              (Fixture.at_time Fixture.node1 12) (Fixture.ether 500)
              eq_refl Hne fixture_top_up fixture_withdrawal)
    as (_ & _ & Hzero & Hback).
  exact (conj Hzero Hback).
Defined.



(** X15.  Tokens move only in [registerNode], [unregisterNode],
    [addStake], [emergencyWithdraw] and in the settlement of a round: every
    other call leaves the token as it was (creating a request costs its
    requester nothing, no reward is escrowed), and a result submission
    that changes the token has closed the round of its request. *)
Theorem tokens_move_only_in_staking_and_settlement :
  forall (tok : IERC20) (w : world tok) (c : call) (e : env),
    let w' := transact c e w in
    (moves_tokens c = false -> token w' = token w) /\
    (forall _requestId up rt,
        c = SubmitMonitoringResult _requestId up rt ->
        token w' <> token w -> round_closed _requestId w').
Proof.
  intros tok w c e. cbv zeta. unfold transact.
  destruct (exec c e w) as [w'|reason] eqn:H.
  - apply exec_token in H. split.
    + intros Hc. destruct c; try discriminate Hc; exact H.
    + intros i up rt ->. exact H.
  - split; [reflexivity|]. intros i up rt _ Hne. now contradiction Hne.
Qed.

(** *** The round trip of a stake *)









(** ** Results *)

Section Results.

Variable tok : IERC20.
Implicit Types w : world tok.

Lemma result_kept_exec c e w w' i a :
  exec c e w = Ok w' ->
  MonitoringResult.isSubmitted (monitoringResults w i a) = true ->
  monitoringResults w' i a = monitoringResults w i a.
Proof.
  intros H Hs.
  destruct c;
    try (apply exec_frame in H as (Hr & _ & _); now rewrite Hr).
  - created H requestId w1.
    apply createMonitoringRequest_spec in H as (_ & _ & _ & Hr & _).
    now rewrite Hr.
  - cbn [exec] in H.
    pose proof (submitMonitoringResult_inv _ _ _ _ _ H) as (_ & _ & _ & Hnot & _).
    apply submitMonitoringResult_spec in H as (Hr & _).
    rewrite Hr. unfold upd.
    destruct (i =? _requestId) eqn:Ei; [|reflexivity].
    destruct (a =? msg_sender e) eqn:Ea; [|to_props; now subst].
    to_props. subst. congruence.
Qed.

Lemma result_kept_evolves w w' i a :
  evolves w w' ->
  MonitoringResult.isSubmitted (monitoringResults w i a) = true ->
  monitoringResults w' i a = monitoringResults w i a.
Proof.
  induction 1 as [w | c e w w' _ IH | tk w w' _ IH]; intros Hs.
  - reflexivity.
  - specialize (IH Hs). unfold transact.
    destruct (exec c e w') as [w2|reason] eqn:Hx; [|assumption].
    rewrite <- IH. apply (@result_kept_exec c e w' w2 i a Hx). now rewrite IH.
  - exact (IH Hs).
Qed.

End Results.

(** X16.  Results are written once: a successful submission stores the
    sender, the vote, the response time and the block time in the slot of
    that request and node, and nothing that happens later, settlement
    included, overwrites or erases a stored result. *)
Theorem results_are_write_once :
  forall (tok : IERC20) (w0 w1 w : world tok) (_requestId : uint256)
         (up : bool) (rt : uint256) (e : env),
    submitMonitoringResult _requestId up rt e w0 = Ok w1 ->
    evolves w1 w ->
    monitoringResults w _requestId (msg_sender e)
    = MonitoringResult.mk (msg_sender e) up rt (block_timestamp e) true /\
    forall i a,
      MonitoringResult.isSubmitted (monitoringResults w1 i a) = true ->
      monitoringResults w i a = monitoringResults w1 i a.
Proof.
  intros tok w0 w1 w i up rt e H Hev.
  apply submitMonitoringResult_spec in H as (Hr & _).
  assert (Hnew : monitoringResults w1 i (msg_sender e)
                 = MonitoringResult.mk (msg_sender e) up rt (block_timestamp e) true)
    by now rewrite Hr, !upd_same.
  split.
  - rewrite <- Hnew. apply (result_kept_evolves _ _ Hev). now rewrite Hnew.
  - intros j a. now apply result_kept_evolves.
Qed.

Lemma results_are_write_once_witness :
  let e := Fixture.at_time Fixture.node1 30 in
  monitoringResults (Fixture.settled Ledger.Reverts) 1 (msg_sender e)
  = MonitoringResult.mk (msg_sender e) true 200 (block_timestamp e) true.
Proof.
  exact (proj1 (@results_are_write_once _ _ _ _ 1 true 200
                  (Fixture.at_time Fixture.node1 30) fixture_first_vote
                  fixture_settled_later)).
Defined.

(** ** The observer node's check queue *)

Section QueueFacts.
Import Scheduler.

Lemma precedes_total a b : precedes a b \/ precedes b a.
Proof.
  unfold precedes, compare_checks.
  destruct (Z.eqb_spec (priority a) (priority b)) as [E|E];
    destruct (Z.eqb_spec (priority b) (priority a)) as [E'|E']; simpl; lia.
Qed.

Lemma precedes_trans a b c : precedes a b -> precedes b c -> precedes a c.
Proof.
  unfold precedes, compare_checks.
  destruct (Z.eqb_spec (priority a) (priority b));
    destruct (Z.eqb_spec (priority b) (priority c));
    destruct (Z.eqb_spec (priority a) (priority c)); simpl; lia.
Qed.

Lemma insert_perm a l : Permutation (insert a l) (a :: l).
Proof.
  induction l as [|b rest IH]; [reflexivity|]. cbn [insert].
  destruct (compare_checks a b <=? 0)%Z; [reflexivity|].
  rewrite IH. apply perm_swap.
Qed.

Lemma sort_perm l : Permutation (sort l) l.
Proof.
  induction l as [|a rest IH]; [reflexivity|]. cbn [sort fold_right].
  fold (sort rest). rewrite insert_perm. now apply perm_skip.
Qed.

Lemma insert_sorted a l :
  StronglySorted precedes l -> StronglySorted precedes (insert a l).
Proof.
  induction 1 as [|b rest Hs IH Hb]; cbn [insert].
  - repeat constructor.
  - destruct (compare_checks a b <=? 0)%Z eqn:E.
    + apply Z.leb_le in E. constructor; [now constructor|].
      constructor; [exact E|].
      apply Forall_forall. intros c Hc.
      apply (precedes_trans E). revert c Hc. now apply Forall_forall.
    + apply Z.leb_gt in E. constructor; [exact IH|].
      apply Forall_forall. intros c Hc.
      apply (Permutation_in _ (insert_perm a rest)) in Hc.
      destruct Hc as [<-|Hc].
      * destruct (precedes_total b a) as [H|H]; [exact H|].
        unfold precedes in H. lia.
      * revert c Hc. now apply Forall_forall.
Qed.

Lemma sort_sorted l : StronglySorted precedes (sort l).
Proof.
  induction l as [|a rest IH]; [constructor|].
  cbn [sort fold_right]. now apply insert_sorted.
Qed.

Lemma sorted_split {A : Type} (R : A -> A -> Prop) (k : nat) (l : list A) :
  StronglySorted R l ->
  forall a b, In a (firstn k l) -> In b (skipn k l) -> R a b.
Proof.
  intros Hs. revert k. induction Hs as [|x rest Hs IH Hx]; intros k a b Ha Hb.
  - rewrite firstn_nil in Ha. contradiction.
  - destruct k as [|k]; [contradiction|]. cbn [firstn skipn] in Ha, Hb.
    destruct Ha as [<-|Ha].
    + apply (proj1 (Forall_forall _ _) Hx).
      rewrite <- (firstn_skipn k rest). apply in_or_app. now right.
    + now apply (IH k).
Qed.

Lemma sorted_firstn {A : Type} (R : A -> A -> Prop) (k : nat) (l : list A) :
  StronglySorted R l -> StronglySorted R (firstn k l).
Proof.
  intros Hs. revert k. induction Hs as [|x rest Hs IH Hx]; intros k.
  - rewrite firstn_nil. constructor.
  - destruct k as [|k]; [constructor|]. cbn [firstn]. constructor; [apply IH|].
    apply Forall_forall. intros y Hy. apply (proj1 (Forall_forall _ _) Hx).
    rewrite <- (firstn_skipn k rest). apply in_or_app. now left.
Qed.

Lemma store_same h ref r : store h ref r ref = r.
Proof. unfold store. now rewrite Nat.eqb_refl. Qed.

Lemma store_other h ref ref' r : ref' <> ref -> store h ref r ref' = h ref'.
Proof. unfold store. intros H. apply Nat.eqb_neq in H. now rewrite H. Qed.

Lemma to_double_exact z : exact z -> to_double z = z.
Proof. unfold exact, to_double. intros H. apply Z.leb_le in H. now rewrite H. Qed.

Lemma enqueue_if_due_spec now st entry :
  let st1 := enqueue_if_due now st entry in
  let h1 := if is_due now (heap st) entry
            then store (heap st) (snd entry)
                   (with_nextCheck
                      (to_double
                         (now + to_double
                                  (interval (info (heap st (snd entry))) * 1000)))
                      (heap st (snd entry)))
            else heap st in
  checkQueue st1
  = checkQueue st
    ++ (if is_due now (heap st) entry then [check_of now (heap st) entry] else []) /\
  heap st1 = h1 /\
  assignedRequests st1 = assignedRequests st /\
  next_ref st1 = next_ref st /\
  isProcessingQueue st1 = isProcessingQueue st /\
  stats st1 = stats st.
Proof.
  destruct entry as [k r]. unfold enqueue_if_due, is_due, check_of. cbn [fst snd].
  destruct (nextCheck (heap st r) <=? now)%Z; cbn; split_all;
    try reflexivity. now rewrite app_nil_r.
Qed.

Lemma enqueue_fold_frame now l :
  forall st,
    assignedRequests (fold_left (enqueue_if_due now) l st) = assignedRequests st.
Proof.
  induction l as [|entry rest IH]; intros st; cbn [fold_left]; [reflexivity|].
  rewrite IH. now destruct (enqueue_if_due_spec now st entry) as (_ & _ & Ha & _).
Qed.

(** The loop that adds the due checks, over entries with distinct
    references. *)
Lemma enqueue_fold now l :
  forall st,
    NoDup (map snd l) ->
    let st' := fold_left (enqueue_if_due now) l st in
    checkQueue st'
    = checkQueue st ++ map (check_of now (heap st)) (filter (is_due now (heap st)) l) /\
    (forall entry, In entry l ->
       heap st' (snd entry)
       = if is_due now (heap st) entry
         then with_nextCheck
                (to_double
                   (now + to_double (interval (info (heap st (snd entry))) * 1000)))
                (heap st (snd entry))
         else heap st (snd entry)) /\
    (forall ref, ~ In ref (map snd l) -> heap st' ref = heap st ref) /\
    assignedRequests st' = assignedRequests st /\
    next_ref st' = next_ref st /\
    isProcessingQueue st' = isProcessingQueue st /\
    stats st' = stats st.
Proof.
  induction l as [|entry0 rest IH]; intros st Hnd; cbn [fold_left]; cbv zeta.
  - cbn [filter map]. rewrite app_nil_r. split_all; auto. intros entry [].
  - cbn [map] in Hnd. apply NoDup_cons_iff in Hnd as [Hr Hnd].
    destruct (enqueue_if_due_spec now st entry0) as (Hq1 & Hh1 & Ha1 & Hn1 & Hp1 & Hs1).
    cbv zeta in Hq1, Hh1.
    set (st1 := enqueue_if_due now st entry0) in *.
    destruct (IH st1 Hnd) as (Hq & Hdue & Hother & Ha & Hn & Hp & Hs).
    clear IH. cbv zeta in Hq, Hdue, Hother.
    assert (Hsame : forall ref, ref <> snd entry0 -> heap st1 ref = heap st ref).
    { intros ref Hne. rewrite Hh1.
      destruct (is_due now (heap st) entry0); [now apply store_other | reflexivity]. }
    assert (Hrest : forall entry, In entry rest -> snd entry <> snd entry0).
    { intros entry Hin E. apply Hr. rewrite <- E. now apply in_map. }
    assert (Hfilter : filter (is_due now (heap st1)) rest
                      = filter (is_due now (heap st)) rest).
    { apply filter_ext_in. intros entry Hin. unfold is_due.
      now rewrite Hsame by now apply Hrest. }
    assert (Hmap : map (check_of now (heap st1)) (filter (is_due now (heap st)) rest)
                   = map (check_of now (heap st)) (filter (is_due now (heap st)) rest)).
    { apply map_ext_in. intros entry Hin. apply filter_In in Hin as [Hin _].
      unfold check_of. now rewrite Hsame by now apply Hrest. }
    rewrite Hq, Hfilter, Hmap, Hq1, Ha, Hn, Hp, Hs. cbn [filter].
    split_all; auto.
    + destruct (is_due now (heap st) entry0); cbn [map];
        rewrite <- app_assoc; reflexivity.
    + intros entry [<-|Hin].
      * rewrite Hother by assumption. rewrite Hh1.
        destruct (is_due now (heap st) entry0); [apply store_same | reflexivity].
      * rewrite (Hdue entry Hin). unfold is_due.
        now rewrite !(Hsame _ (Hrest entry Hin)).
    + intros ref Hnot. cbn [map In] in Hnot.
      rewrite Hother by tauto. apply Hsame. intros E. apply Hnot. now left.
Qed.

End QueueFacts.

Lemma filter_nothing {A : Type} (f : A -> bool) (l : list A) :
  (forall x, In x l -> f x = false) -> filter f l = [].
Proof.
  induction l as [|y tl IH]; intros H; [reflexivity|].
  cbn [filter]. rewrite (H y) by now left. apply IH.
  intros x Hx. apply H. now right.
Qed.

Ltac distinct_strings :=
  repeat match goal with
         | |- NoDup _ => constructor
         | |- ~ In _ _ => let H := fresh in intros H; simpl in H
         | H : _ \/ _ |- _ => destruct H
         | H : False |- _ => destruct H
         | H : _ = _ |- _ => discriminate H
         end.

Lemma synced_well_formed : Scheduler.well_formed NodeScenario.synced.
Proof.
  unfold Scheduler.well_formed.
  change (Scheduler.assignedRequests NodeScenario.synced)
    with [("1"%string, 0%nat); ("2"%string, 1%nat)].
  change (Scheduler.next_ref NodeScenario.synced) with 2%nat.
  cbn [map fst snd]. split_all; try distinct_strings.
  intros ref [<-|[<-|[]]]; lia.
Qed.

Lemma synced_idle : Scheduler.isProcessingQueue NodeScenario.synced = false.
Proof. reflexivity. Qed.

(** X17.  One pass of [processCheckQueue] on an idle node with a
    well-formed cache: the checks it starts together with the checks it
    leaves in the queue are the old queue plus one check for every cached
    request that is due, no check lost or doubled; taken together they are
    in the order of the comparator (higher priority first, then earlier
    timestamp), so every check started precedes every check left waiting;
    and the number of checks started is the smaller of [maxConcurrent] and
    the number of checks at hand.  On a node that is already processing,
    the pass does nothing. *)
Theorem check_batch_is_bounded_and_ordered :
  forall (now maxConcurrent : Z) (st : Scheduler.t),
    Scheduler.well_formed st ->
    let st' := fst (Scheduler.processCheckQueue now maxConcurrent st) in
    let batch := snd (Scheduler.processCheckQueue now maxConcurrent st) in
    let due :=
      map (Scheduler.check_of now (Scheduler.heap st))
        (filter (Scheduler.is_due now (Scheduler.heap st))
           (Scheduler.assignedRequests st)) in
    (Scheduler.isProcessingQueue st = true -> st' = st /\ batch = []) /\
    (Scheduler.isProcessingQueue st = false ->
     Permutation (batch ++ Scheduler.checkQueue st') (Scheduler.checkQueue st ++ due) /\
     StronglySorted Scheduler.precedes (batch ++ Scheduler.checkQueue st') /\
     List.length batch
     = Nat.min (Z.to_nat maxConcurrent)
         (List.length (Scheduler.checkQueue st) + List.length due) /\
     Scheduler.isProcessingQueue st' = true).
Proof.
  intros now k st (_ & Hrefs & _). cbv zeta. unfold Scheduler.processCheckQueue.
  destruct (Scheduler.isProcessingQueue st) eqn:Hbusy;
    (split; intros Hb; [|]); try discriminate Hb; [now split|].
  cbn [fst snd Scheduler.checkQueue Scheduler.set_checkQueue
         Scheduler.isProcessingQueue].
  destruct (enqueue_fold now (Scheduler.assignedRequests st)
              (Scheduler.set_isProcessingQueue true st) Hrefs)
    as (Hq & _ & _ & _ & _ & Hp & _).
  cbv zeta in Hq. cbn [Scheduler.assignedRequests Scheduler.set_isProcessingQueue].
  cbn [Scheduler.checkQueue Scheduler.heap Scheduler.set_isProcessingQueue] in Hq.
  cbn [Scheduler.isProcessingQueue Scheduler.set_isProcessingQueue] in Hp.
  rewrite Hq, firstn_skipn. split_all.
  - apply sort_perm.
  - apply sort_sorted.
  - rewrite length_firstn, (Permutation_length (sort_perm _)), length_app.
    reflexivity.
  - exact Hp.
Qed.

Lemma check_batch_is_bounded_and_ordered_witness :
  let st' := fst (Scheduler.processCheckQueue 1000 1 NodeScenario.synced) in
  let batch := snd (Scheduler.processCheckQueue 1000 1 NodeScenario.synced) in
  StronglySorted Scheduler.precedes (batch ++ Scheduler.checkQueue st') /\
  List.length batch
  = Nat.min (Z.to_nat 1)
      (List.length (Scheduler.checkQueue NodeScenario.synced)
       + List.length
           (map (Scheduler.check_of 1000 (Scheduler.heap NodeScenario.synced))
              (filter (Scheduler.is_due 1000 (Scheduler.heap NodeScenario.synced))
                 (Scheduler.assignedRequests NodeScenario.synced)))).
Proof.
  destruct (proj2 (check_batch_is_bounded_and_ordered 1000 1 synced_well_formed)
              synced_idle) as (_ & Hsorted & Hlen & _).
  exact (conj Hsorted Hlen).
Defined.

(** X18.  One pass of [processCheckQueue] on an idle node with a
    well-formed cache leaves the cache entries in place, gives every
    request that is due ([nextCheck <= now]) the next check time that
    [now + interval * 1000] is in doubles, and leaves the requests that are
    not due untouched.  Where the product and the sum are at most [2^53] in
    magnitude the next check time is exactly [now + interval * 1000].  When
    that holds of every cached request and the intervals are positive, no
    cached request is due at [now] afterwards: a second pass at the same
    clock reading starts no check twice. *)
Theorem due_requests_are_rescheduled :
  forall (now maxConcurrent : Z) (st : Scheduler.t),
    Scheduler.well_formed st ->
    Scheduler.isProcessingQueue st = false ->
    let st' := fst (Scheduler.processCheckQueue now maxConcurrent st) in
    let delay entry :=
      (Scheduler.interval (Scheduler.info (Scheduler.heap st (snd entry))) * 1000)%Z in
    Scheduler.assignedRequests st' = Scheduler.assignedRequests st /\
    (forall entry,
        In entry (Scheduler.assignedRequests st) ->
        let request := Scheduler.heap st (snd entry) in
        Scheduler.heap st' (snd entry)
        = if (Scheduler.nextCheck request <=? now)%Z
          then Scheduler.with_nextCheck
                 (Scheduler.to_double (now + Scheduler.to_double (delay entry)))
                 request
          else request) /\
    (forall entry,
        In entry (Scheduler.assignedRequests st) ->
        (Scheduler.nextCheck (Scheduler.heap st (snd entry)) <= now)%Z ->
        Scheduler.exact (delay entry) ->
        Scheduler.exact (now + delay entry) ->
        Scheduler.nextCheck (Scheduler.heap st' (snd entry))
        = (now + delay entry)%Z) /\
    ((forall entry,
         In entry (Scheduler.assignedRequests st) ->
         (0 < delay entry)%Z /\
         Scheduler.exact (delay entry) /\ Scheduler.exact (now + delay entry)) ->
     filter (Scheduler.is_due now (Scheduler.heap st')) (Scheduler.assignedRequests st')
     = []).
Proof.
  intros now k st (_ & Hrefs & _) Hidle. cbv zeta.
  unfold Scheduler.processCheckQueue. rewrite Hidle.
  cbn [fst Scheduler.assignedRequests Scheduler.heap Scheduler.set_checkQueue].
  destruct (enqueue_fold now (Scheduler.assignedRequests st)
              (Scheduler.set_isProcessingQueue true st) Hrefs)
    as (_ & Hdue & _ & Ha & _).
  cbv zeta in Hdue.
  cbn [Scheduler.assignedRequests Scheduler.heap Scheduler.set_isProcessingQueue]
    in Hdue, Ha.
  cbn [Scheduler.assignedRequests Scheduler.set_isProcessingQueue].
  assert (Hexact : forall entry,
             In entry (Scheduler.assignedRequests st) ->
             (Scheduler.nextCheck (Scheduler.heap st (snd entry)) <= now)%Z ->
             Scheduler.exact
               (Scheduler.interval (Scheduler.info (Scheduler.heap st (snd entry)))
                * 1000) ->
             Scheduler.exact
               (now + Scheduler.interval (Scheduler.info (Scheduler.heap st (snd entry)))
                      * 1000) ->
             Scheduler.nextCheck
               (Scheduler.heap
                  (fold_left (Scheduler.enqueue_if_due now)
                     (Scheduler.assignedRequests st)
                     (Scheduler.set_isProcessingQueue true st)) (snd entry))
             = (now + Scheduler.interval (Scheduler.info (Scheduler.heap st (snd entry)))
                      * 1000)%Z).
  { intros entry Hin Hle Hd Hs. rewrite (Hdue entry Hin). unfold Scheduler.is_due.
    apply Z.leb_le in Hle. rewrite Hle.
    cbn [Scheduler.nextCheck Scheduler.with_nextCheck].
    rewrite (to_double_exact Hd). apply (to_double_exact Hs). }
  split_all.
  - exact Ha.
  - exact Hdue.
  - exact Hexact.
  - intros Hpos. rewrite Ha. apply filter_nothing. intros entry Hin.
    destruct (Hpos entry Hin) as (Hp & Hd & Hs).
    destruct (Scheduler.nextCheck (Scheduler.heap st (snd entry)) <=? now)%Z eqn:E.
    + unfold Scheduler.is_due. apply Z.leb_le in E.
      rewrite (Hexact entry Hin E Hd Hs). apply Z.leb_gt. lia.
    + unfold Scheduler.is_due. rewrite (Hdue entry Hin). unfold Scheduler.is_due.
      rewrite E. exact E.
Qed.

Lemma due_requests_are_rescheduled_witness :
  let st' := fst (Scheduler.processCheckQueue 1000 1 NodeScenario.synced) in
  Scheduler.assignedRequests st' = Scheduler.assignedRequests NodeScenario.synced /\
  Scheduler.nextCheck (Scheduler.heap st' 0%nat) = 301000%Z /\
  filter (Scheduler.is_due 1000 (Scheduler.heap st')) (Scheduler.assignedRequests st')
  = [].
Proof.
  destruct (@due_requests_are_rescheduled 1000 1 NodeScenario.synced
              synced_well_formed synced_idle) as (Ha & _ & Hexact & Hnone).
  split; [exact Ha|]. split.
  - apply (Hexact ("1"%string, 0%nat)); try (now left);
      try (unfold Scheduler.exact); apply Z.leb_le; reflexivity.
  - apply Hnone.
    change (Scheduler.assignedRequests NodeScenario.synced)
      with [("1"%string, 0%nat); ("2"%string, 1%nat)].
    intros entry [<-|[<-|[]]]; split_all; try reflexivity;
      unfold Scheduler.exact; apply Z.leb_le; reflexivity.
Defined.

(** ** The observer node's request cache *)

Section CacheFacts.
Import Scheduler.

Lemma has_In k m : has k m = true <-> In k (map fst m).
Proof.
  unfold has. rewrite existsb_exists, in_map_iff. split.
  - intros (entry & Hin & E). apply String.eqb_eq in E. eauto.
  - intros (entry & E & Hin). exists entry. split; [exact Hin|].
    now apply String.eqb_eq.
Qed.

Lemma has_not_In k m : has k m = false <-> ~ In k (map fst m).
Proof.
  rewrite <- has_In. destruct (has k m); split; intros; congruence.
Qed.

Lemma includes_In ids k : includes ids k = true <-> In k ids.
Proof.
  unfold includes. rewrite existsb_exists. split.
  - intros (x & Hin & E). apply String.eqb_eq in E. now subst.
  - intros Hin. exists k. split; [exact Hin | apply String.eqb_refl].
Qed.

Lemma filter_keeps_distinct {A : Type} (proj : string * nat -> A)
  (keep : string * nat -> bool) (m : list (string * nat)) :
  NoDup (map proj m) -> NoDup (map proj (filter keep m)).
Proof.
  induction m as [|entry rest IH]; cbn [map filter]; intros Hnd; [constructor|].
  apply NoDup_cons_iff in Hnd as [Hnew Hnd].
  destruct (keep entry); cbn [map]; [|now apply IH].
  constructor; [|now apply IH].
  intros Hin. apply Hnew. apply in_map_iff in Hin as (other & E & Hin).
  apply filter_In in Hin as [Hin _]. apply in_map_iff. eauto.
Qed.

Lemma add_assigned_spec getRequestInfo now ids :
  forall st st' completed,
    well_formed st ->
    add_assigned ids getRequestInfo now st = (st', completed) ->
    well_formed st' /\
    (next_ref st <= next_ref st')%nat /\
    (exists added,
        assignedRequests st' = assignedRequests st ++ added /\
        forall k r,
          In (k, r) added ->
          In k ids /\ ~ In k (map fst (assignedRequests st)) /\
          (next_ref st <= r)%nat /\
          exists requestInfo,
            getRequestInfo k = Some requestInfo /\
            heap st' r = {| info := requestInfo; lastChecked := 0;
                            nextCheck := now k; own_priority := None |}) /\
    (forall r, (r < next_ref st)%nat -> heap st' r = heap st r) /\
    (completed = true ->
     forall k, In k ids -> In k (map fst (assignedRequests st'))) /\
    (completed = false ->
     exists k, In k ids /\ getRequestInfo k = None /\
               ~ In k (map fst (assignedRequests st))) /\
    checkQueue st' = checkQueue st /\
    isProcessingQueue st' = isProcessingQueue st /\
    stats st' = stats st.
Proof.
  induction ids as [|k rest IH]; intros st st' completed Hwf H; cbn [add_assigned] in H.
  - injection H as <- <-. split_all; auto; try discriminate.
    + exists []. split; [now rewrite app_nil_r | intros k r []].
    + intros _ k [].
  - destruct (has k (assignedRequests st)) eqn:Hhas; cbn [negb] in H.
    + (* already cached *)
      destruct (IH _ _ _ Hwf H)
        as (Hwf' & Hn & (added & Ha & Hadded) & Hheap & Hall & Hfail & Hq & Hp & Hs).
      split_all; auto.
      * exists added. split; [exact Ha|]. intros k' r Hin.
        destruct (Hadded k' r Hin) as (Hk & Hrest). split; [now right | exact Hrest].
      * intros Hc k' [<-|Hk]; [|now apply Hall].
        rewrite Ha, map_app. apply in_or_app. left. now apply has_In.
      * intros Hc. destruct (Hfail Hc) as (k' & Hk & Hrest).
        exists k'. split; [now right | exact Hrest].
    + apply has_not_In in Hhas.
      destruct (getRequestInfo k) as [requestInfo|] eqn:Hg.
      * (* a new request *)
        destruct Hwf as (Hkeys & Hrefs & Hlt).
        match type of H with
        | add_assigned _ _ _ ?s = _ => set (st1 := s) in *
        end.
        assert (Hwf1 : well_formed st1).
        { unfold well_formed. subst st1. unfold add_request.
          cbn [assignedRequests next_ref set_assignedRequests set_next_ref set_heap].
          rewrite !map_app. cbn [map fst snd]. split_all.
          - apply (Permutation_NoDup (Permutation_cons_append _ _)).
            now constructor.
          - apply (Permutation_NoDup (Permutation_cons_append _ _)).
            constructor; [|exact Hrefs]. intros Hin. apply Hlt in Hin. lia.
          - intros ref Hin. apply in_app_or in Hin as [Hin|[<-|[]]]; [|lia].
            apply Hlt in Hin. lia. }
        destruct (IH _ _ _ Hwf1 H)
          as (Hwf' & Hn & (added & Ha & Hadded) & Hheap & Hall & Hfail & Hq & Hp & Hs).
        subst st1. unfold add_request in *.
        cbn [assignedRequests next_ref heap checkQueue isProcessingQueue stats
               set_assignedRequests set_next_ref set_heap] in *.
        split_all; auto; try lia.
        -- exists ((k, next_ref st) :: added). split.
           ++ rewrite Ha, <- app_assoc. reflexivity.
           ++ intros k' r [E|Hin].
              ** injection E as <- <-. split_all; auto; [now left|].
                 exists requestInfo. split; [exact Hg|].
                 rewrite Hheap by lia. apply store_same.
              ** destruct (Hadded k' r Hin) as (Hk & Hnew & Hr & Hobj).
                 split_all; auto; [now right | | lia].
                 intros Hold. apply Hnew. rewrite map_app. apply in_or_app. now left.
        -- intros r Hr. rewrite Hheap by lia. apply store_other. lia.
        -- intros Hc k' [<-|Hk]; [|now apply Hall].
           rewrite Ha, !map_app. apply in_or_app. left. apply in_or_app.
           right. now left.
        -- intros Hc. destruct (Hfail Hc) as (k' & Hk & Hnone & Hnew).
           exists k'. split_all; auto; [now right|].
           intros Hold. apply Hnew. rewrite map_app. apply in_or_app. now left.
      * (* the lookup throws *)
        injection H as <- <-. split_all; auto; try discriminate.
        -- exists []. split; [now rewrite app_nil_r | intros k' r []].
        -- intros _. exists k. split_all; auto. now left.
Qed.

End CacheFacts.

(** X19.  A synchronisation in which every lookup of a new request
    succeeds leaves the cache holding exactly the requests of the ledger's
    list, each once: the requests no longer on the list are dropped (all of
    them when the list is empty, which is also what a ledger that cannot be
    read yields); a request cached before and still listed keeps its
    object, with its check times; a request that is new gets a fresh
    object with the looked-up record, [lastChecked] 0, the current time as
    [nextCheck], so that it is due at once, and no [priority]. *)
Theorem sync_mirrors_the_assignment :
  forall (ids : list string)
         (getRequestInfo : string -> option Scheduler.request_info)
         (now : string -> Z) (st : Scheduler.t),
    Scheduler.well_formed st ->
    (forall k, In k ids -> Scheduler.has k (Scheduler.assignedRequests st) = false ->
               getRequestInfo k <> None) ->
    let st' := Scheduler.syncWithBlockchain ids getRequestInfo now st in
    Scheduler.well_formed st' /\
    (forall k, Scheduler.has k (Scheduler.assignedRequests st') = true <-> In k ids) /\
    (forall k ref,
        In (k, ref) (Scheduler.assignedRequests st) -> In k ids ->
        In (k, ref) (Scheduler.assignedRequests st') /\
        Scheduler.heap st' ref = Scheduler.heap st ref) /\
    (forall k ref,
        In (k, ref) (Scheduler.assignedRequests st') ->
        Scheduler.has k (Scheduler.assignedRequests st) = false ->
        exists requestInfo,
          getRequestInfo k = Some requestInfo /\
          Scheduler.heap st' ref
          = Scheduler.Build_request requestInfo 0 (now k) None).
Proof.
  intros ids g now st Hwf Hfound. cbv zeta. unfold Scheduler.syncWithBlockchain.
  destruct (Scheduler.add_assigned ids g now st) as [st1 completed] eqn:H.
  destruct (@add_assigned_spec g now ids st st1 completed Hwf H)
    as (Hwf1 & _ & (added & Ha & Hadded) & Hheap & Hall & Hfail & _).
  destruct completed.
  2:{ destruct (Hfail eq_refl) as (k & Hk & Hnone & Hnew).
      apply has_not_In in Hnew. now destruct (Hfound k Hk Hnew). }
  clear Hfail. specialize (Hall eq_refl).
  destruct Hwf as (_ & _ & Hlt). destruct Hwf1 as (Hkeys1 & Hrefs1 & Hlt1).
  unfold Scheduler.remove_unassigned, Scheduler.well_formed.
  cbn [Scheduler.assignedRequests Scheduler.heap Scheduler.next_ref
         Scheduler.set_assignedRequests].
  split_all.
  - now apply filter_keeps_distinct.
  - now apply filter_keeps_distinct.
  - intros ref Hin. apply Hlt1. apply in_map_iff in Hin as (entry & E & Hin).
    apply filter_In in Hin as [Hin _]. apply in_map_iff. eauto.
  - intros k. rewrite has_In, in_map_iff. split.
    + intros (entry & <- & Hin). apply filter_In in Hin as [_ Hin].
      now apply includes_In.
    + intros Hk. destruct (proj1 (in_map_iff _ _ _) (Hall k Hk)) as (entry & E & Hin).
      exists entry. split; [exact E|]. apply filter_In. split; [exact Hin|].
      rewrite E. now apply includes_In.
  - intros k ref Hin Hk. split.
    + apply filter_In. split; [|now apply includes_In].
      rewrite Ha. apply in_or_app. now left.
    + apply Hheap, Hlt. apply in_map_iff. exists (k, ref). auto.
  - intros k ref Hin Hnew. apply filter_In in Hin as [Hin _].
    apply has_not_In in Hnew. rewrite Ha in Hin.
    apply in_app_or in Hin as [Hin|Hin].
    + exfalso. apply Hnew. apply in_map_iff. exists (k, ref). auto.
    + now destruct (Hadded k ref Hin) as (_ & _ & _ & Hobj).
Qed.

Lemma initial_well_formed now : Scheduler.well_formed (Scheduler.initial now).
Proof.
  unfold Scheduler.well_formed. simpl. split_all; try constructor. intros ref [].
Qed.

Lemma sync_mirrors_the_assignment_witness :
  Scheduler.has "2" (Scheduler.assignedRequests NodeScenario.synced) = true
  <-> In "2"%string ["1"; "2"]%string.
Proof.
  assert (Hfound : forall k,
             In k ["1"; "2"]%string ->
             Scheduler.has k (Scheduler.assignedRequests (Scheduler.initial 0)) = false ->
             NodeScenario.getRequestInfo k <> None).
  { intros k [<-|[<-|[]]] _; discriminate. }
  exact (proj1 (proj2 (@sync_mirrors_the_assignment ["1"; "2"]%string
                         NodeScenario.getRequestInfo (fun _ => 1000%Z)
                         (Scheduler.initial 0) (initial_well_formed 0) Hfound))
           "2"%string).
Defined.

(** X20.  A lookup that throws ends the synchronisation at once: when the
    ledger's list holds a request that is not cached and whose record
    cannot be read, nothing is removed from the cache, the entries of
    requests that are no longer assigned included, and that request is not
    added. *)
Theorem failed_lookup_aborts_sync :
  forall (ids : list string)
         (getRequestInfo : string -> option Scheduler.request_info)
         (now : string -> Z) (st : Scheduler.t) (k : string),
    Scheduler.well_formed st ->
    In k ids ->
    Scheduler.has k (Scheduler.assignedRequests st) = false ->
    getRequestInfo k = None ->
    let st' := Scheduler.syncWithBlockchain ids getRequestInfo now st in
    (forall entry,
        In entry (Scheduler.assignedRequests st) ->
        In entry (Scheduler.assignedRequests st')) /\
    Scheduler.has k (Scheduler.assignedRequests st') = false.
Proof.
  intros ids g now st k Hwf Hk Hnew Hnone. cbv zeta.
  unfold Scheduler.syncWithBlockchain.
  destruct (Scheduler.add_assigned ids g now st) as [st1 completed] eqn:H.
  destruct (@add_assigned_spec g now ids st st1 completed Hwf H)
    as (_ & _ & (added & Ha & Hadded) & _ & Hall & _).
  apply has_not_In in Hnew.
  assert (Hnot : ~ In k (map fst (Scheduler.assignedRequests st1))).
  { rewrite Ha, map_app. intros Hin. apply in_app_or in Hin as [Hin|Hin];
      [contradiction|].
    apply in_map_iff in Hin as ([k' r] & E & Hin). cbn [fst] in E. subst k'.
    destruct (Hadded k r Hin) as (_ & _ & _ & inf & Hg & _). congruence. }
  destruct completed; [now destruct (Hnot (Hall eq_refl k Hk))|].
  split.
  - intros entry Hin. rewrite Ha. apply in_or_app. now left.
  - now apply has_not_In.
Qed.

Lemma failed_lookup_aborts_sync_witness :
  let st' :=
    Scheduler.syncWithBlockchain ["3"]%string NodeScenario.getRequestInfo
      (fun _ => 2000%Z) NodeScenario.synced in
  (forall entry,
      In entry (Scheduler.assignedRequests NodeScenario.synced) ->
      In entry (Scheduler.assignedRequests st')) /\
  Scheduler.has "3" (Scheduler.assignedRequests st') = false.
Proof.
  exact (@failed_lookup_aborts_sync ["3"]%string NodeScenario.getRequestInfo
           (fun _ => 2000%Z) NodeScenario.synced "3"%string synced_well_formed
           (or_introl eq_refl) eq_refl eq_refl).
Defined.

(** ** Runs of the observer node *)

Section RunFacts.
Import Scheduler.

Lemma runs_trans st1 st2 st3 : runs st1 st2 -> runs st2 st3 -> runs st1 st3.
Proof.
  intros H12 H23. induction H23 as [st | st st' st'' _ IH Hstep]; [exact H12|].
  exact (runs_step (IH H12) Hstep).
Qed.

(** A synchronisation and a check, as runs. *)
Lemma add_assigned_runs getRequestInfo now ids :
  forall st, runs st (fst (add_assigned ids getRequestInfo now st)).
Proof.
  induction ids as [|k rest IH]; intros st; cbn [add_assigned]; [apply runs_refl|].
  destruct (has k (assignedRequests st)) eqn:Hhas; cbn [negb]; [apply IH|].
  destruct (getRequestInfo k) as [requestInfo|]; [|apply runs_refl].
  refine (runs_trans _ (IH _)).
  exact (runs_step (runs_refl st) (step_add k requestInfo (now k) st Hhas)).
Qed.

Lemma syncWithBlockchain_runs ids getRequestInfo now st :
  runs st (syncWithBlockchain ids getRequestInfo now st).
Proof.
  unfold syncWithBlockchain.
  pose proof (add_assigned_runs getRequestInfo now ids st) as H.
  destruct (add_assigned ids getRequestInfo now st) as [st1 completed].
  cbn [fst] in H. destruct completed; [|exact H].
  exact (runs_step H (step_remove ids st1)).
Qed.

Lemma performMonitoringCheck_runs requestId ref sentAt answeredAt checkedAt failedAt
  r submit_throws st :
  runs st (fst (performMonitoringCheck requestId ref sentAt answeredAt checkedAt
                  failedAt r submit_throws st)).
Proof.
  unfold performMonitoringCheck. cbn [fst].
  pose proof (runs_step (runs_refl st)
                (step_probe ref checkedAt (Probe.httpCheck sentAt answeredAt r) st))
    as Hprobe.
  destruct (submit_throws _) as [message|]; [|exact Hprobe].
  exact (runs_step Hprobe (step_failure requestId ref failedAt message _)).
Qed.

Lemma record_probe_stats ref checkedAt result st :
  let st' := record_probe ref checkedAt result st in
  totalChecks (stats st') = (totalChecks (stats st) + 1)%Z /\
  successfulChecks (stats st')
  = (successfulChecks (stats st) + if Probe.isUp result then 1 else 0)%Z /\
  failedChecks (stats st')
  = (failedChecks (stats st) + if Probe.isUp result then 0 else 1)%Z /\
  errors (stats st') = errors (stats st) /\
  assignedRequests st' = assignedRequests st /\
  next_ref st' = next_ref st.
Proof.
  cbv zeta. unfold record_probe.
  cbn [stats set_stats set_heap totalChecks successfulChecks failedChecks errors
         assignedRequests next_ref].
  destruct (Probe.isUp result); split_all; try reflexivity; lia.
Qed.

Lemma record_failure_stats requestId ref failedAt message st :
  let st' := record_failure requestId ref failedAt message st in
  totalChecks (stats st') = (totalChecks (stats st) + 1)%Z /\
  successfulChecks (stats st') = successfulChecks (stats st) /\
  failedChecks (stats st') = (failedChecks (stats st) + 1)%Z /\
  ((List.length (errors (stats st)) <= 100)%nat ->
   (List.length (errors (stats st')) <= 100)%nat) /\
  assignedRequests st' = assignedRequests st /\
  next_ref st' = next_ref st.
Proof.
  cbv zeta. unfold record_failure.
  cbn [stats set_stats totalChecks successfulChecks failedChecks errors
         assignedRequests next_ref].
  split_all; try reflexivity. intros Hlen.
  rewrite length_app. cbn [Datatypes.length].
  destruct (100 <? _)%nat eqn:E.
  - rewrite length_skipn, length_app. cbn [Datatypes.length]. lia.
  - apply Nat.ltb_ge in E. rewrite length_app. cbn [Datatypes.length]. lia.
Qed.

Lemma add_request_well_formed requestId requestInfo now st :
  well_formed st ->
  has requestId (assignedRequests st) = false ->
  well_formed (add_request requestId requestInfo now st).
Proof.
  intros (Hkeys & Hrefs & Hlt) Hnew. apply has_not_In in Hnew.
  unfold well_formed, add_request.
  cbn [assignedRequests next_ref set_assignedRequests set_next_ref set_heap].
  rewrite !map_app. cbn [map fst snd]. split_all.
  - apply (Permutation_NoDup (Permutation_cons_append _ _)). now constructor.
  - apply (Permutation_NoDup (Permutation_cons_append _ _)).
    constructor; [|exact Hrefs]. intros Hin. apply Hlt in Hin. lia.
  - intros ref Hin. apply in_app_or in Hin as [Hin|[<-|[]]]; [|lia].
    apply Hlt in Hin. lia.
Qed.

Lemma step_invariant st st' :
  step st st' ->
  well_formed st /\ consistent (stats st) ->
  well_formed st' /\ consistent (stats st').
Proof.
  intros Hstep [Hwf Hc].
  destruct Hstep
    as [requestId requestInfo now st Hnew | ids st | now k st | st
        | ref checkedAt result st | requestId ref failedAt message st].
  - (* a request is added *)
    split; [now apply add_request_well_formed | exact Hc].
  - (* the unassigned requests are removed *)
    destruct Hwf as (Hkeys & Hrefs & Hlt). split; [|exact Hc].
    unfold remove_unassigned, well_formed.
    cbn [assignedRequests next_ref set_assignedRequests].
    split_all; try now apply filter_keeps_distinct.
    intros ref Hin. apply Hlt. apply in_map_iff in Hin as (entry & E & Hin).
    apply filter_In in Hin as [Hin _]. apply in_map_iff. eauto.
  - (* processCheckQueue *)
    unfold processCheckQueue. destruct (isProcessingQueue st); [now split|].
    destruct Hwf as (Hkeys & Hrefs & Hlt).
    destruct (enqueue_fold now (assignedRequests st)
                (set_isProcessingQueue true st) Hrefs)
      as (_ & _ & _ & Ha & Hn & _ & Hs).
    cbn [assignedRequests next_ref stats set_isProcessingQueue] in Ha, Hn, Hs.
    unfold well_formed.
    cbn [fst assignedRequests next_ref stats set_checkQueue set_isProcessingQueue].
    rewrite Ha, Hn, Hs. now split.
  - (* the finally block *)
    now split.
  - (* a probe is recorded *)
    destruct (record_probe_stats ref checkedAt result st)
      as (Ht & Hok & Hf & He & Ha & Hn).
    cbv zeta in Ht, Hok, Hf, He, Ha, Hn. unfold well_formed, consistent in *.
    rewrite Ha, Hn, Ht, Hok, Hf, He. split; [exact Hwf|].
    destruct Hc as (Hsum & H0 & H1 & Hlen).
    destruct (Probe.isUp result); split_all; auto; lia.
  - (* a failed submission is recorded *)
    destruct (record_failure_stats requestId ref failedAt message st)
      as (Ht & Hok & Hf & He & Ha & Hn).
    cbv zeta in Ht, Hok, Hf, He, Ha, Hn. unfold well_formed, consistent in *.
    rewrite Ha, Hn, Ht, Hok, Hf. split; [exact Hwf|].
    destruct Hc as (Hsum & H0 & H1 & Hlen). split_all; auto; lia.
Qed.

Lemma runs_invariant st st' :
  runs st st' ->
  well_formed st /\ consistent (stats st) ->
  well_formed st' /\ consistent (stats st').
Proof.
  induction 1 as [st | st st' st'' _ IH Hstep]; intros H0; [exact H0|].
  exact (step_invariant Hstep (IH H0)).
Qed.

End RunFacts.

Lemma runs_synced : Scheduler.runs (Scheduler.initial 0) NodeScenario.synced.
Proof. apply syncWithBlockchain_runs. Qed.

(** X21.  In every state the node reaches from its start, by
    synchronisations, passes over the queue and checks in any interleaving,
    the counters of its statistics add up ([totalChecks] is
    [successfulChecks] plus [failedChecks]) and the error log holds at most
    100 records.  A check raises [totalChecks] by one, and by two when the
    submission of its result throws: the check is then counted once for the
    probe and once more as failed. *)
Theorem statistics_stay_consistent :
  forall (now : Z) (st : Scheduler.t),
    Scheduler.runs (Scheduler.initial now) st ->
    Scheduler.consistent (Scheduler.stats st) /\
    forall requestId ref sentAt answeredAt checkedAt failedAt r submit_throws,
      let st' := fst (Scheduler.performMonitoringCheck requestId ref sentAt
                        answeredAt checkedAt failedAt r submit_throws st) in
      Scheduler.consistent (Scheduler.stats st') /\
      Scheduler.totalChecks (Scheduler.stats st')
      = (Scheduler.totalChecks (Scheduler.stats st) + 1
         + match submit_throws (Probe.httpCheck sentAt answeredAt r) with
           | Some _ => 1
           | None => 0
           end)%Z.
Proof.
  intros now st Hruns.
  assert (H0 : Scheduler.well_formed (Scheduler.initial now) /\
               Scheduler.consistent (Scheduler.stats (Scheduler.initial now))).
  { split; [apply initial_well_formed|]. unfold Scheduler.consistent. simpl. lia. }
  pose proof (runs_invariant Hruns H0) as Hinv. split; [exact (proj2 Hinv)|].
  intros requestId ref sentAt answeredAt checkedAt failedAt r submit_throws. cbv zeta.
  split.
  - exact (proj2 (runs_invariant
                    (performMonitoringCheck_runs requestId ref sentAt answeredAt
                       checkedAt failedAt r submit_throws st) Hinv)).
  - unfold Scheduler.performMonitoringCheck. cbn [fst].
    destruct (record_probe_stats ref checkedAt (Probe.httpCheck sentAt answeredAt r) st)
      as (Ht & _).
    cbv zeta in Ht.
    destruct (submit_throws _) as [message|]; [|rewrite Ht; lia].
    destruct (record_failure_stats requestId ref failedAt message
                (Scheduler.record_probe ref checkedAt
                   (Probe.httpCheck sentAt answeredAt r) st)) as (Ht' & _).
    cbv zeta in Ht'. rewrite Ht', Ht. lia.
Qed.

Lemma statistics_stay_consistent_witness :
  Scheduler.consistent (Scheduler.stats NodeScenario.synced).
Proof. exact (proj1 (statistics_stay_consistent runs_synced)). Defined.

(** X22.  In every state the node reaches from its start the cache lists
    no request id twice, and no two entries share a request object, so that
    rescheduling one request never changes the check times of another. *)
Theorem cache_stays_well_formed :
  forall (now : Z) (st : Scheduler.t),
    Scheduler.runs (Scheduler.initial now) st ->
    NoDup (map fst (Scheduler.assignedRequests st)) /\
    NoDup (map snd (Scheduler.assignedRequests st)).
Proof.
  intros now st Hruns.
  assert (H0 : Scheduler.well_formed (Scheduler.initial now) /\
               Scheduler.consistent (Scheduler.stats (Scheduler.initial now))).
  { split; [apply initial_well_formed|]. unfold Scheduler.consistent. simpl. lia. }
  destruct (runs_invariant Hruns H0) as ((Hkeys & Hrefs & _) & _). now split.
Qed.

Lemma cache_stays_well_formed_witness :
  NoDup (map fst (Scheduler.assignedRequests NodeScenario.synced)) /\
  NoDup (map snd (Scheduler.assignedRequests NodeScenario.synced)).
Proof. exact (cache_stays_well_formed runs_synced). Defined.

(** ** The node's cache against the ledger *)

Lemma toString_injective i j :
  BlockchainService.toString i = BlockchainService.toString j -> i = j.
Proof.
  unfold BlockchainService.toString. intros H.
  apply (f_equal NilEmpty.uint_of_string) in H. rewrite !NilEmpty.usu in H.
  injection H as H. apply (f_equal N.of_uint) in H.
  now rewrite !Unsigned.of_to in H.
Qed.

Lemma sync_keys ids getRequestInfo now st :
  Scheduler.well_formed st ->
  (forall k, In k ids -> Scheduler.has k (Scheduler.assignedRequests st) = false ->
             getRequestInfo k <> None) ->
  forall k,
    Scheduler.has k
      (Scheduler.assignedRequests
         (Scheduler.syncWithBlockchain ids getRequestInfo now st)) = true
    <-> In k ids.
Proof.
  intros Hwf Hfound k. unfold Scheduler.syncWithBlockchain.
  destruct (Scheduler.add_assigned ids getRequestInfo now st)
    as [st1 completed] eqn:H.
  destruct (@add_assigned_spec getRequestInfo now ids st st1 completed Hwf H)
    as (_ & _ & _ & _ & Hall & Hfail & _).
  destruct completed.
  - unfold Scheduler.remove_unassigned.
    cbn [Scheduler.assignedRequests Scheduler.set_assignedRequests].
    rewrite has_In, in_map_iff. split.
    + intros (entry & <- & Hin). apply filter_In in Hin as [_ Hin].
      now apply includes_In.
    + intros Hk.
      destruct (proj1 (in_map_iff _ _ _) (Hall eq_refl k Hk)) as (entry & E & Hin).
      exists entry. split; [exact E|]. apply filter_In. split; [exact Hin|].
      rewrite E. now apply includes_In.
  - destruct (Hfail eq_refl) as (k' & Hk' & Hnone & Hnew).
    apply has_not_In in Hnew. now destruct (Hfound k' Hk' Hnew).
Qed.

(** X23.  The node's cache follows the committees of the ledger: after a
    synchronisation that reads [getNodeRequests] for the node's address in
    a reachable world, and in which every lookup of a new request succeeds,
    the cache holds a request exactly when the node sits on that request's
    committee, whether or not the request is still active or its round
    closed.  When the read fails the cache ends up empty. *)
Theorem cache_follows_the_committees :
  forall (tok : IERC20) (w : world tok) (a : address)
         (getRequestInfo : string -> option Scheduler.request_info)
         (now : string -> Z) (st : Scheduler.t),
    reachable w ->
    Scheduler.well_formed st ->
    let ids := BlockchainService.getAssignedRequests (Some (getNodeRequests a w)) in
    (forall k, In k ids -> Scheduler.has k (Scheduler.assignedRequests st) = false ->
               getRequestInfo k <> None) ->
    (forall _requestId,
        Scheduler.has (BlockchainService.toString _requestId)
          (Scheduler.assignedRequests
             (Scheduler.syncWithBlockchain ids getRequestInfo now st)) = true
        <-> In a (getRequestNodes _requestId w)) /\
    Scheduler.assignedRequests
      (Scheduler.syncWithBlockchain (BlockchainService.getAssignedRequests None)
         getRequestInfo now st) = [].
Proof.
  intros tok w a g now st Hreach Hwf ids Hfound. split.
  - intros i.
    rewrite (sync_keys ids g now Hwf Hfound). subst ids. unfold BlockchainService.getAssignedRequests.
    destruct (listed_index_reachable Hreach) as (_ & _ & Hix).
    destruct (Hix a) as (_ & Hiff). unfold getRequestNodes, getNodeRequests.
    rewrite <- Hiff, in_map_iff. split.
    + intros (j & E & Hin). apply toString_injective in E. now subst.
    + intros Hin. eauto.
  - assert (Hnone : forall k, In k (BlockchainService.getAssignedRequests None) ->
                Scheduler.has k (Scheduler.assignedRequests st) = false ->
                g k <> None) by intros k [].
    pose proof (sync_keys _ g now Hwf Hnone) as Hkeys.
    destruct (Scheduler.assignedRequests
                (Scheduler.syncWithBlockchain (BlockchainService.getAssignedRequests None)
                   g now st)) as [|[k r] rest] eqn:E; [reflexivity|].
    exfalso. apply (proj1 (Hkeys k)). apply has_In. now left.
Qed.

Lemma fixture_assigned_to_node1 :
  BlockchainService.getAssignedRequests
    (Some (getNodeRequests Fixture.node1 (Fixture.requested Ledger.Reverts)))
  = ["1"%string].
Proof. vm_compute. reflexivity. Qed.

Lemma cache_follows_the_committees_witness :
  let ids :=
    BlockchainService.getAssignedRequests
      (Some (getNodeRequests Fixture.node1 (Fixture.requested Ledger.Reverts))) in
  Scheduler.has (BlockchainService.toString 1)
    (Scheduler.assignedRequests
       (Scheduler.syncWithBlockchain ids NodeScenario.getRequestInfo
          (fun _ => 1000%Z) (Scheduler.initial 0))) = true
  <-> In Fixture.node1 (getRequestNodes 1 (Fixture.requested Ledger.Reverts)).
Proof.
  assert (Hfound : forall k,
             In k (BlockchainService.getAssignedRequests
                     (Some (getNodeRequests Fixture.node1
                              (Fixture.requested Ledger.Reverts)))) ->
             Scheduler.has k (Scheduler.assignedRequests (Scheduler.initial 0)) = false ->
             NodeScenario.getRequestInfo k <> None).
  { rewrite fixture_assigned_to_node1. intros k [<-|[]] _. discriminate. }
  exact (proj1 (@cache_follows_the_committees _ (Fixture.requested Ledger.Reverts)
                  Fixture.node1 NodeScenario.getRequestInfo (fun _ => 1000%Z)
                  (Scheduler.initial 0) fixture_requested_reachable
                  (initial_well_formed 0) Hfound) 1).
Defined.

(** ** The order in which checks start *)

Section PriorityFacts.
Import Scheduler.

Lemma enqueue_if_due_own_priority now st entry ref :
  own_priority (heap (enqueue_if_due now st entry) ref) = own_priority (heap st ref).
Proof.
  destruct (enqueue_if_due_spec now st entry) as (_ & Hh & _). cbv zeta in Hh.
  rewrite Hh. destruct (is_due now (heap st) entry); [|reflexivity].
  unfold store. destruct (Nat.eqb_spec ref (snd entry)) as [->|_]; reflexivity.
Qed.

Lemma enqueue_own_priority now l :
  forall st ref,
    own_priority (heap (fold_left (enqueue_if_due now) l st) ref)
    = own_priority (heap st ref).
Proof.
  induction l as [|entry rest IH]; intros st ref; cbn [fold_left]; [reflexivity|].
  rewrite IH. apply enqueue_if_due_own_priority.
Qed.

Lemma enqueue_priorities now l :
  forall st,
    (forall entry, In entry l -> own_priority (heap st (snd entry)) = None) ->
    Forall (fun c => priority c = 0%Z) (checkQueue st) ->
    Forall (fun c => priority c = 0%Z)
      (checkQueue (fold_left (enqueue_if_due now) l st)).
Proof.
  induction l as [|entry rest IH]; intros st Hnone H; cbn [fold_left]; [exact H|].
  apply IH.
  - intros other Hin. rewrite enqueue_if_due_own_priority. apply Hnone. now right.
  - destruct (enqueue_if_due_spec now st entry) as (Hq & _).
    cbv zeta in Hq. rewrite Hq. apply Forall_app. split; [exact H|].
    destruct (is_due now (heap st) entry); repeat constructor.
    unfold check_of, request_priority. cbn [priority].
    rewrite (Hnone entry) by now left. reflexivity.
Qed.

Lemma processCheckQueue_priorities now maxConcurrent st :
  no_priority st ->
  Forall (fun c => priority c = 0%Z) (checkQueue st) ->
  no_priority (fst (processCheckQueue now maxConcurrent st)) /\
  Forall (fun c => priority c = 0%Z)
    (snd (processCheckQueue now maxConcurrent st)
     ++ checkQueue (fst (processCheckQueue now maxConcurrent st))).
Proof.
  intros Hnone H. unfold processCheckQueue.
  destruct (isProcessingQueue st); [now split|].
  pose proof (enqueue_fold_frame now (assignedRequests st)
                (set_isProcessingQueue true st)) as Ha.
  cbn [assignedRequests set_isProcessingQueue] in Ha.
  cbn [fst snd checkQueue set_checkQueue]. split.
  - unfold no_priority. cbn [assignedRequests heap set_checkQueue].
    change (assignedRequests (set_isProcessingQueue true st))
      with (assignedRequests st).
    rewrite Ha. intros entry Hin. rewrite enqueue_own_priority. now apply Hnone.
  - rewrite firstn_skipn.
    apply Forall_forall. intros c Hc. apply (Permutation_in _ (sort_perm _)) in Hc.
    revert c Hc. apply Forall_forall. now apply enqueue_priorities.
Qed.

Lemma step_priorities st st' :
  step st st' ->
  no_priority st /\ Forall (fun c => priority c = 0%Z) (checkQueue st) ->
  no_priority st' /\ Forall (fun c => priority c = 0%Z) (checkQueue st').
Proof.
  intros Hstep (Hnone & H).
  destruct Hstep
    as [requestId requestInfo now st Hnew | ids st | now k st | st
        | ref checkedAt result st | requestId ref failedAt message st].
  - split; [|exact H]. unfold no_priority, add_request.
    cbn [assignedRequests heap set_assignedRequests set_next_ref set_heap].
    intros entry Hin. unfold store.
    destruct (Nat.eqb_spec (snd entry) (next_ref st)) as [_|Hne]; [reflexivity|].
    apply in_app_or in Hin as [Hin|[<-|[]]]; [now apply Hnone | now contradiction Hne].
  - split; [|exact H]. unfold no_priority, remove_unassigned.
    cbn [assignedRequests heap set_assignedRequests].
    intros entry Hin. apply filter_In in Hin as [Hin _]. now apply Hnone.
  - destruct (@processCheckQueue_priorities now k st Hnone H) as (Hnone' & H').
    split; [exact Hnone'|]. apply Forall_app in H'. apply H'.
  - now split.
  - split; [|exact H]. unfold no_priority, record_probe.
    cbn [assignedRequests heap set_heap set_stats].
    intros entry Hin. unfold store.
    destruct (Nat.eqb_spec (snd entry) ref) as [E|_]; [|now apply Hnone].
    cbn [own_priority with_lastChecked]. rewrite <- E. now apply Hnone.
  - now split.
Qed.

Lemma runs_priorities now st :
  runs (initial now) st ->
  no_priority st /\ Forall (fun c => priority c = 0%Z) (checkQueue st).
Proof.
  intros H. remember (initial now) as st0 eqn:E.
  induction H as [st | st st' st'' _ IH Hstep].
  - subst st. split; [intros entry []|constructor].
  - exact (step_priorities Hstep (IH E)).
Qed.

End PriorityFacts.

(** X24.  In every state the node reaches from its start no cached
    request has a [priority] property: [syncWithBlockchain] builds the
    objects without one, and the writes of [processCheckQueue] and
    [performMonitoringCheck] go to [nextCheck] and [lastChecked].  So every
    check the node queues gets priority 0 from [request.priority || 0], and
    the comparator falls back on the timestamps: a pass over the queue
    starts the checks that were queued at the earliest clock readings, and
    no check left waiting is older than a check started. *)
Theorem checks_start_oldest_first :
  forall (start now maxConcurrent : Z) (st : Scheduler.t),
    Scheduler.runs (Scheduler.initial start) st ->
    let st' := fst (Scheduler.processCheckQueue now maxConcurrent st) in
    let batch := snd (Scheduler.processCheckQueue now maxConcurrent st) in
    (forall entry,
        In entry (Scheduler.assignedRequests st) ->
        Scheduler.own_priority (Scheduler.heap st (snd entry)) = None) /\
    Forall (fun c => Scheduler.priority c = 0%Z) (batch ++ Scheduler.checkQueue st') /\
    (Scheduler.isProcessingQueue st = false ->
     forall a b,
       In a batch -> In b (Scheduler.checkQueue st') ->
       (Scheduler.timestamp a <= Scheduler.timestamp b)%Z).
Proof.
  intros start now k st Hruns. cbv zeta.
  destruct (runs_priorities Hruns) as (Hnone & Hqueue).
  destruct (@processCheckQueue_priorities now k st Hnone Hqueue) as (_ & Hzero).
  split; [exact Hnone|]. split; [exact Hzero|]. intros Hidle a b Ha Hb.
  assert (Hp : Scheduler.precedes a b).
  { revert Ha Hb. unfold Scheduler.processCheckQueue. rewrite Hidle.
    cbn [fst snd Scheduler.checkQueue Scheduler.set_checkQueue].
    apply sorted_split, sort_sorted. }
  apply Forall_app in Hzero as [Hbatch Hrest].
  apply (proj1 (Forall_forall _ _) Hbatch) in Ha.
  apply (proj1 (Forall_forall _ _) Hrest) in Hb.
  unfold Scheduler.precedes, Scheduler.compare_checks in Hp.
  rewrite Ha, Hb in Hp. cbn in Hp. lia.
Qed.

Lemma checks_start_oldest_first_witness :
  let st' := fst (Scheduler.processCheckQueue 1000 1 NodeScenario.synced) in
  let batch := snd (Scheduler.processCheckQueue 1000 1 NodeScenario.synced) in
  Forall (fun c => Scheduler.priority c = 0%Z) (batch ++ Scheduler.checkQueue st').
Proof.
  exact (proj1 (proj2 (checks_start_oldest_first 1000 1 runs_synced))).
Defined.
